(** * amazon-msk-topic-resource: reconciliation commands, diff engine and naming

    A shallow embedding of the Go packages [tr/types] and [tr/admin] and of
    the library calls they rely on, followed by the properties of the
    embedded code.

    Conventions.
    - Go [string] is a byte sequence: [string] (a list of [ascii]).
    - Go [int] is modelled by [Z]; explicit conversions ([int32], [int16])
      are written out with their wrap-around.
    - A [*string] is an [option string]: [None] is the nil pointer.
    - [map[string]T] is [gmap string T].  Go leaves the iteration order of
      a map unspecified; the class [MapOrder] below stands for the order a
      run happens to use.
    - Pointers to [User] values are only read, never written through, so a
      [*types.User] is modelled by the [User] value it points to. *)

From Stdlib Require Import ZArith Ascii String List Lia.
From stdpp Require Import base option list strings pretty gmap fin_maps.

#[local] Set Warnings "-register-all".

Local Open Scope Z_scope.

(* ===================================================================== *)
(** ** Library code used by the source *)
(* ===================================================================== *)

(** *** [crypto/sha256]: [Sum256] (FIPS 180-4), on bytes as [Z] in [0,256). *)
Module sha256.

Definition w32 (x : Z) : Z := x mod 2 ^ 32.
Definition add32 (x y : Z) : Z := w32 (x + y).
Definition rotr (n x : Z) : Z :=
  w32 (Z.lor (Z.shiftr x n) (Z.shiftl x (32 - n))).
Definition not32 (x : Z) : Z := 2 ^ 32 - 1 - x.

Definition Ch (x y z : Z) : Z := Z.lxor (Z.land x y) (Z.land (not32 x) z).
Definition Maj (x y z : Z) : Z :=
  Z.lxor (Z.lxor (Z.land x y) (Z.land x z)) (Z.land y z).
Definition Sigma0 (x : Z) : Z := Z.lxor (Z.lxor (rotr 2 x) (rotr 13 x)) (rotr 22 x).
Definition Sigma1 (x : Z) : Z := Z.lxor (Z.lxor (rotr 6 x) (rotr 11 x)) (rotr 25 x).
Definition sigma0 (x : Z) : Z := Z.lxor (Z.lxor (rotr 7 x) (rotr 18 x)) (Z.shiftr x 3).
Definition sigma1 (x : Z) : Z := Z.lxor (Z.lxor (rotr 17 x) (rotr 19 x)) (Z.shiftr x 10).

(** The constants of FIPS 180-4, from their definition: the first 32 bits
    of the fractional parts of the cube roots (round constants) and of the
    square roots (initial hash value) of the first primes. *)
Definition is_prime (n : nat) : bool :=
  forallb (fun d => negb (n mod d =? 0)%nat) (seq 2 (n - 2)).

Definition primes (count : nat) : list Z :=
  map Z.of_nat (take count (filter (fun n => is_prime n = true) (seq 2 400))).

(** The largest [r] below [2 ^ bits] with [r ^ 3 <= n], one bit at a time. *)
Fixpoint cube_root (bits : nat) (n r : Z) : Z :=
  match bits with
  | O => r
  | S b =>
      let r' := r + 2 ^ Z.of_nat b in
      cube_root b n (if r' * r' * r' <=? n then r' else r)
  end.

Definition K : list Z :=
  Eval vm_compute in map (fun p => cube_root 36 (p * 2 ^ 96) 0 mod 2 ^ 32) (primes 64).

Definition H0 : list Z :=
  Eval vm_compute in map (fun p => Z.sqrt (p * 2 ^ 64) mod 2 ^ 32) (primes 8).

(** The eight working variables / chaining values. *)
Record state := State { sa : Z; sb : Z; sc : Z; sd : Z; se : Z; sf : Z; sg : Z; sh : Z }.

Definition init : state :=
  let h i := nth i H0 0 in
  State (h 0%nat) (h 1%nat) (h 2%nat) (h 3%nat) (h 4%nat) (h 5%nat) (h 6%nat) (h 7%nat).

(** Padding: 0x80, zeros up to 56 mod 64, then the bit length on 8 bytes. *)
Definition be_bytes (n : nat) (x : Z) : list Z :=
  map (fun i => Z.shiftr x (8 * Z.of_nat i) mod 256) (rev (seq 0 n)).

Definition pad (msg : list Z) : list Z :=
  let len := Z.of_nat (length msg) in
  let zeros := Z.to_nat ((55 - len) mod 64) in
  msg ++ [0x80] ++ repeat 0 zeros ++ be_bytes 8 (8 * len).

Fixpoint chunks (n : nat) (size : nat) (l : list Z) : list (list Z) :=
  match n with
  | O => []
  | S n' => take size l :: chunks n' size (drop size l)
  end.

Definition be_word (bs : list Z) : Z :=
  fold_left (fun acc b => acc * 256 + b) bs 0.

Definition block_words (block : list Z) : list Z :=
  map be_word (chunks 16 4 block).

(** Message schedule: 48 further words after the 16 of the block. *)
Fixpoint extend (n : nat) (w : list Z) : list Z :=
  match n with
  | O => w
  | S n' =>
      let i := length w in
      let at_ k := nth (i - k) w 0 in
      extend n' (w ++ [add32 (add32 (sigma1 (at_ 2%nat)) (at_ 7%nat))
                             (add32 (sigma0 (at_ 15%nat)) (at_ 16%nat))])
  end.

Definition round (s : state) (kw : Z * Z) : state :=
  let t1 := add32 (add32 (add32 (sh s) (Sigma1 (se s)))
                         (add32 (Ch (se s) (sf s) (sg s)) (fst kw))) (snd kw) in
  let t2 := add32 (Sigma0 (sa s)) (Maj (sa s) (sb s) (sc s)) in
  State (add32 t1 t2) (sa s) (sb s) (sc s) (add32 (sd s) t1) (se s) (sf s) (sg s).

Definition compress (s : state) (block : list Z) : state :=
  let w := extend 48 (block_words block) in
  let r := fold_left round (combine K w) s in
  State (add32 (sa s) (sa r)) (add32 (sb s) (sb r)) (add32 (sc s) (sc r))
        (add32 (sd s) (sd r)) (add32 (se s) (se r)) (add32 (sf s) (sf r))
        (add32 (sg s) (sg r)) (add32 (sh s) (sh r)).

Definition digest (s : state) : list Z :=
  be_bytes 4 (sa s) ++ be_bytes 4 (sb s) ++ be_bytes 4 (sc s) ++ be_bytes 4 (sd s) ++
  be_bytes 4 (se s) ++ be_bytes 4 (sf s) ++ be_bytes 4 (sg s) ++ be_bytes 4 (sh s).

Definition Sum256 (data : list Z) : list Z :=
  let p := pad data in
  digest (fold_left compress (chunks (length p / 64) 64 p) init).

End sha256.

(** *** [encoding/base32]: [StdEncoding.WithPadding(NoPadding).EncodeToString]
    (RFC 4648): the bytes as a bit stream, most significant bit first, cut
    in groups of five bits, the last group filled with zero bits. *)
Module base32.

Definition encodeStd : string := "ABCDEFGHIJKLMNOPQRSTUVWXYZ234567".

Definition byte_bits (b : Z) : list bool :=
  map (fun i => Z.testbit b (Z.of_nat i)) (rev (seq 0 8)).

Definition bits_value (bs : list bool) : nat :=
  fold_left (fun acc (b : bool) => (2 * acc + if b then 1 else 0)%nat) bs 0%nat.

Definition quantum (bs : list bool) : list bool :=
  take 5 (bs ++ repeat false 5).

Fixpoint groups (n : nat) (bs : list bool) : list (list bool) :=
  match n with
  | O => []
  | S n' => quantum bs :: groups n' (drop 5 bs)
  end.

Definition digit (g : list bool) : ascii :=
  match String.get (bits_value g) encodeStd with
  | Some c => c
  | None => "="%char
  end.

Definition EncodeToString (src : list Z) : string :=
  let bs := flat_map byte_bits src in
  string_of_list_ascii (map digit (groups ((length bs + 4) / 5) bs)).

End base32.

(** *** [fmt.Sprintf], for the verbs the source uses on string operands,
    [%s] and [%v], which print the string itself.  A verb without operand
    prints Go's [%!s(MISSING)]; [%%] is a percent sign. *)
Module fmt.

Fixpoint Sprintf (format : string) (args : list string) : string :=
  match format with
  | EmptyString => EmptyString
  | String "%" (String "s" rest) =>
      match args with
      | a :: args' => a +:+ Sprintf rest args'
      | [] => "%!s(MISSING)" +:+ Sprintf rest []
      end
  | String "%" (String "v" rest) =>
      match args with
      | a :: args' => a +:+ Sprintf rest args'
      | [] => "%!v(MISSING)" +:+ Sprintf rest []
      end
  | String "%" (String "%" rest) => String "%" (Sprintf rest args)
  | String c rest => String c (Sprintf rest args)
  end.

End fmt.

(** [[]byte(s)] *)
Definition bytes_of_string (s : string) : list Z :=
  map (fun c => Z.of_N (N_of_ascii c)) (list_ascii_of_string s).

(* ===================================================================== *)
(** ** Errors and results *)
(* ===================================================================== *)

(** Go [error] values.  [WithStack] is [github.com/pkg/errors.WithStack]:
    it keeps the wrapped error reachable for [errors.Is] and its text. *)
Inductive error : Type :=
| errors_New (text : string)
| kerr_UnknownTopicOrPartition
| kerr_TopicAlreadyExists
| backend_error (text : string)
| WithStack (err : error).

#[global] Instance error_eq_dec : EqDecision error.
Proof. solve_decision. Defined.

Fixpoint errors_Is (err target : error) : bool :=
  if decide (err = target) then true
  else match err with
       | WithStack inner => errors_Is inner target
       | _ => false
       end.

Fixpoint Error (err : error) : string :=
  match err with
  | errors_New text => text
  | kerr_UnknownTopicOrPartition =>
      "UNKNOWN_TOPIC_OR_PARTITION: This server does not host this topic-partition."
  | kerr_TopicAlreadyExists => "TOPIC_ALREADY_EXISTS: Topic with this name already exists."
  | backend_error text => text
  | WithStack inner => Error inner
  end.

(** What a call produces: a value, a returned [error], or a run-time panic. *)
Inductive outcome (A : Type) : Type :=
| Ok (a : A)
| Err (e : error)
| Panic (reason : string).
Arguments Ok {A} a.
Arguments Err {A} e.
Arguments Panic {A} reason.

Definition obind {A B} (m : outcome A) (k : A -> outcome B) : outcome B :=
  match m with
  | Ok a => k a
  | Err e => Err e
  | Panic r => Panic r
  end.

#[global] Instance outcome_bind : MBind outcome := fun A B k m => obind m k.
#[global] Instance outcome_ret : MRet outcome := fun A a => Ok a.

(** [for _, x := range xs { acc = body(acc, x) }] with early exit. *)
Fixpoint ofold {A B} (body : B -> A -> outcome B) (xs : list A) (acc : B) : outcome B :=
  match xs with
  | [] => Ok acc
  | x :: xs' => obind (body acc x) (ofold body xs')
  end.

(** Unary [*p] on a [*string]. *)
Definition deref (p : option string) : outcome string :=
  match p with
  | Some s => Ok s
  | None => Panic "runtime error: invalid memory address or nil pointer dereference"
  end.

(** The order in which [range] visits a Go map: some enumeration of its
    entries, each exactly once.  The source ranges over each of its maps
    once, so one enumeration per map is all a run uses. *)
Class MapOrder := {
  range : forall {K} `{Countable K} {V}, gmap K V -> list (K * V);
  range_perm : forall K `{Countable K} V (m : gmap K V), range m ≡ₚ map_to_list m
}.

(* ===================================================================== *)
(** ** JSON documents and schema validation *)
(* ===================================================================== *)

(** *** [encoding/json]: the property map after [json.Marshal], which
    writes the keys of a Go map once each, in sorted order.  Numbers are
    integers here (CloudFormation delivers property values as strings). *)
Module json.

Inductive Value : Type :=
| Null
| Bool (b : bool)
| Number (n : Z)
| Str (s : string)
| Array (items : list Value)
| Object (fields : list (string * Value)).

Fixpoint get (k : string) (fields : list (string * Value)) : option Value :=
  match fields with
  | [] => None
  | (k', v) :: rest => if decide (k' = k) then Some v else get k rest
  end.

Definition is_digit (c : ascii) : bool :=
  let n := N_of_ascii c in ((48 <=? n) && (n <=? 57))%N.

Fixpoint digits (acc : Z) (s : string) : option Z :=
  match s with
  | EmptyString => Some acc
  | String c rest =>
      if is_digit c then digits (10 * acc + (Z.of_N (N_of_ascii c) - 48)) rest else None
  end.

(** [strconv.ParseInt(s, 10, 64)]: optional sign, at least one digit,
    within the range of [int64]. *)
Definition ParseInt (s : string) : option Z :=
  let signed :=
    match s with
    | EmptyString => None
    | String "-" (String c rest) => Z.opp <$> digits 0 (String c rest)
    | String "+" (String c rest) => digits 0 (String c rest)
    | _ => digits 0 s
    end in
  n ← signed;
  if ((- 2 ^ 63 <=? n) && (n <? 2 ^ 63))%Z then Some n else None.

End json.

(** *** [github.com/xeipuuv/gojsonschema], for the keywords the schema of
    the source uses.  The error texts are the library's default locale, the
    ones the tests of [NewTopicInfo] compare against. *)
Module gojsonschema.

Inductive JType : Type := TypeString | TypeObject | TypeArray.

Record Regexp := { source : string; MatchString : string -> bool }.

Inductive Schema : Type :=
| SubSchema (type : option JType)
            (required : list string)
            (properties : list (string * Schema))
            (additionalProperties : bool)
            (pattern : option Regexp)
            (enum : list string)
            (items : option Schema).

(** An error: where (the path from the root) and what. *)
Record ResultError := { Context : list string; Description : string }.

Definition Field (e : ResultError) : string :=
  match Context e with
  | [] => "(root)"
  | path => String.concat "." path
  end.

(** [ResultError.String()]: the locale's [{{.field}}: {{.description}}]. *)
Definition String_ (e : ResultError) : string :=
  Field e +:+ ": " +:+ Description e.

Definition type_name (t : JType) : string :=
  match t with
  | TypeString => "string"
  | TypeObject => "object"
  | TypeArray => "array"
  end.

Definition given_name (v : json.Value) : string :=
  match v with
  | json.Null => "null"
  | json.Bool _ => "boolean"
  | json.Number _ => "integer"
  | json.Str _ => "string"
  | json.Array _ => "array"
  | json.Object _ => "object"
  end.

Definition has_type (t : JType) (v : json.Value) : bool :=
  match t, v with
  | TypeString, json.Str _ => true
  | TypeObject, json.Object _ => true
  | TypeArray, json.Array _ => true
  | _, _ => false
  end.

Definition dquote : string := String (ascii_of_nat 34) EmptyString.
Definition quoted (s : string) : string := dquote +:+ s +:+ dquote.

Definition mk (ctx : list string) (d : string) : ResultError :=
  {| Context := ctx; Description := d |}.

Definition check_enum (enum : list string) (ctx : list string) (v : json.Value)
  : list ResultError :=
  match enum, v with
  | [], _ => []
  | _, json.Str s =>
      if bool_decide (s ∈ enum) then []
      else [mk ctx (Field (mk ctx "") +:+ " must be one of the following: "
                    +:+ String.concat ", " (map quoted enum))]
  | _, _ =>
      [mk ctx (Field (mk ctx "") +:+ " must be one of the following: "
               +:+ String.concat ", " (map quoted enum))]
  end.

Definition check_required (required : list string) (ctx : list string)
    (fields : list (string * json.Value)) : list ResultError :=
  flat_map (fun p => match json.get p fields with
                     | Some _ => []
                     | None => [mk ctx (p +:+ " is required")]
                     end) required.

Definition check_additional (allowed : bool) (known : list string) (ctx : list string)
    (fields : list (string * json.Value)) : list ResultError :=
  if allowed then []
  else flat_map (fun kv => if bool_decide (fst kv ∈ known) then []
                           else [mk ctx ("Additional property " +:+ fst kv
                                         +:+ " is not allowed")]) fields.

Definition check_pattern (pattern : option Regexp) (ctx : list string) (s : string)
  : list ResultError :=
  match pattern with
  | Some re => if MatchString re s then []
               else [mk ctx ("Does not match pattern '" +:+ source re +:+ "'")]
  | None => []
  end.

Fixpoint validateRecursive (s : Schema) (ctx : list string) (v : json.Value)
  {struct s} : list ResultError :=
  match s with
  | SubSchema type required properties additionalProperties pattern enum items =>
      let mistyped :=
        match type with
        | Some t => negb (has_type t v)
        | None => false
        end in
      if mistyped then
        [mk ctx ("Invalid type. Expected: " +:+ from_option type_name "" type
                 +:+ ", given: " +:+ given_name v)]
      else
        check_enum enum ctx v ++
        match v with
        | json.Object fields =>
            check_required required ctx fields ++
            check_additional additionalProperties (map fst properties) ctx fields ++
            (fix children (ps : list (string * Schema)) : list ResultError :=
               match ps with
               | [] => []
               | (name, sub) :: ps' =>
                   match json.get name fields with
                   | Some child => validateRecursive sub (ctx ++ [name]) child
                   | None => []
                   end ++ children ps'
               end) properties
        | json.Array elems =>
            match items with
            | Some sub =>
                concat (imap (fun i elem =>
                                validateRecursive sub (ctx ++ [pretty i]) elem) elems)
            | None => []
            end
        | json.Str str => check_pattern pattern ctx str
        | _ => []
        end
  end.

Definition Validate (schema : Schema) (document : json.Value) : list ResultError :=
  validateRecursive schema [] document.

(** [Result.Valid()]: no error was recorded. *)
Definition Valid (errors : list ResultError) : bool :=
  match errors with [] => true | _ => false end.

End gojsonschema.

(* ===================================================================== *)
(** ** Package [types] (src/types/topic_info.go) *)
(* ===================================================================== *)
Module types.

Definition Permission : Type := string.
Definition DeletionPolicy : Type := string.

Definition PermissionRead : Permission := "READ".
Definition PermissionWrite : Permission := "WRITE".
Definition DeletionPolicyDelete : DeletionPolicy := "DELETE".
Definition DeletionPolicyRetain : DeletionPolicy := "RETAIN".

Record User := {
  Username : string;
  Arn : string;
  Permissions : list Permission
}.

Record TopicInfo := {
  Name : string;
  Partitions : Z;
  ReplicationFactor : Z;
  ClusterArn : string;
  Config : gmap string (option string);
  Users : list User;
  DeletionPolicy_ : DeletionPolicy
}.

(** The pattern [^[0-9]*$] of the schema. *)
Fixpoint all_digits (s : string) : bool :=
  match s with
  | EmptyString => true
  | String c rest => json.is_digit c && all_digits rest
  end.

Definition numeric : gojsonschema.Regexp :=
  {| gojsonschema.source := "^[0-9]*$"; gojsonschema.MatchString := all_digits |}.

Import gojsonschema.

Definition stringSchema : Schema :=
  SubSchema (Some TypeString) [] [] true None [] None.

(** [#/definitions/User] *)
Definition userSchema : Schema :=
  SubSchema (Some TypeObject) ["Username"; "Permissions"]
    [ ("Username", stringSchema);
      ("Arn", stringSchema);
      ("Permissions",
        SubSchema (Some TypeArray) [] [] true None []
          (Some (SubSchema (Some TypeString) [] [] true None ["READ"; "WRITE"] None))) ]
    false None [] None.

Definition topicInfoSchema : Schema :=
  SubSchema (Some TypeObject)
    ["ServiceToken"; "Name"; "Partitions"; "ReplicationFactor"; "ClusterArn"]
    [ ("ServiceToken", stringSchema);
      ("Name", stringSchema);
      ("Partitions", SubSchema (Some TypeString) [] [] true (Some numeric) [] None);
      ("ReplicationFactor", SubSchema (Some TypeString) [] [] true (Some numeric) [] None);
      ("ClusterArn", stringSchema);
      ("Config", SubSchema (Some TypeObject) [] [] true None [] None);
      ("Users", SubSchema (Some TypeArray) [] [] true None [] (Some userSchema));
      ("DeletionPolicy",
        SubSchema (Some TypeString) [] [] true None ["DELETE"; "RETAIN"] None) ]
    false None [] None.

(** [json.Unmarshal(buf, &ti)] for the struct types above.  It runs only
    on documents the schema accepted, whose keys are exactly the property
    names of the schema, so keys are compared exactly.  A JSON [null]
    leaves a field as it is and stores a nil pointer in a map of
    pointers.  On a type mismatch [Unmarshal] reports an error; every
    caller drops the partly filled struct then, so the model stops at the
    first one. *)
Definition mismatch {A} (field : string) : outcome A :=
  Err (errors_New ("json: cannot unmarshal value into Go struct field " +:+ field)).

Definition decodeString (field : string) (v : json.Value) (current : string)
  : outcome string :=
  match v with
  | json.Null => Ok current
  | json.Str s => Ok s
  | _ => mismatch field
  end.

(** An [int] field tagged [json:",string"]. *)
Definition decodeQuotedInt (field : string) (v : json.Value) (current : Z) : outcome Z :=
  match v with
  | json.Null => Ok current
  | json.Str s =>
      match json.ParseInt s with
      | Some n => Ok n
      | None => Err (errors_New ("json: invalid use of ,string struct tag, trying to "
                                 +:+ "unmarshal " +:+ quoted s +:+ " into int"))
      end
  | _ => Err (errors_New ("json: invalid use of ,string struct tag, trying to "
                          +:+ "unmarshal unquoted value into int"))
  end.

Definition decodeConfig (v : json.Value) (current : gmap string (option string))
  : outcome (gmap string (option string)) :=
  match v with
  | json.Null => Ok current
  | json.Object fields =>
      ofold (fun m kv =>
               match snd kv with
               | json.Null => Ok (<[fst kv := None]> m)
               | json.Str s => Ok (<[fst kv := Some s]> m)
               | _ => mismatch "TopicInfo.Config"
               end) fields current
  | _ => mismatch "TopicInfo.Config"
  end.

Definition decodePermissions (v : json.Value) (current : list Permission)
  : outcome (list Permission) :=
  match v with
  | json.Null => Ok current
  | json.Array elems =>
      ofold (fun ps e => p ← decodeString "TopicInfo.Users.Permissions" e ""; Ok (ps ++ [p]))
            elems []
  | _ => mismatch "TopicInfo.Users.Permissions"
  end.

Definition decodeUser (v : json.Value) : outcome User :=
  let zero := {| Username := ""; Arn := ""; Permissions := [] |} in
  match v with
  | json.Null => Ok zero
  | json.Object fields =>
      ofold (fun u kv =>
               let '(k, x) := kv in
               if decide (k = "Username") then
                 s ← decodeString "TopicInfo.Users.Username" x (Username u);
                 Ok {| Username := s; Arn := Arn u; Permissions := Permissions u |}
               else if decide (k = "Arn") then
                 s ← decodeString "TopicInfo.Users.Arn" x (Arn u);
                 Ok {| Username := Username u; Arn := s; Permissions := Permissions u |}
               else if decide (k = "Permissions") then
                 ps ← decodePermissions x (Permissions u);
                 Ok {| Username := Username u; Arn := Arn u; Permissions := ps |}
               else Ok u) fields zero
  | _ => mismatch "TopicInfo.Users"
  end.

Definition decodeUsers (v : json.Value) (current : list User) : outcome (list User) :=
  match v with
  | json.Null => Ok current
  | json.Array elems => ofold (fun us e => u ← decodeUser e; Ok (us ++ [u])) elems []
  | _ => mismatch "TopicInfo.Users"
  end.

Definition Unmarshal (document : json.Value) (ti : TopicInfo) : outcome TopicInfo :=
  match document with
  | json.Object fields =>
      ofold (fun ti kv =>
               let '(k, x) := kv in
               if decide (k = "Name") then
                 s ← decodeString "TopicInfo.Name" x (Name ti);
                 Ok {| Name := s; Partitions := Partitions ti;
                       ReplicationFactor := ReplicationFactor ti;
                       ClusterArn := ClusterArn ti; Config := Config ti;
                       Users := Users ti; DeletionPolicy_ := DeletionPolicy_ ti |}
               else if decide (k = "Partitions") then
                 n ← decodeQuotedInt "TopicInfo.Partitions" x (Partitions ti);
                 Ok {| Name := Name ti; Partitions := n;
                       ReplicationFactor := ReplicationFactor ti;
                       ClusterArn := ClusterArn ti; Config := Config ti;
                       Users := Users ti; DeletionPolicy_ := DeletionPolicy_ ti |}
               else if decide (k = "ReplicationFactor") then
                 n ← decodeQuotedInt "TopicInfo.ReplicationFactor" x (ReplicationFactor ti);
                 Ok {| Name := Name ti; Partitions := Partitions ti;
                       ReplicationFactor := n;
                       ClusterArn := ClusterArn ti; Config := Config ti;
                       Users := Users ti; DeletionPolicy_ := DeletionPolicy_ ti |}
               else if decide (k = "ClusterArn") then
                 s ← decodeString "TopicInfo.ClusterArn" x (ClusterArn ti);
                 Ok {| Name := Name ti; Partitions := Partitions ti;
                       ReplicationFactor := ReplicationFactor ti;
                       ClusterArn := s; Config := Config ti;
                       Users := Users ti; DeletionPolicy_ := DeletionPolicy_ ti |}
               else if decide (k = "Config") then
                 c ← decodeConfig x (Config ti);
                 Ok {| Name := Name ti; Partitions := Partitions ti;
                       ReplicationFactor := ReplicationFactor ti;
                       ClusterArn := ClusterArn ti; Config := c;
                       Users := Users ti; DeletionPolicy_ := DeletionPolicy_ ti |}
               else if decide (k = "Users") then
                 us ← decodeUsers x (Users ti);
                 Ok {| Name := Name ti; Partitions := Partitions ti;
                       ReplicationFactor := ReplicationFactor ti;
                       ClusterArn := ClusterArn ti; Config := Config ti;
                       Users := us; DeletionPolicy_ := DeletionPolicy_ ti |}
               else if decide (k = "DeletionPolicy") then
                 s ← decodeString "TopicInfo.DeletionPolicy" x (DeletionPolicy_ ti);
                 Ok {| Name := Name ti; Partitions := Partitions ti;
                       ReplicationFactor := ReplicationFactor ti;
                       ClusterArn := ClusterArn ti; Config := Config ti;
                       Users := Users ti; DeletionPolicy_ := s |}
               else Ok ti) fields ti
  | _ => mismatch "TopicInfo"
  end.

(** [NewTopicInfo(props)], on the document [json.Marshal(props)]. *)
Definition NewTopicInfo (props : json.Value) : outcome TopicInfo :=
  let result := Validate topicInfoSchema props in
  if Valid result then
    let ti := {| Name := ""; Partitions := 0; ReplicationFactor := 0; ClusterArn := "";
                 Config := ∅; Users := []; DeletionPolicy_ := DeletionPolicyRetain |} in
    Unmarshal props ti
  else
    let msgs := map String_ result in
    Err (errors_New (String.concat " " msgs)).

End types.

(* ===================================================================== *)
(** ** [github.com/twmb/franz-go/pkg/kadm]: the values the source reads *)
(* ===================================================================== *)
Module kadm.

Inductive ConfigOp : Type := SetConfig | DeleteConfig | AppendConfig | SubtractConfig.

#[global] Instance ConfigOp_eq_dec : EqDecision ConfigOp.
Proof. solve_decision. Defined.

Record AlterConfig := { Op : ConfigOp; Name : string; Value : option string }.

#[global] Instance AlterConfig_eq_dec : EqDecision AlterConfig.
Proof. solve_decision. Defined.

(** [kadm.Config]: fields [Key] and [Value]. *)
Record Config := { Key : string; ConfigValue : option string }.

(** [kadm.ResourceConfig]: fields [Name], [Configs] and [Err]. *)
Record ResourceConfig := {
  ResourceName : string;
  Configs : list Config;
  ResourceErr : option error
}.

(** [kadm.PartitionDetails]: partition number to its [Replicas]. *)
Definition PartitionDetails : Type := gmap Z (list Z).

Record TopicDetail := {
  Topic : string;
  Partitions : PartitionDetails;
  Err_ : option error
}.

(** The zero value, read from a map that has no entry for the key. *)
Definition noTopicDetail : TopicDetail :=
  {| Topic := ""; Partitions := ∅; Err_ := None |}.

(** [PartitionDetails.Numbers]: the partition numbers (sorted in Go; the
    source takes the length only). *)
Definition Numbers (ds : PartitionDetails) : list Z := (map_to_list ds).*1.

(** [PartitionDetails.NumReplicas]: the replica count of the first
    partition [range] yields, 0 when there is none. *)
Definition NumReplicas `{MapOrder} (ds : PartitionDetails) : Z :=
  match range ds with
  | (_, replicas) :: _ => Z.of_nat (length replicas)
  | [] => 0
  end.

(** [kadm.AlterConfigsResponse]: fields [Name] and [Err]. *)
Record AlterConfigsResponse := { ResponseName : string; ResponseErr : option error }.

(** [AlterConfigsResponses.On(name, nil)]: the response of that name,
    [kerr.UnknownTopicOrPartition] when there is none. *)
Fixpoint On (rs : list AlterConfigsResponse) (name : string)
  : outcome AlterConfigsResponse :=
  match rs with
  | [] => Err kerr_UnknownTopicOrPartition
  | r :: rest => if decide (ResponseName r = name) then Ok r else On rest name
  end.

End kadm.

(* ===================================================================== *)
(** ** Package [admin] *)
(* ===================================================================== *)

(** *** Calls on the collaborators

    Every call a command makes on one of its collaborators is recorded, in
    order.  [FixedDelay] is the [fixedDelay] function injected into
    [cmdUpdate]; the arguments follow the Go signatures. *)
Inductive Call : Type :=
| ListTopics (topic : string)
| DescribeTopicConfigs (topic : string)
| AlterTopicConfigs (configs : list kadm.AlterConfig) (topic : string)
| DeleteTopics (topic : string)
| CreateTopic (partitions replicationFactor : Z)
              (configs : gmap string (option string)) (topic : string)
| DescribeCluster (clusterArn : string)
| NewKafkaClient (clusterArn : string)
| CreateUser (shortStackID topic kmsKeyID clusterArn : string) (u : types.User)
| DeleteUser (u : types.User) (kmsKeyID topic shortStackID clusterArn : string)
| CreateACLs (topic username shortStackID : string) (permissions : list types.Permission)
| DeleteACLs (topic username shortStackID : string) (permissions : list types.Permission)
| FixedDelay.

(** The collaborators: [KafkaClient], [MskClient], [UserManagerService] and
    [KafkaClientProvider].  A reply is the [(T, error)] or [error] the Go
    method returns ([inl err] for a non-nil error); it may depend on
    everything called so far, the call being answered included (it is the
    last element).  [UserManagerService] is an interface of this
    repository: a method of an implementation returns [nil], returns an
    error, or panics. *)
Record Env := {
  kafkaClient_ListTopics : list Call -> error + gmap string kadm.TopicDetail;
  kafkaClient_DescribeTopicConfigs : list Call -> error + list kadm.ResourceConfig;
  kafkaClient_AlterTopicConfigs : list Call -> error + list kadm.AlterConfigsResponse;
  (** [kadm.DeleteTopicResponses]: topic to the [Err] of its response. *)
  kafkaClient_DeleteTopics : list Call -> error + gmap string (option error);
  kafkaClient_CreateTopic : list Call -> option error;
  (** [DescribeClusterOutput.ClusterInfo]: [None] for the nil pointer,
      otherwise its [Tags]. *)
  mskClient_DescribeCluster : list Call -> error + option (gmap string string);
  userManager_CreateUser : list Call -> outcome unit;
  userManager_DeleteUser : list Call -> outcome unit;
  userManager_CreateACLs : list Call -> outcome unit;
  userManager_DeleteACLs : list Call -> outcome unit;
  kafkaClientProvider_NewKafkaClient : list Call -> option error
}.

(** A command: from the calls made so far to its outcome and the calls
    made by then. *)
Definition Cmd (A : Type) : Type := list Call -> outcome A * list Call.

Definition cmd_ret {A} (a : A) : Cmd A := fun tr => (Ok a, tr).

Definition cmd_bind {A B} (m : Cmd A) (k : A -> Cmd B) : Cmd B :=
  fun tr =>
    match m tr with
    | (Ok a, tr') => k a tr'
    | (Err e, tr') => (Err e, tr')
    | (Panic r, tr') => (Panic r, tr')
    end.

#[global] Instance Cmd_bind : MBind Cmd := fun A B k m => cmd_bind m k.
#[global] Instance Cmd_ret : MRet Cmd := fun A a => cmd_ret a.

Definition lift {A} (o : outcome A) : Cmd A := fun tr => (o, tr).

Definition fail {A} (e : error) : Cmd A := lift (Err e).

(** A call returning [(T, error)]: the call is recorded and the
    collaborator replies. *)
Definition call {A} (c : Call) (reply : list Call -> error + A) : Cmd A :=
  fun tr => (match reply (tr ++ [c]) with
             | inr a => Ok a
             | inl e => Err e
             end, tr ++ [c]).

(** A call returning [error] alone. *)
Definition call_ (c : Call) (reply : list Call -> option error) : Cmd unit :=
  call c (fun tr => match reply tr with
                    | Some e => inl e
                    | None => inr tt
                    end).

(** A call on a method of this repository, which returns [error] alone
    and may panic. *)
Definition invoke (c : Call) (method : list Call -> outcome unit) : Cmd unit :=
  fun tr => (method (tr ++ [c]), tr ++ [c]).

(** [x, err := m; if err != nil { ... }] with the error in hand. *)
Definition attempt {A} (m : Cmd A) : Cmd (error + A) :=
  fun tr =>
    match m tr with
    | (Ok a, tr') => (Ok (inr a), tr')
    | (Err e, tr') => (Ok (inl e), tr')
    | (Panic r, tr') => (Panic r, tr')
    end.

(** [if err != nil { return errors.WithStack(err) }] *)
Definition withStack {A} (m : Cmd A) : Cmd A :=
  fun tr =>
    match m tr with
    | (Err e, tr') => (Err (WithStack e), tr')
    | r => r
    end.

(** [for _, x := range xs { if err := body(x); err != nil { return err } }] *)
Fixpoint forEach {A} (xs : list A) (body : A -> Cmd unit) : Cmd unit :=
  match xs with
  | [] => mret tt
  | x :: xs' => body x ≫= fun _ => forEach xs' body
  end.

(** Go's [int32(x)] and [int16(x)] on an [int]: the low bits, signed. *)
Definition int32 (x : Z) : Z := (x + 2 ^ 31) mod 2 ^ 32 - 2 ^ 31.
Definition int16 (x : Z) : Z := (x + 2 ^ 15) mod 2 ^ 16 - 2 ^ 15.

Module admin.

Import types.

(** *** Naming (src/admin/handler.go, lines 188-210) *)

Definition shortStackID (stackID : string) : string :=
  let h := sha256.Sum256 (bytes_of_string stackID) in
  let id := base32.EncodeToString h in
  String.substring 0 8 id.

Definition canonicalTopicName (name shortStackID : string) : string :=
  fmt.Sprintf "%s-%s" [name; shortStackID].

Definition canonicalUsername (username shortStackID : string) : string :=
  fmt.Sprintf "AmazonMSK_%s_%s" [username; shortStackID].

(** *** Key resolver (src/admin/kms_key_resolver.go) *)

Definition TagKmsKey : string := "TR-KMS-KEY".

Module kmsKeyResolver.

Definition Resolve (env : Env) (info : TopicInfo) : Cmd string :=
  if (0 <? length (Users info))%nat then
    cluster ← withStack (call (DescribeCluster (ClusterArn info))
                              (mskClient_DescribeCluster env));
    match (cluster : option (gmap string string)) with
    | None =>
        lift (Panic "runtime error: invalid memory address or nil pointer dereference")
    | Some tags =>
        match tags !! TagKmsKey with
        | Some kmsKey => mret kmsKey
        | None =>
            fail (WithStack (errors_New (fmt.Sprintf
              "MSK cluster must have a tag named %s specifying the ARN of KMS key used for encrypting SASL/SCRAM credentials."
              [TagKmsKey])))
        end
    end
  else mret "".

End kmsKeyResolver.

(** *** Create command (src/admin/integrations.go, lines 80-106) *)

Record createTopicResult := {
  PhysicalResourceID : string;
  UsernameSuffix : string
}.

Module cmdCreate.

Definition Run (env : Env) (info : TopicInfo) (stackID : string)
  : Cmd createTopicResult :=
  kmsKeyID ← withStack (kmsKeyResolver.Resolve env info);
  let shortStackID := shortStackID stackID in
  let topicName := canonicalTopicName (Name info) shortStackID in
  r ← attempt (call_ (CreateTopic (int32 (Partitions info))
                                  (int16 (ReplicationFactor info))
                                  (Config info) topicName)
                     (kafkaClient_CreateTopic env));
  _ ← match r with
      | inl err =>
          if negb (errors_Is err kerr_TopicAlreadyExists)
          then fail (WithStack err) else mret tt
      | inr _ => mret tt
      end;
  _ ← forEach (Users info) (fun u =>
        withStack (invoke (CreateUser shortStackID topicName kmsKeyID (ClusterArn info) u)
                          (userManager_CreateUser env)));
  mret {| PhysicalResourceID := topicName; UsernameSuffix := shortStackID |}.

End cmdCreate.

(** *** Update command (src/admin/cmd_update.go) *)

Record userDiff := {
  AddedUsers : list User;
  AddedPermissions : gmap string (list Permission);
  DeletedPermissions : gmap string (list Permission);
  DeletedUsers : list User
}.

Definition newUserDiff : userDiff :=
  {| AddedUsers := []; AddedPermissions := ∅; DeletedPermissions := ∅; DeletedUsers := [] |}.

Module cmdUpdate.

(** The body of the first loop of [diffConfig], for key [k] of [new]. *)
Definition diffConfig_new (current : gmap string (option string))
    (updates : list kadm.AlterConfig) (kv : string * option string)
  : outcome (list kadm.AlterConfig) :=
  let '(k, nv) := kv in
  match current !! k with
  | Some cv =>
      n ← deref nv;
      c ← deref cv;
      if decide (n ≠ c)
      then Ok (updates ++ [{| kadm.Op := kadm.SetConfig; kadm.Name := k; kadm.Value := nv |}])
      else Ok updates
  | None =>
      Ok (updates ++ [{| kadm.Op := kadm.AppendConfig; kadm.Name := k; kadm.Value := nv |}])
  end.

(** The body of the second loop, for key [k] of [old]. *)
Definition diffConfig_old (new current : gmap string (option string))
    (updates : list kadm.AlterConfig) (kv : string * option string)
  : outcome (list kadm.AlterConfig) :=
  let '(k, ov) := kv in
  match new !! k with
  | Some _ => Ok updates
  | None =>
      skip ← match current !! k with
             | Some cv =>
                 o ← deref ov;
                 c ← deref cv;
                 Ok (bool_decide (o ≠ c))
             | None => Ok false
             end;
      if (skip : bool) then Ok updates
      else Ok (updates ++ [{| kadm.Op := kadm.DeleteConfig; kadm.Name := k; kadm.Value := ov |}])
  end.

(** [current], built from the entries of [c[0].Configs]. *)
Definition currentConfig (c0 : kadm.ResourceConfig) : gmap string (option string) :=
  fold_left (fun m e => <[kadm.Key e := kadm.ConfigValue e]> m) (kadm.Configs c0) ∅.

(** The three loops of [diffConfig], once [current] is known. *)
Definition diffConfig_against `{MapOrder} (current new old : gmap string (option string))
  : outcome (list kadm.AlterConfig) :=
  updates ← ofold (diffConfig_new current) (range new) [];
  updates ← ofold (diffConfig_old new current) (range old) updates;
  (* the log line of every update reads [*u.Value] *)
  _ ← ofold (fun (_ : unit) u => _ ← deref (kadm.Value u); Ok tt) updates tt;
  Ok updates.

Definition diffConfig `{MapOrder} (env : Env) (topic : string)
    (new old : gmap string (option string)) : Cmd (list kadm.AlterConfig) :=
  c ← withStack (call (DescribeTopicConfigs topic) (kafkaClient_DescribeTopicConfigs env));
  lift (
    c0 ← match c with
         | c0 :: _ => Ok c0
         | [] => Panic "runtime error: index out of range [0] with length 0"
         end;
    diffConfig_against (currentConfig c0) new old).

(** The labelled loops [aa] and [aaa]: the elements of [xs] that equal
    no element of [ys], in the order of [xs]. *)
Definition missingFrom (xs ys : list Permission) : list Permission :=
  filter (fun x => x ∉ ys) xs.

Definition index (users : list User) : gmap string User :=
  fold_left (fun m u => <[Username u := u]> m) users ∅.

(** The body of the loop over [old.Users]. *)
Definition diffUsers_old (newIndex : gmap string User) (diff : userDiff) (o : User)
  : userDiff :=
  match newIndex !! Username o with
  | Some n =>
      let deletedPermissions := missingFrom (Permissions o) (Permissions n) in
      let diff :=
        if (0 <? length deletedPermissions)%nat
        then {| AddedUsers := AddedUsers diff;
                AddedPermissions := AddedPermissions diff;
                DeletedPermissions := <[Username o := deletedPermissions]> (DeletedPermissions diff);
                DeletedUsers := DeletedUsers diff |}
        else diff in
      let addedPermissions := missingFrom (Permissions n) (Permissions o) in
      let diff :=
        if (0 <? length addedPermissions)%nat
        then {| AddedUsers := AddedUsers diff;
                AddedPermissions := <[Username o := addedPermissions]> (AddedPermissions diff);
                DeletedPermissions := DeletedPermissions diff;
                DeletedUsers := DeletedUsers diff |}
        else diff in
      if decide (Arn o ≠ Arn n)
      then {| AddedUsers := AddedUsers diff ++ [n];
              AddedPermissions := AddedPermissions diff;
              DeletedPermissions := DeletedPermissions diff;
              DeletedUsers := DeletedUsers diff ++ [o] |}
      else diff
  | None =>
      {| AddedUsers := AddedUsers diff;
         AddedPermissions := AddedPermissions diff;
         DeletedPermissions := DeletedPermissions diff;
         DeletedUsers := DeletedUsers diff ++ [o] |}
  end.

(** The body of the loop over [new.Users]. *)
Definition diffUsers_new (oldIndex : gmap string User) (diff : userDiff) (u : User)
  : userDiff :=
  match oldIndex !! Username u with
  | Some _ => diff
  | None =>
      {| AddedUsers := AddedUsers diff ++ [u];
         AddedPermissions := AddedPermissions diff;
         DeletedPermissions := DeletedPermissions diff;
         DeletedUsers := DeletedUsers diff |}
  end.

Definition diffUsers (topic : string) (old new : TopicInfo) : userDiff :=
  let diff := newUserDiff in
  let oldIndex := index (Users old) in
  let newIndex := index (Users new) in
  let diff := fold_left (diffUsers_old newIndex) (Users old) diff in
  fold_left (diffUsers_new oldIndex) (Users new) diff.

(** [Run], up to and including the config alteration: the checks
    against the cluster, the key, the config diff and its application.
    Returns the key. *)
Definition Run_topic `{MapOrder} (env : Env) (old new : TopicInfo) (stackID : string)
  : Cmd string :=
  let shortStackID := shortStackID stackID in
  let topicName := canonicalTopicName (Name new) shortStackID in
  topics ← withStack (call (ListTopics topicName) (kafkaClient_ListTopics env));
  _ ← match (topics : gmap string kadm.TopicDetail) !! topicName with
      | Some currentTopic =>
          match kadm.Err_ currentTopic with
          | Some err =>
              if errors_Is err kerr_UnknownTopicOrPartition
                 && bool_decide (Name old ≠ Name new)
              then fail (errors_New "cannot update Name and ClusterArn properties")
              else fail (WithStack err)
          | None => mret tt
          end
      | None => mret tt
      end;
  let currentTopic := default kadm.noTopicDetail (topics !! topicName) in
  _ ← (if decide (Z.of_nat (length (kadm.Numbers (kadm.Partitions currentTopic)))
                  ≠ Partitions new)
       then fail (errors_New "Cannot update Partitions") else mret tt);
  _ ← (if decide (kadm.NumReplicas (kadm.Partitions currentTopic) ≠ ReplicationFactor new)
       then fail (errors_New "Cannot update ReplicationFactor") else mret tt);
  kmsKeyID ← withStack (kmsKeyResolver.Resolve env new);
  cdiff ← withStack (diffConfig env topicName (Config new) (Config old));
  _ ← (if (0 <? length cdiff)%nat then
         responses ← withStack (call (AlterTopicConfigs cdiff topicName)
                                     (kafkaClient_AlterTopicConfigs env));
         response ← withStack (lift (kadm.On responses topicName));
         match kadm.ResponseErr response with
         | Some err => fail (WithStack err)
         | None => mret tt
         end
       else mret tt);
  mret kmsKeyID.

(** [Run], from [diffUsers] on: the user diff is applied. *)
Definition Run_users `{MapOrder} (env : Env) (udiff : userDiff)
    (kmsKeyID topicName shortStackID clusterArn : string) : Cmd unit :=
  _ ← forEach (DeletedUsers udiff) (fun u =>
        withStack (invoke (DeleteUser u kmsKeyID topicName shortStackID clusterArn)
                          (userManager_DeleteUser env)));
  _ ← (if (0 <? length (DeletedUsers udiff))%nat
       then call_ FixedDelay (fun _ => None) else mret tt);
  _ ← forEach (AddedUsers udiff) (fun u =>
        withStack (invoke (CreateUser shortStackID topicName kmsKeyID clusterArn u)
                          (userManager_CreateUser env)));
  _ ← forEach (range (AddedPermissions udiff)) (fun entry =>
        let u := entry.1 in let aacls := entry.2 in
        withStack (invoke (CreateACLs topicName u shortStackID aacls)
                          (userManager_CreateACLs env)));
  forEach (range (DeletedPermissions udiff)) (fun entry =>
        let u := entry.1 in let dacls := entry.2 in
        withStack (invoke (DeleteACLs topicName u shortStackID dacls)
                          (userManager_DeleteACLs env))).

Definition Run `{MapOrder} (env : Env) (old new : TopicInfo) (stackID : string)
  : Cmd unit :=
  let shortStackID := shortStackID stackID in
  let topicName := canonicalTopicName (Name new) shortStackID in
  kmsKeyID ← Run_topic env old new stackID;
  let udiff := diffUsers (Name old) old new in
  Run_users env udiff kmsKeyID topicName shortStackID (ClusterArn old).

End cmdUpdate.

(** *** Delete command (src/admin/cmd_delete.go, lines 31-67) *)
Module cmdDelete.

Definition Run (env : Env) (info : TopicInfo) (stackID : string) : Cmd unit :=
  kmsKeyID ← withStack (kmsKeyResolver.Resolve env info);
  let shortStackID := shortStackID stackID in
  let resourceID := canonicalTopicName (Name info) shortStackID in
  _ ← forEach (Users info) (fun u =>
        withStack (invoke (DeleteUser u kmsKeyID resourceID shortStackID (ClusterArn info))
                          (userManager_DeleteUser env)));
  if decide (DeletionPolicy_ info = DeletionPolicyRetain) then mret tt
  else
    responses ← withStack (call (DeleteTopics resourceID) (kafkaClient_DeleteTopics env));
    match (responses : gmap string (option error)) !! resourceID with
    | Some (Some err) =>
        if negb (errors_Is err kerr_UnknownTopicOrPartition)
        then fail (WithStack err) else mret tt
    | _ => mret tt
    end.

End cmdDelete.

(** *** Events and responses of the handler (src/admin/handler.go) *)

(** [cfn.Event], the fields the handler reads. *)
Record Event := {
  RequestType : string;
  StackID : string;
  EventPhysicalResourceID : string;
  ResourceProperties : json.Value;
  OldResourceProperties : json.Value
}.

Definition RequestCreate : string := "Create".
Definition RequestUpdate : string := "Update".
Definition RequestDelete : string := "Delete".

Definition PropUsernameSuffix : string := "UsernameSuffix".

(** What a handler returns: [(string, map[string]interface{}, error)];
    [Data = None] is the nil map. *)
Record Response := {
  ResponseID : string;
  Data : option (gmap string string);
  Error_ : option error
}.

End admin.

(** The enumeration stdpp computes is one admissible order. *)
Definition canonical_order : MapOrder :=
  {| range := fun K _ _ V (m : gmap K V) => map_to_list m;
     range_perm := fun K _ _ V m => reflexivity _ |}.

(* ===================================================================== *)
(** ** Closed forms and fixtures used in the statements *)
(* ===================================================================== *)

(** What one user of [old.Users] contributes to [AddedUsers] (its new
    version, when the Arn changed) and whether it goes to [DeletedUsers]
    (Arn changed, or no user of that name in [new.Users]). *)
Definition replaced (newIndex : gmap string types.User) (o : types.User)
  : option types.User :=
  match newIndex !! types.Username o with
  | Some n => if decide (types.Arn o ≠ types.Arn n) then Some n else None
  | None => None
  end.

Definition dropped (newIndex : gmap string types.User) (o : types.User) : bool :=
  match newIndex !! types.Username o with
  | Some n => bool_decide (types.Arn o ≠ types.Arn n)
  | None => true
  end.

(** The operations one entry of [new], and one entry of [old],
    contributes to the config diff when no pointer involved is nil. *)
Definition new_ops (current : gmap string (option string)) (kv : string * option string)
  : list kadm.AlterConfig :=
  match current !! kv.1 with
  | Some cv =>
      if decide (kv.2 ≠ cv)
      then [{| kadm.Op := kadm.SetConfig; kadm.Name := kv.1; kadm.Value := kv.2 |}]
      else []
  | None => [{| kadm.Op := kadm.AppendConfig; kadm.Name := kv.1; kadm.Value := kv.2 |}]
  end.

Definition old_ops (new current : gmap string (option string)) (kv : string * option string)
  : list kadm.AlterConfig :=
  match new !! kv.1 with
  | Some _ => []
  | None =>
      match current !! kv.1 with
      | Some cv =>
          if decide (kv.2 ≠ cv) then []
          else [{| kadm.Op := kadm.DeleteConfig; kadm.Name := kv.1; kadm.Value := kv.2 |}]
      | None => [{| kadm.Op := kadm.DeleteConfig; kadm.Name := kv.1; kadm.Value := kv.2 |}]
      end
  end.

(** No nil pointer among the values of a config. *)
Definition no_nil (config : gmap string (option string)) : Prop :=
  map_Forall (fun _ v => is_Some v) config.

(** [emits P m]: whatever was called before, [m] only adds calls, and all
    of them satisfy [P].  [no_panic m]: [m] never panics. *)
Definition emits {A} (P : Call -> Prop) (m : Cmd A) : Prop :=
  forall tr, exists calls, (m tr).2 = tr ++ calls /\ Forall P calls.

Definition no_panic {A} (m : Cmd A) : Prop :=
  forall tr r, (m tr).1 ≠ Panic r.

(** Calls on the cluster itself, as opposed to calls on the user manager,
    the client provider and the settling delay. *)
Definition cluster_call (c : Call) : Prop :=
  match c with
  | ListTopics _ | DescribeTopicConfigs _ | AlterTopicConfigs _ _ | DescribeCluster _ => True
  | _ => False
  end.

Definition is_DeleteTopics (c : Call) : Prop :=
  match c with
  | DeleteTopics _ => True
  | _ => False
  end.

(** The calls that apply a user diff, in the order [cmdUpdate.Run] makes
    them when none fails. *)
Definition plan `{MapOrder} (udiff : admin.userDiff)
    (kmsKeyID topicName shortStackID clusterArn : string) : list Call :=
  ((fun u => DeleteUser u kmsKeyID topicName shortStackID clusterArn)
     <$> admin.DeletedUsers udiff)
  ++ (if admin.DeletedUsers udiff is [] then [] else [FixedDelay])
  ++ ((fun u => CreateUser shortStackID topicName kmsKeyID clusterArn u)
        <$> admin.AddedUsers udiff)
  ++ ((fun entry => CreateACLs topicName entry.1 shortStackID entry.2)
        <$> range (admin.AddedPermissions udiff))
  ++ ((fun entry => DeleteACLs topicName entry.1 shortStackID entry.2)
        <$> range (admin.DeletedPermissions udiff)).

(** The method of [UserManagerService] that a call runs; the delay and
    the calls on other collaborators are not its concern. *)
Definition service (env : Env) (c : Call) : list Call -> outcome unit :=
  match c with
  | CreateUser _ _ _ _ _ => userManager_CreateUser env
  | DeleteUser _ _ _ _ _ => userManager_DeleteUser env
  | CreateACLs _ _ _ _ => userManager_CreateACLs env
  | DeleteACLs _ _ _ _ => userManager_DeleteACLs env
  | _ => fun _ => Ok tt
  end.

(** Making the calls [calls] one after the other, as long as they are
    accepted: the error of the first call refused is returned wrapped,
    and a panic goes through. *)
Fixpoint perform (env : Env) (calls : list Call) (tr : list Call)
  : outcome unit * list Call :=
  match calls with
  | [] => (Ok tt, tr)
  | c :: rest =>
      match service env c (tr ++ [c]) with
      | Ok _ => perform env rest (tr ++ [c])
      | Err e => (Err (WithStack e), tr ++ [c])
      | Panic r => (Panic r, tr ++ [c])
      end
  end.

(** [part] occurs in [whole]. *)
Definition occurs_in (part whole : string) : Prop :=
  exists before after, whole = before +:+ part +:+ after.

(** An outcome that is not a panic. *)
Definition calm {A} (o : outcome A) : Prop := forall r, o ≠ Panic r.

(** The text of the error [Resolve] returns when the tag is missing. *)
Definition missingTagMessage : string :=
  "MSK cluster must have a tag named TR-KMS-KEY specifying the ARN of KMS key used for encrypting SASL/SCRAM credentials.".

(** The users of src/admin/cmd_update_test.go, and [bob] with a new Arn
    and another permission. *)
Module fixtures.
Import types.

Definition alice : User :=
  {| Username := "alice"; Arn := "1"; Permissions := [PermissionRead] |}.
Definition bob : User :=
  {| Username := "bob"; Arn := "2"; Permissions := [PermissionRead] |}.
Definition bobRW : User :=
  {| Username := "bob"; Arn := "2"; Permissions := [PermissionRead; PermissionWrite] |}.
Definition bobW : User :=
  {| Username := "bob"; Arn := "2"; Permissions := [PermissionWrite] |}.
Definition bobArn3 : User :=
  {| Username := "bob"; Arn := "3"; Permissions := [PermissionRead] |}.
Definition bobArn3W : User :=
  {| Username := "bob"; Arn := "3"; Permissions := [PermissionWrite] |}.
Definition aliceNoArn : User :=
  {| Username := "alice"; Arn := ""; Permissions := [PermissionRead] |}.

(** [&tt.TopicInfo{Name: "a", Users: users, Config: config}] *)
Definition topic (users : list User) (config : gmap string (option string)) : TopicInfo :=
  {| Name := "a"; Partitions := 0; ReplicationFactor := 0; ClusterArn := "";
     Config := config; Users := users; DeletionPolicy_ := "" |}.

(** The "Config updates" case of src/admin/cmd_update_test.go. *)
Definition oldConfig : gmap string (option string) :=
  {[ "a" := Some "1"; "b" := Some "2"; "c" := Some "1" ]}.
Definition newConfig : gmap string (option string) :=
  {[ "a" := Some "2"; "c" := Some "1"; "d" := Some "3" ]}.
Definition describeTopicConfigsOutput : list kadm.ResourceConfig :=
  [ {| kadm.ResourceName := "a";
       kadm.Configs :=
         [ {| kadm.Key := "a"; kadm.ConfigValue := Some "1" |};
           {| kadm.Key := "b"; kadm.ConfigValue := Some "2" |};
           {| kadm.Key := "c"; kadm.ConfigValue := Some "1" |};
           {| kadm.Key := "x"; kadm.ConfigValue := Some "1" |} ];
       kadm.ResourceErr := None |} ].

(** [listTopicsOutput] of the test: [partitions] partitions with
    [replicationFactor] replicas each. *)
Definition partitionDetails (partitions replicationFactor : nat) : kadm.PartitionDetails :=
  list_to_map ((fun p => (Z.of_nat p, replicate replicationFactor 0)) <$> seq 0 partitions).

Definition listTopicsOutput (topicName : string) (partitions replicationFactor : nat)
  : gmap string kadm.TopicDetail :=
  {[ topicName := {| kadm.Topic := topicName;
                     kadm.Partitions := partitionDetails partitions replicationFactor;
                     kadm.Err_ := None |} ]}.

(** Collaborators that answer every call with success: the given topics,
    configs and cluster tags, and an [AlterTopicConfigs] response for the
    topic asked about. *)
Definition scripted (topics : gmap string kadm.TopicDetail)
    (configs : list kadm.ResourceConfig) (tags : gmap string string) : Env :=
  {| kafkaClient_ListTopics := fun _ => inr topics;
     kafkaClient_DescribeTopicConfigs := fun _ => inr configs;
     kafkaClient_AlterTopicConfigs := fun tr =>
       match last tr with
       | Some (AlterTopicConfigs _ topic) =>
           inr [ {| kadm.ResponseName := topic; kadm.ResponseErr := None |} ]
       | _ => inr []
       end;
     kafkaClient_DeleteTopics := fun _ => inr ∅;
     kafkaClient_CreateTopic := fun _ => None;
     mskClient_DescribeCluster := fun _ => inr (Some tags);
     userManager_CreateUser := fun _ => Ok tt;
     userManager_DeleteUser := fun _ => Ok tt;
     userManager_CreateACLs := fun _ => Ok tt;
     userManager_DeleteACLs := fun _ => Ok tt;
     kafkaClientProvider_NewKafkaClient := fun _ => None |}.

(** A topic [a] of one partition and three replicas, without users, in
    the cluster [clusterArn]. *)
Definition plain (partitions : Z) (clusterArn : string) : TopicInfo :=
  {| Name := "a"; Partitions := partitions; ReplicationFactor := 3;
     ClusterArn := clusterArn; Config := ∅; Users := [];
     DeletionPolicy_ := DeletionPolicyRetain |}.

(** A cluster that reports topic [a] of stack [test] with the given
    number of partitions, three replicas each, and no config entry. *)
Definition clusterWith (partitions : nat) : Env :=
  scripted (listTopicsOutput "a-T6DNBAMI" partitions 3)
           [ {| kadm.ResourceName := "a-T6DNBAMI"; kadm.Configs := [];
                kadm.ResourceErr := None |} ]
           {[ "TR-KMS-KEY" := "key-1" ]}.

(** The required properties of the tests of [NewTopicInfo]
    (src/unnamed/part_001), and more. *)
Definition properties (extra : list (string * json.Value)) : json.Value :=
  json.Object ([ ("ServiceToken", json.Str "st"); ("Name", json.Str "topic-a");
                 ("Partitions", json.Str "1"); ("ReplicationFactor", json.Str "3");
                 ("ClusterArn", json.Str "arn") ] ++ extra).

(** The required properties and one user, [alice], who may read. *)
Definition reader : json.Value :=
  properties [ ("Users", json.Array [ json.Object
                 [ ("Username", json.Str "alice");
                   ("Permissions", json.Array [ json.Str "READ" ]) ] ]) ].

(** A property map whose [Config] holds a JSON [null]. *)
Definition nullConfig : json.Value :=
  properties [ ("Config", json.Object [ ("retention.ms", json.Null) ]) ].

(** An update that adds that [Config] to a topic with one partition and
    three replicas. *)
Definition nullConfigUpdate : admin.Event :=
  {| admin.RequestType := admin.RequestUpdate;
     admin.StackID := "test";
     admin.EventPhysicalResourceID := "topic-a-T6DNBAMI";
     admin.ResourceProperties := nullConfig;
     admin.OldResourceProperties := properties [] |}.

Definition cluster : Env :=
  scripted (listTopicsOutput "topic-a-T6DNBAMI" 1 3)
           [ {| kadm.ResourceName := "topic-a-T6DNBAMI"; kadm.Configs := [];
                kadm.ResourceErr := None |} ]
           ∅.

End fixtures.

(* ===================================================================== *)
(** ** The user manager (src/admin/cmd_delete.go, lines 68-390) *)
(* ===================================================================== *)

(** *** [encoding/base64]: [StdEncoding.WithPadding(NoPadding).EncodeToString]
    (RFC 4648): the bit stream of the bytes cut in groups of six bits, the
    last group filled with zero bits. *)
Module base64.

Definition encodeStd : string :=
  "ABCDEFGHIJKLMNOPQRSTUVWXYZabcdefghijklmnopqrstuvwxyz0123456789+/".

Definition sextet (bs : list bool) : list bool :=
  take 6 (bs ++ repeat false 6).

Fixpoint sextets (n : nat) (bs : list bool) : list (list bool) :=
  match n with
  | O => []
  | S n' => sextet bs :: sextets n' (drop 6 bs)
  end.

Definition digit (g : list bool) : ascii :=
  match String.get (base32.bits_value g) encodeStd with
  | Some c => c
  | None => "="%char
  end.

Definition EncodeToString (src : list Z) : string :=
  let bs := flat_map base32.byte_bits src in
  string_of_list_ascii (map digit (sextets ((length bs + 5) / 6) bs)).

End base64.

(** *** [kadm]: ACL builders and results, and [kerr.IsRetriable] *)
Module acl.

(** [kadm.ACLOperation] *)
Inductive ACLOperation : Type :=
| OpUnknown | OpAny | OpAll | OpRead | OpWrite | OpCreate | OpDelete | OpAlter
| OpDescribe | OpClusterAction | OpDescribeConfigs | OpAlterConfigs | OpIdempotentWrite.

#[global] Instance ACLOperation_eq_dec : EqDecision ACLOperation.
Proof. solve_decision. Defined.

(** [kadm.ACLPattern] *)
Inductive ACLPattern : Type :=
| ACLPatternUnknown | ACLPatternAny | ACLPatternMatch | ACLPatternLiteral
| ACLPatternPrefixed.

#[global] Instance ACLPattern_eq_dec : EqDecision ACLPattern.
Proof. solve_decision. Defined.

(** [kadm.ACLBuilder], the fields the source sets.  The setters
    [Topics], [Groups], [Allow] and [AllowHosts] store their arguments
    (and switch to "any" only when given none, which the source never
    does); [Operations] stores them too, with a default. *)
Record ACLBuilder := {
  topics : list string;
  groups : list string;
  pattern : ACLPattern;
  ops : list ACLOperation;
  allow : list string;
  allowHosts : list string
}.

#[global] Instance ACLBuilder_eq_dec : EqDecision ACLBuilder.
Proof. solve_decision. Defined.

Definition NewACLs : ACLBuilder :=
  {| topics := []; groups := []; pattern := ACLPatternUnknown; ops := [];
     allow := []; allowHosts := [] |}.

Definition Topics (t : list string) (b : ACLBuilder) : ACLBuilder :=
  {| topics := t; groups := groups b; pattern := pattern b; ops := ops b;
     allow := allow b; allowHosts := allowHosts b |}.

Definition Groups (g : list string) (b : ACLBuilder) : ACLBuilder :=
  {| topics := topics b; groups := g; pattern := pattern b; ops := ops b;
     allow := allow b; allowHosts := allowHosts b |}.

Definition ResourcePatternType (p : ACLPattern) (b : ACLBuilder) : ACLBuilder :=
  {| topics := topics b; groups := groups b; pattern := p; ops := ops b;
     allow := allow b; allowHosts := allowHosts b |}.

(** Passing no operation defaults to [OpAny]. *)
Definition Operations (operations : list ACLOperation) (b : ACLBuilder) : ACLBuilder :=
  {| topics := topics b; groups := groups b; pattern := pattern b;
     ops := (if operations is [] then [OpAny] else operations);
     allow := allow b; allowHosts := allowHosts b |}.

Definition Allow (principals : list string) (b : ACLBuilder) : ACLBuilder :=
  {| topics := topics b; groups := groups b; pattern := pattern b; ops := ops b;
     allow := principals; allowHosts := allowHosts b |}.

Definition AllowHosts (hosts : list string) (b : ACLBuilder) : ACLBuilder :=
  {| topics := topics b; groups := groups b; pattern := pattern b; ops := ops b;
     allow := allow b; allowHosts := hosts |}.

(** An element of [kadm.CreateACLsResults] or [kadm.DeleteACLsResults]:
    its field [Err]. *)
Record ACLsResult := { ResultErr : option error }.

End acl.

(** *** The clients of the user manager *)
Module userManager.

Import types acl.

(** What [errors.As] finds in the chain of an error returned by a
    backend: a typed exception of Secrets Manager, the status code of an
    [awshttp.ResponseError], a retriable [kerr.Error]. *)
Inductive Exception : Type :=
| ResourceExistsException | ResourceNotFoundException | OtherException.

#[global] Instance Exception_eq_dec : EqDecision Exception.
Proof. solve_decision. Defined.

Record ErrorClass := {
  exception : Exception;
  statusCode : option Z;
  kafkaRetriable : bool
}.

(** [kms/types.GrantOperation], the one the source uses. *)
Inductive GrantOperation : Type := GrantOperationDecrypt.

(** [kafka/types.UnprocessedScramSecret]: fields [ErrorCode] and
    [ErrorMessage]. *)
Record UnprocessedScramSecret := {
  ErrorCode : option string;
  ErrorMessage : option string
}.

(** The requests the user manager sends, with the fields of their
    inputs; [Delay] is the injected [fixedDelay], [RandRead n] is
    [rand.Read] on a buffer of [n] bytes. *)
Inductive Request : Type :=
| RandRead (n : nat)
| CreateSecret (name kmsKeyId secretString : string)
| DescribeSecret (secretId : string)
| PutResourcePolicy (secretId resourcePolicy : string)
| DeleteSecret (secretId : string) (forceDeleteWithoutRecovery : bool)
| CreateGrant (name keyId granteePrincipal : string) (operations : list GrantOperation)
| RevokeGrant (grantId : option string) (keyId : string)
| BatchAssociateScramSecret (clusterArn : string) (secretArnList : list string)
| BatchDisassociateScramSecret (clusterArn : string) (secretArnList : list string)
| KafkaCreateACLs (b : ACLBuilder)
| KafkaDeleteACLs (b : ACLBuilder)
| Delay.

(** The collaborators, as for the commands: a reply may depend on all
    requests so far.  Pointer fields of the outputs ([ARN], [GrantId]) are
    [None] when nil.  [classOf] gives the class of the backend error with
    a given text. *)
Record Backends := {
  rand_Read : list Request -> error + (nat * list Z);
  secretsManagerClient_CreateSecret : list Request -> error + option string;
  secretsManagerClient_DescribeSecret : list Request -> error + option string;
  secretsManagerClient_PutResourcePolicy : list Request -> option error;
  secretsManagerClient_DeleteSecret : list Request -> option error;
  kmsClient_CreateGrant : list Request -> error + option string;
  kmsClient_RevokeGrant : list Request -> option error;
  mskClient_BatchAssociateScramSecret : list Request -> error + list UnprocessedScramSecret;
  mskClient_BatchDisassociateScramSecret :
    list Request -> error + list UnprocessedScramSecret;
  kafkaClient_CreateACLs : list Request -> error + list ACLsResult;
  kafkaClient_DeleteACLs : list Request -> error + list ACLsResult;
  classOf : string -> ErrorClass
}.

(** [errors.As] through [WithStack], for the three targets of the source. *)
Fixpoint As_ResourceExistsException (w : Backends) (err : error) : bool :=
  match err with
  | backend_error text => bool_decide (exception (classOf w text) = ResourceExistsException)
  | WithStack inner => As_ResourceExistsException w inner
  | _ => false
  end.

Fixpoint As_ResourceNotFoundException (w : Backends) (err : error) : bool :=
  match err with
  | backend_error text => bool_decide (exception (classOf w text) = ResourceNotFoundException)
  | WithStack inner => As_ResourceNotFoundException w inner
  | _ => false
  end.

(** [errors.As(err, &re)] for [*awshttp.ResponseError]: the status code
    of the response when there is one. *)
Fixpoint As_ResponseError (w : Backends) (err : error) : option Z :=
  match err with
  | backend_error text => statusCode (classOf w text)
  | WithStack inner => As_ResponseError w inner
  | _ => None
  end.

(** [kerr.IsRetriable]: the error is a [*kerr.Error] marked retriable. *)
Fixpoint kerr_IsRetriable (w : Backends) (err : error) : bool :=
  match err with
  | kerr_UnknownTopicOrPartition => true
  | kerr_TopicAlreadyExists => false
  | backend_error text => kafkaRetriable (classOf w text)
  | WithStack inner => kerr_IsRetriable w inner
  | errors_New _ => false
  end.

(** [isRetriable] (src/admin/handler.go, lines 180-186) *)
Definition isRetriable (w : Backends) (err : error) : bool :=
  match As_ResponseError w err with
  | Some code => bool_decide (500 <= code)
  | None => true
  end.

(** Operations of the user manager: as [Cmd], over requests. *)
Definition Op (A : Type) : Type := list Request -> outcome A * list Request.

Definition op_ret {A} (a : A) : Op A := fun tr => (Ok a, tr).

Definition op_bind {A B} (m : Op A) (k : A -> Op B) : Op B :=
  fun tr =>
    match m tr with
    | (Ok a, tr') => k a tr'
    | (Err e, tr') => (Err e, tr')
    | (Panic r, tr') => (Panic r, tr')
    end.

#[global] Instance Op_bind : MBind Op := fun A B k m => op_bind m k.
#[global] Instance Op_ret : MRet Op := fun A a => op_ret a.

Definition pure {A} (o : outcome A) : Op A := fun tr => (o, tr).

Definition raise {A} (e : error) : Op A := pure (Err e).

Definition send {A} (r : Request) (reply : list Request -> error + A) : Op A :=
  fun tr => (match reply (tr ++ [r]) with
             | inr a => Ok a
             | inl e => Err e
             end, tr ++ [r]).

Definition send_ (r : Request) (reply : list Request -> option error) : Op unit :=
  send r (fun tr => match reply tr with
                    | Some e => inl e
                    | None => inr tt
                    end).

(** [x, err := m] with the error in hand. *)
Definition try {A} (m : Op A) : Op (error + A) :=
  fun tr =>
    match m tr with
    | (Ok a, tr') => (Ok (inr a), tr')
    | (Err e, tr') => (Ok (inl e), tr')
    | (Panic r, tr') => (Panic r, tr')
    end.

(** [if err != nil { return errors.WithStack(err) }] *)
Definition stacked {A} (m : Op A) : Op A :=
  fun tr =>
    match m tr with
    | (Err e, tr') => (Err (WithStack e), tr')
    | r => r
    end.

Definition quote : string := String (ascii_of_nat 34) EmptyString.
Definition tab : string := String (ascii_of_nat 9) EmptyString.
Definition newline : string := String (ascii_of_nat 10) EmptyString.

Definition quoted (s : string) : string := quote +:+ s +:+ quote.

(** The raw string literals of the source, line by line. *)
Definition SecretPolicyTemplate : string :=
  Eval vm_compute in
  String.concat newline
    [ "{";
      tab +:+ quoted "Version" +:+ ": " +:+ quoted "2012-10-17" +:+ ",";
      tab +:+ quoted "Statement" +:+ ": [";
      tab +:+ tab +:+ "{";
      tab +:+ tab +:+ tab +:+ quoted "Effect" +:+ ": " +:+ quoted "Allow" +:+ ",";
      tab +:+ tab +:+ tab +:+ quoted "Principal" +:+ ": {";
      tab +:+ tab +:+ tab +:+ tab +:+ quoted "AWS" +:+ ": " +:+ quoted "%s";
      tab +:+ tab +:+ tab +:+ "},";
      tab +:+ tab +:+ tab +:+ quoted "Action" +:+ ": "
        +:+ quoted "secretsmanager:GetSecretValue" +:+ ",";
      tab +:+ tab +:+ tab +:+ quoted "Resource" +:+ ": " +:+ quoted "*";
      tab +:+ tab +:+ "}";
      tab +:+ "]";
      "}" ].

Definition SecretTemplate : string :=
  Eval vm_compute in
  "{" +:+ quoted "username" +:+ ":" +:+ quoted "%s" +:+ ", "
      +:+ quoted "password" +:+ ":" +:+ quoted "%s" +:+ "}".

Definition alreadyAssociated : string :=
  "The provided secret is already associated with this cluster. To update the association, first disassociate the secret.".

Definition invalidSecretArn : string := "The provided secret ARN is invalid.".

Definition userPermissionToACL (topic username : string) (permissions : list Permission)
  : list ACLBuilder :=
  let acls : list ACLBuilder := [] in
  let topicACLBuilder := ResourcePatternType ACLPatternLiteral (Topics [topic] NewACLs) in
  let groupACLBuilder := ResourcePatternType ACLPatternLiteral (Groups ["*"] NewACLs) in
  let '(topicOps, groupOps) :=
    fold_left (fun (acc : list ACLOperation * list ACLOperation) permission =>
                 let '(topicOps, groupOps) := acc in
                 let '(topicOps, groupOps) :=
                   if decide (permission = PermissionRead)
                   then (topicOps ++ [OpRead], (groupOps ++ [OpRead]) ++ [OpDescribe])
                   else (topicOps, groupOps) in
                 if decide (permission = PermissionWrite)
                 then (topicOps ++ [OpWrite], groupOps)
                 else (topicOps, groupOps))
              permissions ([], []) in
  let topicACLBuilder := Operations topicOps topicACLBuilder in
  let groupACLBuilder := Operations groupOps groupACLBuilder in
  let acls :=
    acls ++ [AllowHosts ["*"] (Allow [fmt.Sprintf "User:%s" [username]] topicACLBuilder)] in
  if (0 <? length groupOps)%nat
  then acls ++ [AllowHosts ["*"] (Allow [fmt.Sprintf "User:%s" [username]] groupACLBuilder)]
  else acls.

Definition grantAccessToSecretForArn (w : Backends)
    (username kmsKeyID secretArn principalArn : string) : Op unit :=
  _ ← stacked (send_ (PutResourcePolicy secretArn
                        (fmt.Sprintf SecretPolicyTemplate [principalArn]))
                     (secretsManagerClient_PutResourcePolicy w));
  _ ← stacked (send (CreateGrant username kmsKeyID principalArn [GrantOperationDecrypt])
                    (kmsClient_CreateGrant w));
  mret tt.

(** The loop of [createACLs]: [car[0]] is read without a length check. *)
Fixpoint createACLs_loop (w : Backends) (acls : list ACLBuilder) : Op unit :=
  match acls with
  | [] => mret tt
  | acl :: rest =>
      car ← stacked (send (KafkaCreateACLs acl) (kafkaClient_CreateACLs w));
      match car with
      | [] => pure (Panic "runtime error: index out of range [0] with length 0")
      | first :: _ =>
          match ResultErr first with
          | Some err => raise (WithStack err)
          | None => createACLs_loop w rest
          end
      end
  end.

Definition createACLs (w : Backends) (topic username : string)
    (permissions : list Permission) : Op unit :=
  let acls := userPermissionToACL topic username permissions in
  createACLs_loop w acls.

(** The loop of [deleteACLs]: an error that is not retriable ends the
    loop with [nil] when the call failed, and is skipped when it is the
    error of the first result. *)
Fixpoint deleteACLs_loop (w : Backends) (acls : list ACLBuilder) : Op unit :=
  match acls with
  | [] => mret tt
  | acl :: rest =>
      r ← try (send (KafkaDeleteACLs acl) (kafkaClient_DeleteACLs w));
      match r with
      | inl err =>
          if kerr_IsRetriable w err then raise (WithStack err) else mret tt
      | inr [] => pure (Panic "runtime error: index out of range [0] with length 0")
      | inr (first :: _) =>
          match ResultErr first with
          | Some err =>
              if kerr_IsRetriable w err then raise (WithStack err)
              else deleteACLs_loop w rest
          | None => deleteACLs_loop w rest
          end
      end
  end.

Definition deleteACLs (w : Backends) (topic username : string)
    (permissions : list Permission) : Op unit :=
  let acls := userPermissionToACL topic username permissions in
  deleteACLs_loop w acls.

Definition generatePassword (w : Backends) : Op string :=
  r ← stacked (send (RandRead 9) (rand_Read w));
  let '(n, buf) := r in
  if decide (n ≠ 9%nat) then raise (errors_New "password generation failed")
  else mret (base64.EncodeToString (resize 9 0 buf)).

(** The check of [UnprocessedScramSecrets] after an association;
    [fmt.Errorf] gives an error with the formatted text, as [errors.New]. *)
Definition checkAssociated (unprocessed : list UnprocessedScramSecret) : outcome unit :=
  match unprocessed with
  | [uss] =>
      message ← deref (ErrorMessage uss);
      if decide (message ≠ alreadyAssociated) then
        code ← deref (ErrorCode uss);
        Err (WithStack (errors_New (fmt.Sprintf "failed to associate secret: %s %s"
                                                [code; message])))
      else Ok tt
  | _ => Ok tt
  end.

Definition CreateUser (w : Backends) (shortStackID topic kmsKeyID clusterArn : string)
    (u : User) : Op unit :=
  let username := admin.canonicalUsername (Username u) shortStackID in
  password ← stacked (generatePassword w);
  r ← try (send (CreateSecret username kmsKeyID
                   (fmt.Sprintf SecretTemplate [username; password]))
                (secretsManagerClient_CreateSecret w));
  secretArn ← match r with
              | inl err =>
                  if negb (As_ResourceExistsException w err) then raise (WithStack err)
                  else
                    ds ← stacked (send (DescribeSecret username)
                                       (secretsManagerClient_DescribeSecret w));
                    pure (deref ds)
              | inr csr => pure (deref csr)
              end;
  _ ← (if decide (Arn u ≠ "")
       then stacked (grantAccessToSecretForArn w username kmsKeyID secretArn (Arn u))
       else mret tt);
  _ ← send_ Delay (fun _ => None);
  bass ← stacked (send (BatchAssociateScramSecret clusterArn [secretArn])
                       (mskClient_BatchAssociateScramSecret w));
  _ ← pure (checkAssociated bass);
  stacked (createACLs w topic username (Permissions u)).

(** The check of [UnprocessedScramSecrets] after a disassociation. *)
Definition checkDisassociated (unprocessed : list UnprocessedScramSecret) : outcome unit :=
  match unprocessed with
  | [e] =>
      message ← deref (ErrorMessage e);
      if decide (message ≠ invalidSecretArn) then Err (WithStack (errors_New message))
      else Ok tt
  | _ => Ok tt
  end.

(** [if err != nil { if isRetriable(err) { return errors.WithStack(err) }; log }] *)
Definition unlessRetriable {A} (w : Backends) (r : error + A) : Op unit :=
  match r with
  | inl err => if isRetriable w err then raise (WithStack err) else mret tt
  | inr _ => mret tt
  end.

Definition DeleteUser (w : Backends) (u : User)
    (kmsKeyID topic shortStackID clusterArn : string) : Op unit :=
  let username := admin.canonicalUsername (Username u) shortStackID in
  _ ← stacked (deleteACLs w topic username (Permissions u));
  r ← try (send (DescribeSecret username) (secretsManagerClient_DescribeSecret w));
  match r with
  | inl err =>
      if As_ResourceNotFoundException w err then mret tt else raise (WithStack err)
  | inr ds =>
      secretArn ← pure (deref ds);
      r ← try (send (BatchDisassociateScramSecret clusterArn [secretArn])
                    (mskClient_BatchDisassociateScramSecret w));
      _ ← match r with
          | inl err => unlessRetriable w r
          | inr bdss => pure (checkDisassociated bdss)
          end;
      _ ← (if decide (Arn u ≠ "") then
             r ← try (send (CreateGrant username kmsKeyID (Arn u) [GrantOperationDecrypt])
                           (kmsClient_CreateGrant w));
             match r with
             | inl err => unlessRetriable w r
             | inr grantId =>
                 r ← try (send_ (RevokeGrant grantId kmsKeyID) (kmsClient_RevokeGrant w));
                 unlessRetriable w r
             end
           else mret tt);
      r ← try (send_ (DeleteSecret username true) (secretsManagerClient_DeleteSecret w));
      unlessRetriable w r
  end.

Definition CreateACLs (w : Backends) (topic username shortStackID : string)
    (permissions : list Permission) : Op unit :=
  let username := admin.canonicalUsername username shortStackID in
  createACLs w topic username permissions.

Definition DeleteACLs (w : Backends) (topic username shortStackID : string)
    (permissions : list Permission) : Op unit :=
  deleteACLs w topic (admin.canonicalUsername username shortStackID) permissions.

End userManager.

(** *** Handler (src/admin/handler.go, lines 41-140) *)
Module Handler.

Import types admin.

(** The method of the user manager of src/admin/cmd_delete.go that a
    call on [UserManagerService] runs. *)
Definition method (w : userManager.Backends) (c : Call) : userManager.Op unit :=
  match c with
  | CreateUser shortStackID topic kmsKeyID clusterArn u =>
      userManager.CreateUser w shortStackID topic kmsKeyID clusterArn u
  | DeleteUser u kmsKeyID topic shortStackID clusterArn =>
      userManager.DeleteUser w u kmsKeyID topic shortStackID clusterArn
  | CreateACLs topic username shortStackID permissions =>
      userManager.CreateACLs w topic username shortStackID permissions
  | DeleteACLs topic username shortStackID permissions =>
      userManager.DeleteACLs w topic username shortStackID permissions
  | _ => mret tt
  end.

(** The requests the user manager has sent by the end of the calls [tr]. *)
Definition sent (w : userManager.Backends) (tr : list Call) : list userManager.Request :=
  fold_left (fun requests c => (method w c requests).2) tr [].

(** [newUserManager(h.secretsManagerClient, h.kmsClient, h.mskClient,
    kafkaClient, logger, ...)], the implementation of
    [UserManagerService] the handler gives to its commands: the call
    being answered is the last of [tr], and it runs after the requests of
    the calls before it. *)
Definition newUserManager (w : userManager.Backends) (tr : list Call) : outcome unit :=
  match last tr with
  | Some c => (method w c (sent w (removelast tr))).1
  | None => Ok tt
  end.

(** The collaborators of a command of the handler: the clients and the
    client provider of [env] and, for [UserManagerService], the user
    manager over the clients [w] (the methods [env] has for that
    interface are not used). *)
Definition collaborators (env : Env) (w : userManager.Backends) : Env :=
  {| kafkaClient_ListTopics := kafkaClient_ListTopics env;
     kafkaClient_DescribeTopicConfigs := kafkaClient_DescribeTopicConfigs env;
     kafkaClient_AlterTopicConfigs := kafkaClient_AlterTopicConfigs env;
     kafkaClient_DeleteTopics := kafkaClient_DeleteTopics env;
     kafkaClient_CreateTopic := kafkaClient_CreateTopic env;
     mskClient_DescribeCluster := mskClient_DescribeCluster env;
     userManager_CreateUser := newUserManager w;
     userManager_DeleteUser := newUserManager w;
     userManager_CreateACLs := newUserManager w;
     userManager_DeleteACLs := newUserManager w;
     kafkaClientProvider_NewKafkaClient := kafkaClientProvider_NewKafkaClient env |}.

(** [uuid] is the value [uuid.NewString()] returns in this invocation. *)
Definition create (env : Env) (w : userManager.Backends) (uuid : string)
    (event : Event)
  : Cmd Response :=
  let props : gmap string string := ∅ in
  let rid := uuid in
  match NewTopicInfo (ResourceProperties event) with
  | Panic r => lift (Panic r)
  | Err err => mret {| ResponseID := rid; Data := None; Error_ := Some err |}
  | Ok ti =>
      r ← attempt (call_ (NewKafkaClient (ClusterArn ti))
                         (kafkaClientProvider_NewKafkaClient env));
      match r with
      | inl err => mret {| ResponseID := rid; Data := None; Error_ := Some err |}
      | inr _ =>
          r ← attempt (cmdCreate.Run (collaborators env w) ti (StackID event));
          match r with
          | inr id =>
              mret {| ResponseID := PhysicalResourceID id;
                      Data := Some (<[PropUsernameSuffix := UsernameSuffix id]> props);
                      Error_ := None |}
          | inl err => mret {| ResponseID := rid; Data := Some props; Error_ := Some err |}
          end
      end
  end.

Definition update `{MapOrder} (env : Env) (w : userManager.Backends) (event : Event)
  : Cmd Response :=
  let echo err := {| ResponseID := EventPhysicalResourceID event; Data := None;
                     Error_ := err |} in
  match NewTopicInfo (OldResourceProperties event) with
  | Panic r => lift (Panic r)
  | Err err => mret (echo (Some (WithStack err)))
  | Ok old =>
      match NewTopicInfo (ResourceProperties event) with
      | Panic r => lift (Panic r)
      | Err err => mret (echo (Some (WithStack err)))
      | Ok new =>
          r ← attempt (call_ (NewKafkaClient (ClusterArn old))
                             (kafkaClientProvider_NewKafkaClient env));
          match r with
          | inl err => mret (echo (Some err))
          | inr _ =>
              r ← attempt (cmdUpdate.Run (collaborators env w) old new (StackID event));
              match r with
              | inl err => mret (echo (Some err))
              | inr _ => mret (echo None)
              end
          end
      end
  end.

Definition delete (env : Env) (w : userManager.Backends) (event : Event)
  : Cmd Response :=
  let echo err := {| ResponseID := EventPhysicalResourceID event; Data := None;
                     Error_ := err |} in
  match NewTopicInfo (ResourceProperties event) with
  | Panic r => lift (Panic r)
  | Err err => mret (echo (Some err))
  | Ok ti =>
      r ← attempt (call_ (NewKafkaClient (ClusterArn ti))
                         (kafkaClientProvider_NewKafkaClient env));
      match r with
      | inl err => mret (echo (Some err))
      | inr _ =>
          r ← attempt (cmdDelete.Run (collaborators env w) ti (StackID event));
          match r with
          | inl err => mret (echo (Some err))
          | inr _ => mret (echo None)
          end
      end
  end.

(** [logAndEchoError] returns [err] as it is. *)
Definition Handle `{MapOrder} (env : Env) (w : userManager.Backends) (uuid : string)
    (event : Event) : Cmd Response :=
  if decide (RequestType event = RequestCreate) then create env w uuid event
  else if decide (RequestType event = RequestUpdate) then update env w event
  else if decide (RequestType event = RequestDelete) then delete env w event
  else mret {| ResponseID := ""; Data := None;
               Error_ := Some (errors_New (fmt.Sprintf "unknown request type: %v"
                                                       [RequestType event])) |}.

End Handler.

(** *** What the statements about the user manager speak of *)

(** [sends P m]: whatever was sent before, [m] only adds requests, and
    all of them satisfy [P]. *)
Definition sends {A} (P : userManager.Request -> Prop) (m : userManager.Op A) : Prop :=
  forall tr, exists requests, (m tr).2 = tr ++ requests /\ Forall P requests.

(** [quiet m]: [m] never panics. *)
Definition quiet {A} (m : userManager.Op A) : Prop :=
  forall tr r, (m tr).1 ≠ Panic r.

(** Backends whose replies carry everything the user manager reads
    without a check: the ARN of a secret created or described, the
    message and the code of an unprocessed secret, and a first result
    for a request about ACLs. *)
Definition complete (w : userManager.Backends) : Prop :=
  (forall h, userManager.secretsManagerClient_CreateSecret w h ≠ inr None)
  /\ (forall h, userManager.secretsManagerClient_DescribeSecret w h ≠ inr None)
  /\ (forall h unprocessed,
        userManager.mskClient_BatchAssociateScramSecret w h = inr unprocessed ->
        Forall (fun uss => is_Some (userManager.ErrorMessage uss)
                           /\ is_Some (userManager.ErrorCode uss)) unprocessed)
  /\ (forall h unprocessed,
        userManager.mskClient_BatchDisassociateScramSecret w h = inr unprocessed ->
        Forall (fun uss => is_Some (userManager.ErrorMessage uss)) unprocessed)
  /\ (forall h, userManager.kafkaClient_CreateACLs w h ≠ inr [])
  /\ (forall h, userManager.kafkaClient_DeleteACLs w h ≠ inr []).

(** Requests that give, or take back, access to a secret and its key. *)
Definition grants_access (r : userManager.Request) : Prop :=
  match r with
  | userManager.PutResourcePolicy _ _
  | userManager.CreateGrant _ _ _ _
  | userManager.RevokeGrant _ _ => True
  | _ => False
  end.

(** The operations a permission gives on the topic and on consumer groups. *)
Definition topic_ops (permission : types.Permission) : list acl.ACLOperation :=
  (if decide (permission = types.PermissionRead) then [acl.OpRead] else [])
  ++ (if decide (permission = types.PermissionWrite) then [acl.OpWrite] else []).

Definition group_ops (permission : types.Permission) : list acl.ACLOperation :=
  if decide (permission = types.PermissionRead) then [acl.OpRead; acl.OpDescribe] else [].

(** The builder for a resource: literal pattern, one principal, any host. *)
Definition topic_builder (topic principal : string) (operations : list acl.ACLOperation)
  : acl.ACLBuilder :=
  {| acl.topics := [topic]; acl.groups := []; acl.pattern := acl.ACLPatternLiteral;
     acl.ops := operations; acl.allow := [principal]; acl.allowHosts := ["*"] |}.

Definition group_builder (principal : string) (operations : list acl.ACLOperation)
  : acl.ACLBuilder :=
  {| acl.topics := []; acl.groups := ["*"]; acl.pattern := acl.ACLPatternLiteral;
     acl.ops := operations; acl.allow := [principal]; acl.allowHosts := ["*"] |}.

(** Backends whose failures after the secret was found are of the kind
    [DeleteUser] passes over: errors that are not retriable, and
    unprocessed secrets that pass the check. *)
Definition passed_over (w : userManager.Backends) : Prop :=
  (forall h, match userManager.mskClient_BatchDisassociateScramSecret w h with
             | inl err => userManager.isRetriable w err = false
             | inr unprocessed => userManager.checkDisassociated unprocessed = Ok tt
             end)
  /\ (forall h err, userManager.kmsClient_CreateGrant w h = inl err ->
                    userManager.isRetriable w err = false)
  /\ (forall h err, userManager.kmsClient_RevokeGrant w h = Some err ->
                    userManager.isRetriable w err = false)
  /\ (forall h err, userManager.secretsManagerClient_DeleteSecret w h = Some err ->
                    userManager.isRetriable w err = false).

(** Calls that an update whose new desired state has no user may make:
    no [DescribeCluster], and [DeleteUser] with the empty key only. *)
Definition keyless (c : Call) : Prop :=
  match c with
  | DescribeCluster _ => False
  | DeleteUser _ kmsKeyID _ _ _ => kmsKeyID = ""
  | CreateUser _ _ _ _ _ => False
  | _ => True
  end.

(** Backends for the examples.  Random bytes 1 to 9, one secret, one
    grant; [lookup] is the reply of [DescribeSecret], [cleanup] the error,
    if any, of the requests that undo a user; the class of an error is
    read off its text. *)
Module scenarios.
Import acl userManager.

Definition notFound : error := backend_error "ResourceNotFoundException".
Definition denied : error := backend_error "AccessDeniedException".

Definition backends (lookup : error + option string) (cleanup : option error) : Backends :=
  {| rand_Read := fun _ => inr (9%nat, [1; 2; 3; 4; 5; 6; 7; 8; 9]);
     secretsManagerClient_CreateSecret := fun _ => inr (Some "arn:secret");
     secretsManagerClient_DescribeSecret := fun _ => lookup;
     secretsManagerClient_PutResourcePolicy := fun _ => None;
     secretsManagerClient_DeleteSecret := fun _ => cleanup;
     kmsClient_CreateGrant := fun _ =>
       match cleanup with
       | Some err => inl err
       | None => inr (Some "grant-1")
       end;
     kmsClient_RevokeGrant := fun _ => cleanup;
     mskClient_BatchAssociateScramSecret := fun _ => inr [];
     mskClient_BatchDisassociateScramSecret := fun _ =>
       match cleanup with
       | Some err => inl err
       | None => inr []
       end;
     kafkaClient_CreateACLs := fun _ => inr [ {| ResultErr := None |} ];
     kafkaClient_DeleteACLs := fun _ => inr [ {| ResultErr := None |} ];
     classOf := fun text =>
       if decide (text = "ResourceNotFoundException")
       then {| exception := ResourceNotFoundException; statusCode := Some 400;
               kafkaRetriable := false |}
       else if decide (text = "ResourceExistsException")
       then {| exception := ResourceExistsException; statusCode := Some 400;
               kafkaRetriable := false |}
       else if decide (text = "AccessDeniedException")
       then {| exception := OtherException; statusCode := Some 403;
               kafkaRetriable := false |}
       else {| exception := OtherException; statusCode := None; kafkaRetriable := false |} |}.

Definition willing : Backends := backends (inr (Some "arn:secret")) None.

(** Secrets Manager finds the secret and replies without its ARN. *)
Definition nameless : Backends := backends (inr None) None.

Definition cleaned : Backends := backends (inl notFound) None.
Definition denying : Backends := backends (inr (Some "arn:secret")) (Some denied).

End scenarios.

(* ===================================================================== *)
(** ** Properties *)
(* ===================================================================== *)

(** *** Naming *)

Example round_constants :
  length sha256.K = 64%nat
  /\ nth 0 sha256.K 0 = 0x428a2f98 /\ nth 63 sha256.K 0 = 0xc67178f2
  /\ nth 0 sha256.H0 0 = 0x6a09e667 /\ nth 7 sha256.H0 0 = 0x5be0cd19.
Proof. by vm_compute. Qed.

Example sum256_abc :
  sha256.Sum256 (bytes_of_string "abc")
  = sha256.be_bytes 32 0xba7816bf8f01cfea414140de5dae2223b00361a396177a9cb410ff61f20015ad.
Proof. vm_compute. reflexivity. Qed.

Example sum256_empty :
  sha256.Sum256 []
  = sha256.be_bytes 32 0xe3b0c44298fc1c149afbf4c8996fb92427ae41e4649b934ca495991b7852b855.
Proof. vm_compute. reflexivity. Qed.

Example base32_of_sum256_test :
  base32.EncodeToString (sha256.Sum256 (bytes_of_string "test"))
  = "T6DNBAMIJR6WLGRP5KQMKWWQCWR36TY3FMFYELGRLVWBLMHQBIEA".
Proof. vm_compute. reflexivity. Qed.

Example canonical_names_test :
  admin.shortStackID "test" = "T6DNBAMI"
  /\ admin.canonicalTopicName "a" (admin.shortStackID "test") = "a-T6DNBAMI"
  /\ admin.canonicalUsername "alice" (admin.shortStackID "test") = "AmazonMSK_alice_T6DNBAMI".
Proof. vm_compute. repeat split. Qed.

Lemma be_bytes_length n x : length (sha256.be_bytes n x) = n.
Proof. unfold sha256.be_bytes. by rewrite length_map, length_rev, length_seq. Qed.

Lemma Sum256_length data : length (sha256.Sum256 data) = 32%nat.
Proof.
  unfold sha256.Sum256, sha256.digest.
  rewrite !length_app, !be_bytes_length. reflexivity.
Qed.

Lemma byte_bits_length b : length (base32.byte_bits b) = 8%nat.
Proof. reflexivity. Qed.

Lemma bits_length src :
  length (flat_map base32.byte_bits src) = (8 * length src)%nat.
Proof.
  induction src as [|b src IH]; [done|].
  cbn [flat_map]. rewrite length_app, byte_bits_length, IH. cbn [length]. lia.
Qed.

Lemma groups_length n bs : length (base32.groups n bs) = n.
Proof. revert bs. induction n as [|n IH]; intros bs; cbn; [done|]. by rewrite IH. Qed.

Lemma string_of_list_ascii_length l :
  String.length (string_of_list_ascii l) = length l.
Proof. induction l as [|c l IH]; cbn; [done|]. by rewrite IH. Qed.

Lemma EncodeToString_length src :
  String.length (base32.EncodeToString src) = ((8 * length src + 4) / 5)%nat.
Proof.
  unfold base32.EncodeToString.
  by rewrite string_of_list_ascii_length, length_map, groups_length, bits_length.
Qed.

Lemma substring_prefix_length n s :
  (n <= String.length s)%nat -> String.length (String.substring 0 n s) = n.
Proof.
  revert s. induction n as [|n IH]; intros [|c s] Hn; cbn in *; try done; try lia.
  rewrite IH; [done | lia].
Qed.

Lemma append_cons c s t : String c s +:+ t = String c (s +:+ t).
Proof. reflexivity. Qed.

Lemma append_empty_l t : "" +:+ t = t.
Proof. reflexivity. Qed.

Lemma append_empty_r s : s +:+ "" = s.
Proof. induction s as [|c s IH]; [done|]. by rewrite append_cons, IH. Qed.

Lemma append_assoc s1 s2 s3 : (s1 +:+ s2) +:+ s3 = s1 +:+ (s2 +:+ s3).
Proof. induction s1 as [|c s1 IH]; [done|]. by rewrite !append_cons, IH. Qed.

Lemma canonicalTopicName_eq name short :
  admin.canonicalTopicName name short = name +:+ "-" +:+ short.
Proof.
  unfold admin.canonicalTopicName. cbn [fmt.Sprintf].
  by rewrite append_empty_r.
Qed.

Lemma canonicalUsername_eq username short :
  admin.canonicalUsername username short = "AmazonMSK_" +:+ username +:+ "_" +:+ short.
Proof.
  unfold admin.canonicalUsername. cbn [fmt.Sprintf].
  by rewrite append_empty_r.
Qed.

Lemma shortStackID_length stackID : String.length (admin.shortStackID stackID) = 8%nat.
Proof.
  unfold admin.shortStackID. apply substring_prefix_length.
  rewrite EncodeToString_length, Sum256_length. cbn. lia.
Qed.

Lemma substring_prefix n s :
  (n <= String.length s)%nat -> exists rest, s = String.substring 0 n s +:+ rest.
Proof.
  revert s. induction n as [|n IH]; intros s Hn.
  - exists s. by destruct s.
  - destruct s as [|c s]; cbn in Hn; [lia|].
    destruct (IH s) as [rest Hrest]; [lia|]. exists rest.
    cbn [String.substring]. by rewrite append_cons, <- Hrest.
Qed.

Lemma substring_of_list n l :
  String.substring 0 n (string_of_list_ascii l) = string_of_list_ascii (take n l).
Proof.
  revert l. induction n as [|n IH]; intros [|c l]; cbn; try done. by rewrite IH.
Qed.

Lemma groups_take k n bs : (k <= n)%nat -> take k (base32.groups n bs) = base32.groups k bs.
Proof.
  revert n bs. induction k as [|k IH]; intros n bs Hk; [done|].
  destruct n as [|n]; [lia|]. cbn. rewrite IH by lia. done.
Qed.

Lemma quantum_take bs : (5 <= length bs)%nat -> base32.quantum bs = take 5 bs.
Proof. intros Hbs. unfold base32.quantum. by rewrite take_app_le. Qed.

(** The first [k] groups are made of the first [5 * k] bits. *)
Lemma groups_prefix k bs :
  (5 * k <= length bs)%nat -> base32.groups k bs = base32.groups k (take (5 * k) bs).
Proof.
  revert bs. induction k as [|k IH]; intros bs Hk; [done|].
  cbn [base32.groups]. rewrite (IH (drop 5 bs)) by (rewrite length_drop; lia).
  rewrite !quantum_take by (rewrite ?length_take; lia).
  rewrite take_take, Nat.min_l by lia.
  replace (5 * S k)%nat with (5 + 5 * k)%nat by lia.
  by rewrite <- take_drop_commute.
Qed.

Lemma bits_take m src :
  flat_map base32.byte_bits (take m src) = take (8 * m) (flat_map base32.byte_bits src).
Proof.
  revert src. induction m as [|m IH]; intros src; [done|].
  destruct src as [|b src]; [done|]. cbn [take flat_map]. rewrite IH.
  replace (8 * S m)%nat with (length (base32.byte_bits b) + 8 * m)%nat
    by (rewrite byte_bits_length; lia).
  by rewrite take_app_add.
Qed.

(** The short hash is the encoding of the first five bytes (40 bits) of
    the digest. *)
Lemma shortStackID_first_bytes stackID :
  admin.shortStackID stackID
  = base32.EncodeToString (take 5 (sha256.Sum256 (bytes_of_string stackID))).
Proof.
  unfold admin.shortStackID, base32.EncodeToString.
  pose proof (Sum256_length (bytes_of_string stackID)) as Hlen.
  set (digest := sha256.Sum256 (bytes_of_string stackID)) in *.
  rewrite substring_of_list, firstn_map, !bits_length, length_take, Hlen.
  rewrite groups_take by (cbn; lia).
  rewrite (groups_prefix 8) by (rewrite bits_length, Hlen; lia).
  change (5 `min` 32)%nat with 5%nat. change ((8 * 5 + 4) / 5)%nat with 8%nat.
  by rewrite bits_take.
Qed.

(** C6.  The canonical topic name is the raw name, a dash and the short
    hash of the stack identifier; the canonical username is [AmazonMSK_],
    the raw username, an underscore and the same short hash.  The short
    hash is the first 8 characters of the unpadded base32 encoding of the
    SHA-256 digest of the stack identifier: that encoding has 52
    characters, so the slice [id[0:8]] is always in range, the hash has
    exactly 8 characters and it encodes the first 40 bits of the digest.
    The names depend on the stack identifier and the raw name only: equal
    inputs give equal names. *)
Theorem canonical_names (stackID rawName rawUsername : string) :
  let digest := sha256.Sum256 (bytes_of_string stackID) in
  let encoded := base32.EncodeToString digest in
  let shortHash := admin.shortStackID stackID in
  admin.canonicalTopicName rawName shortHash = rawName +:+ "-" +:+ shortHash
  /\ admin.canonicalUsername rawUsername shortHash
     = "AmazonMSK_" +:+ rawUsername +:+ "_" +:+ shortHash
  /\ String.length encoded = 52%nat
  /\ (exists rest, encoded = shortHash +:+ rest)
  /\ String.length shortHash = 8%nat
  /\ shortHash = base32.EncodeToString (take 5 digest)
  /\ (forall stackID' rawName' rawUsername',
        stackID' = stackID -> rawName' = rawName -> rawUsername' = rawUsername ->
        admin.canonicalTopicName rawName' (admin.shortStackID stackID')
        = admin.canonicalTopicName rawName shortHash
        /\ admin.canonicalUsername rawUsername' (admin.shortStackID stackID')
           = admin.canonicalUsername rawUsername shortHash).
Proof.
  cbv zeta. split; [apply canonicalTopicName_eq|].
  split; [apply canonicalUsername_eq|].
  split; [by rewrite EncodeToString_length, Sum256_length|].
  split.
  { apply substring_prefix. rewrite EncodeToString_length, Sum256_length. cbn. lia. }
  split; [apply shortStackID_length|].
  split; [apply shortStackID_first_bytes|].
  by intros ? ? ? -> -> ->.
Qed.

(** *** Commands: unfolding the monad *)

Ltac cmd_unfold :=
  unfold mbind, mret, Cmd_bind, Cmd_ret, cmd_bind, cmd_ret, withStack, attempt,
         call_, call, invoke, fail, lift in *.

(** *** Key resolver *)

Lemma missingTagMessage_names_tag :
  String.index 0 admin.TagKmsKey missingTagMessage = Some 34%nat.
Proof. vm_compute. reflexivity. Qed.

Lemma Resolve_no_users env info tr :
  types.Users info = [] -> admin.kmsKeyResolver.Resolve env info tr = (Ok "", tr).
Proof. intros Hu. unfold admin.kmsKeyResolver.Resolve. by rewrite Hu. Qed.

Lemma Resolve_calls env info tr :
  types.Users info <> [] ->
  (admin.kmsKeyResolver.Resolve env info tr).2
  = tr ++ [DescribeCluster (types.ClusterArn info)].
Proof.
  intros Hu. unfold admin.kmsKeyResolver.Resolve.
  destruct (types.Users info) as [|u us]; [done|]. cbn [length Nat.ltb Nat.leb].
  cmd_unfold.
  destruct (mskClient_DescribeCluster env _) as [e|[tags|]]; [done| |done].
  by destruct (tags !! admin.TagKmsKey).
Qed.

(** C7.  With no users the resolver returns the empty key and calls
    nothing.  With at least one user it makes exactly one call,
    [DescribeCluster] on the cluster of the desired state; when the reply
    carries no [TR-KMS-KEY] tag the result is an error, not a key, and the
    text of the error names the tag. *)
Theorem Resolve_key (env : Env) (info : types.TopicInfo) (tr : list Call) :
  (types.Users info = [] ->
     admin.kmsKeyResolver.Resolve env info tr = (Ok "", tr))
  /\ (types.Users info <> [] ->
      let tr' := tr ++ [DescribeCluster (types.ClusterArn info)] in
      (admin.kmsKeyResolver.Resolve env info tr).2 = tr'
      /\ forall tags : gmap string string,
           mskClient_DescribeCluster env tr' = inr (Some tags) ->
           tags !! admin.TagKmsKey = None ->
           exists err,
             (admin.kmsKeyResolver.Resolve env info tr).1 = Err err
             /\ Error err = missingTagMessage
             /\ is_Some (String.index 0 "TR-KMS-KEY" (Error err))).
Proof.
  split; [apply Resolve_no_users|].
  intros Hu tr'. split; [by apply Resolve_calls|].
  intros tags Hreply Htag. unfold admin.kmsKeyResolver.Resolve.
  destruct (types.Users info) as [|u us]; [done|]. cbn [length Nat.ltb Nat.leb].
  cmd_unfold. fold tr'. rewrite Hreply, Htag. cbn [fst].
  eexists. split; [reflexivity|]. split; [reflexivity|].
  vm_compute. eauto.
Qed.

(** A desired state without users, and one with a user on a cluster that
    has no tag. *)
Lemma Resolve_key_witness :
  let untagged := fixtures.scripted ∅ [] ∅ in
  admin.kmsKeyResolver.Resolve untagged (fixtures.topic [] ∅) [] = (Ok "", [])
  /\ exists err,
       admin.kmsKeyResolver.Resolve untagged (fixtures.topic [fixtures.alice] ∅) []
       = (Err err, [DescribeCluster ""])
       /\ Error err = missingTagMessage.
Proof.
  intros untagged. split.
  - by apply (Resolve_key untagged (fixtures.topic [] ∅) []).
  - destruct (Resolve_key untagged (fixtures.topic [fixtures.alice] ∅) []) as [_ H].
    destruct H as [Hcalls H]; [done|].
    destruct (H ∅) as (err & Herr & Hmsg & _); [reflexivity..|].
    exists err. split; [|exact Hmsg].
    rewrite (surjective_pairing (admin.kmsKeyResolver.Resolve _ _ _)), Herr, Hcalls.
    reflexivity.
Defined.


(** *** User diff *)

Section diffUsers_lemmas.
Import types admin admin.cmdUpdate.

Lemma diffUsers_old_AddedUsers ni d o :
  AddedUsers (diffUsers_old ni d o) = AddedUsers d ++ option_list (replaced ni o).
Proof.
  unfold diffUsers_old, replaced. destruct (ni !! Username o) as [n|]; cbn.
  - repeat case_match; cbn; by rewrite ?app_nil_r.
  - by rewrite app_nil_r.
Qed.

Lemma diffUsers_old_DeletedUsers ni d o :
  DeletedUsers (diffUsers_old ni d o)
  = DeletedUsers d ++ (if dropped ni o then [o] else []).
Proof.
  unfold diffUsers_old, dropped. destruct (ni !! Username o) as [n|]; cbn; [|done].
  destruct (decide (Arn o ≠ Arn n)) as [Hne|Heq].
  - rewrite bool_decide_eq_true_2 by done. by repeat case_match.
  - rewrite bool_decide_eq_false_2 by done. repeat case_match; cbn; by rewrite app_nil_r.
Qed.

Lemma diffUsers_old_AddedPermissions ni d o :
  AddedPermissions (diffUsers_old ni d o)
  = match ni !! Username o with
    | Some n =>
        match missingFrom (Permissions n) (Permissions o) with
        | [] => AddedPermissions d
        | added => <[Username o := added]> (AddedPermissions d)
        end
    | None => AddedPermissions d
    end.
Proof.
  unfold diffUsers_old. destruct (ni !! Username o) as [n|]; [|done].
  destruct (missingFrom (Permissions n) (Permissions o)); cbn; by repeat case_match.
Qed.

Lemma diffUsers_old_DeletedPermissions ni d o :
  DeletedPermissions (diffUsers_old ni d o)
  = match ni !! Username o with
    | Some n =>
        match missingFrom (Permissions o) (Permissions n) with
        | [] => DeletedPermissions d
        | deleted => <[Username o := deleted]> (DeletedPermissions d)
        end
    | None => DeletedPermissions d
    end.
Proof.
  unfold diffUsers_old. destruct (ni !! Username o) as [n|]; [|done].
  destruct (missingFrom (Permissions o) (Permissions n)); cbn; by repeat case_match.
Qed.

Lemma fold_old_AddedUsers ni olds d :
  AddedUsers (fold_left (diffUsers_old ni) olds d)
  = AddedUsers d ++ omap (replaced ni) olds.
Proof.
  revert d. induction olds as [|o olds IH]; intros d; cbn [fold_left omap list_omap].
  - by rewrite app_nil_r.
  - rewrite IH, diffUsers_old_AddedUsers, <- app_assoc. f_equal.
    by destruct (replaced ni o).
Qed.

Lemma fold_old_DeletedUsers ni olds d :
  DeletedUsers (fold_left (diffUsers_old ni) olds d)
  = DeletedUsers d ++ filter (fun o => dropped ni o) olds.
Proof.
  revert d. induction olds as [|o olds IH]; intros d; cbn [fold_left].
  - by rewrite app_nil_r.
  - rewrite IH, diffUsers_old_DeletedUsers, <- app_assoc. f_equal.
    rewrite filter_cons. by destruct (dropped ni o).
Qed.

(** A name has an added-permissions entry after the loop exactly when it
    had one before or some old user of that name lacks a permission of
    its new version. *)
Lemma fold_old_AddedPermissions ni olds d u :
  (fold_left (diffUsers_old ni) olds d).(AddedPermissions) !! u = None
  <-> AddedPermissions d !! u = None
      /\ forall o n, o ∈ olds -> Username o = u -> ni !! u = Some n ->
           missingFrom (Permissions n) (Permissions o) = [].
Proof.
  revert d. induction olds as [|o olds IH]; intros d; cbn [fold_left].
  - split; [intros ?; split; [done|]; intros ?? []%elem_of_nil | by intros [? _]].
  - rewrite IH, diffUsers_old_AddedPermissions. split.
    + intros [Hd Hrest]. split.
      * destruct (ni !! Username o) as [n|]; [|done].
        destruct (missingFrom _ _); [done|].
        destruct (decide (Username o = u)) as [Hu|Hne].
        -- subst u. by rewrite lookup_insert_eq in Hd.
        -- by rewrite lookup_insert_ne in Hd.
      * intros o' n [->|Hin]%elem_of_cons Hname Hn; [|by eapply Hrest].
        subst u. rewrite Hn in Hd.
        destruct (missingFrom _ _); [done|]. by rewrite lookup_insert_eq in Hd.
    + intros [Hd Hall]. split.
      * destruct (ni !! Username o) as [n|] eqn:Hn; [|done].
        destruct (missingFrom _ _) eqn:Hm; [done|].
        destruct (decide (Username o = u)) as [Hu|Hne].
        -- subst u. rewrite (Hall o n) in Hm; [done|by left|done|done].
        -- by rewrite lookup_insert_ne.
      * intros o' n Hin. apply Hall. by right.
Qed.

Lemma fold_old_DeletedPermissions ni olds d u :
  (fold_left (diffUsers_old ni) olds d).(DeletedPermissions) !! u = None
  <-> DeletedPermissions d !! u = None
      /\ forall o n, o ∈ olds -> Username o = u -> ni !! u = Some n ->
           missingFrom (Permissions o) (Permissions n) = [].
Proof.
  revert d. induction olds as [|o olds IH]; intros d; cbn [fold_left].
  - split; [intros ?; split; [done|]; intros ?? []%elem_of_nil | by intros [? _]].
  - rewrite IH, diffUsers_old_DeletedPermissions. split.
    + intros [Hd Hrest]. split.
      * destruct (ni !! Username o) as [n|]; [|done].
        destruct (missingFrom _ _); [done|].
        destruct (decide (Username o = u)) as [Hu|Hne].
        -- subst u. by rewrite lookup_insert_eq in Hd.
        -- by rewrite lookup_insert_ne in Hd.
      * intros o' n [->|Hin]%elem_of_cons Hname Hn; [|by eapply Hrest].
        subst u. rewrite Hn in Hd.
        destruct (missingFrom _ _); [done|]. by rewrite lookup_insert_eq in Hd.
    + intros [Hd Hall]. split.
      * destruct (ni !! Username o) as [n|] eqn:Hn; [|done].
        destruct (missingFrom _ _) eqn:Hm; [done|].
        destruct (decide (Username o = u)) as [Hu|Hne].
        -- subst u. rewrite (Hall o n) in Hm; [done|by left|done|done].
        -- by rewrite lookup_insert_ne.
      * intros o' n Hin. apply Hall. by right.
Qed.

(** The loop over [new.Users] only appends to [AddedUsers]. *)
Lemma fold_new_frame oi news d :
  let d' := fold_left (diffUsers_new oi) news d in
  AddedUsers d' = AddedUsers d ++ filter (fun u => oi !! Username u = None) news
  /\ DeletedUsers d' = DeletedUsers d
  /\ AddedPermissions d' = AddedPermissions d
  /\ DeletedPermissions d' = DeletedPermissions d.
Proof.
  revert d. induction news as [|u news IH]; intros d; cbn [fold_left].
  - by rewrite app_nil_r.
  - destruct (IH (diffUsers_new oi d u)) as (-> & -> & -> & ->).
    rewrite filter_cons. unfold diffUsers_new.
    destruct (oi !! Username u) eqn:Hu; cbn.
    + rewrite decide_False by done. done.
    + rewrite decide_True by done. by rewrite <- app_assoc.
Qed.

(** The four collections of [diffUsers] in closed form. *)
Lemma diffUsers_AddedUsers topic old new :
  AddedUsers (diffUsers topic old new)
  = omap (replaced (index (Users new))) (Users old)
    ++ filter (fun u => index (Users old) !! Username u = None) (Users new).
Proof.
  unfold diffUsers.
  destruct (fold_new_frame (index (Users old)) (Users new)
              (fold_left (diffUsers_old (index (Users new))) (Users old) newUserDiff))
    as (-> & _). by rewrite fold_old_AddedUsers.
Qed.

Lemma diffUsers_DeletedUsers topic old new :
  DeletedUsers (diffUsers topic old new)
  = filter (fun o => dropped (index (Users new)) o) (Users old).
Proof.
  unfold diffUsers.
  destruct (fold_new_frame (index (Users old)) (Users new)
              (fold_left (diffUsers_old (index (Users new))) (Users old) newUserDiff))
    as (_ & -> & _). by rewrite fold_old_DeletedUsers.
Qed.

Lemma diffUsers_AddedPermissions_None topic old new u :
  AddedPermissions (diffUsers topic old new) !! u = None
  <-> forall o n, o ∈ Users old -> Username o = u -> index (Users new) !! u = Some n ->
        missingFrom (Permissions n) (Permissions o) = [].
Proof.
  unfold diffUsers.
  destruct (fold_new_frame (index (Users old)) (Users new)
              (fold_left (diffUsers_old (index (Users new))) (Users old) newUserDiff))
    as (_ & _ & -> & _).
  rewrite fold_old_AddedPermissions. cbn. rewrite lookup_empty.
  split; [by intros [_ ?] | by intros ?; split].
Qed.

Lemma diffUsers_DeletedPermissions_None topic old new u :
  DeletedPermissions (diffUsers topic old new) !! u = None
  <-> forall o n, o ∈ Users old -> Username o = u -> index (Users new) !! u = Some n ->
        missingFrom (Permissions o) (Permissions n) = [].
Proof.
  unfold diffUsers.
  destruct (fold_new_frame (index (Users old)) (Users new)
              (fold_left (diffUsers_old (index (Users new))) (Users old) newUserDiff))
    as (_ & _ & _ & ->).
  rewrite fold_old_DeletedPermissions. cbn. rewrite lookup_empty.
  split; [by intros [_ ?] | by intros ?; split].
Qed.

End diffUsers_lemmas.

Section diffUsers_spec.
Import types admin admin.cmdUpdate.

Lemma missingFrom_nil (xs ys : list Permission) :
  missingFrom xs ys = [] <-> forall x, x ∈ xs -> x ∈ ys.
Proof.
  unfold missingFrom. induction xs as [|x xs IH].
  - split; [intros _ ? []%elem_of_nil | done].
  - rewrite filter_cons. destruct (decide (x ∉ ys)) as [Hx|Hx].
    + split; [done|]. intros Hall. destruct Hx. apply Hall. by left.
    + rewrite IH. apply dec_stable in Hx. split.
      * intros Hall z [->|Hz]%elem_of_cons; auto.
      * intros Hall z Hz. apply Hall. by right.
Qed.

(** The index keeps, for each name, a user of the list with that name. *)
Lemma index_fold_lookup us (m : gmap string User) k n :
  fold_left (fun m u => <[Username u := u]> m) us m !! k = Some n ->
  (n ∈ us /\ Username n = k) \/ m !! k = Some n.
Proof.
  revert m. induction us as [|u us IH]; intros m; cbn [fold_left]; [by right|].
  intros [[Hin Hk]|Hm]%IH.
  - left. split; [by right|done].
  - destruct (decide (Username u = k)) as [Hu|Hu].
    + subst k. rewrite lookup_insert_eq in Hm. injection Hm as ->.
      left. split; [by left|done].
    + rewrite lookup_insert_ne in Hm by done. by right.
Qed.

Lemma index_lookup us k n :
  index us !! k = Some n -> n ∈ us /\ Username n = k.
Proof.
  intros [H| H]%index_fold_lookup; [done|]. by rewrite lookup_empty in H.
Qed.

(** The index keeps the last user of each name. *)
Lemma index_last us k :
  index us !! k = last (filter (fun u => Username u = k) us).
Proof.
  induction us as [|u us IH] using rev_ind; [done|].
  unfold index in *. rewrite fold_left_app, filter_app. cbn [fold_left].
  rewrite filter_cons, filter_nil. destruct (decide (Username u = k)) as [<-|Hne].
  - by rewrite lookup_insert_eq, last_snoc.
  - by rewrite lookup_insert_ne, app_nil_r.
Qed.

(** C1, as the code has it.  Let [o] be a user of [old.Users] and [n]
    the user of [new.Users] that the index keeps for the same name (the
    last one of that name), with a different Arn.  Then [n] is in [AddedUsers] and [o] in
    [DeletedUsers].  The permission diff of the name is computed as for
    any user and stays in the result: the name has no entry in
    [AddedPermissions] exactly when every old user of that name has all
    the permissions of [n], and no entry in [DeletedPermissions] exactly
    when [n] has all the permissions of every old user of that name.  So when
    only the Arn changed there is no permission entry for the name. *)
Theorem diffUsers_arn_change (topic : string) (old new : TopicInfo) (o n : User) :
  o ∈ Users old ->
  index (Users new) !! Username o = Some n ->
  Arn o ≠ Arn n ->
  let d := diffUsers topic old new in
  (n ∈ Users new /\ Username n = Username o)
  /\ n ∈ AddedUsers d
  /\ o ∈ DeletedUsers d
  /\ (AddedPermissions d !! Username o = None
      <-> forall o', o' ∈ Users old -> Username o' = Username o ->
            forall p, p ∈ Permissions n -> p ∈ Permissions o')
  /\ (DeletedPermissions d !! Username o = None
      <-> forall o', o' ∈ Users old -> Username o' = Username o ->
            forall p, p ∈ Permissions o' -> p ∈ Permissions n)
  /\ ((forall o', o' ∈ Users old -> Username o' = Username o ->
         forall p, p ∈ Permissions o' <-> p ∈ Permissions n) ->
      AddedPermissions d !! Username o = None
      /\ DeletedPermissions d !! Username o = None).
Proof.
  intros Ho Hn Harn d.
  assert (Hadd : AddedPermissions d !! Username o = None
                 <-> forall o', o' ∈ Users old -> Username o' = Username o ->
                       forall p, p ∈ Permissions n -> p ∈ Permissions o').
  { subst d. rewrite diffUsers_AddedPermissions_None. split.
    - intros H o' Ho' Hname. apply missingFrom_nil. by eapply H.
    - intros H o' n' Ho' Hname Hn'. rewrite Hn in Hn'. injection Hn' as <-.
      apply missingFrom_nil. by apply H. }
  assert (Hdel : DeletedPermissions d !! Username o = None
                 <-> forall o', o' ∈ Users old -> Username o' = Username o ->
                       forall p, p ∈ Permissions o' -> p ∈ Permissions n).
  { subst d. rewrite diffUsers_DeletedPermissions_None. split.
    - intros H o' Ho' Hname. apply missingFrom_nil. by eapply H.
    - intros H o' n' Ho' Hname Hn'. rewrite Hn in Hn'. injection Hn' as <-.
      apply missingFrom_nil. by apply H. }
  split; [by apply index_lookup|].
  split.
  { subst d. rewrite diffUsers_AddedUsers. apply elem_of_app. left.
    apply list_elem_of_omap. exists o. split; [done|].
    unfold replaced. rewrite Hn. by rewrite decide_True. }
  split.
  { subst d. rewrite diffUsers_DeletedUsers. apply list_elem_of_filter.
    split; [|done]. unfold dropped. rewrite Hn.
    by rewrite bool_decide_eq_true_2. }
  split; [done|]. split; [done|].
  intros Hsame. split.
  - apply Hadd. intros o' Ho' Hname p Hp. by apply (Hsame o').
  - apply Hdel. intros o' Ho' Hname p Hp. by apply (Hsame o').
Qed.

End diffUsers_spec.

(** The cases of src/admin/cmd_update_test.go: what [diffUsers] returns
    is the [expectedUserDiff] of each. *)
Example diffUsers_test_table :
  let diff old new :=
    admin.cmdUpdate.diffUsers "a" (fixtures.topic old ∅) (fixtures.topic new ∅) in
  let expected added addedPermissions deletedPermissions deleted :=
    {| admin.AddedUsers := added; admin.AddedPermissions := addedPermissions;
       admin.DeletedPermissions := deletedPermissions; admin.DeletedUsers := deleted |} in
  diff [] [] = admin.newUserDiff
  /\ diff [fixtures.alice; fixtures.bob] [fixtures.alice; fixtures.bob] = admin.newUserDiff
  /\ diff [fixtures.alice] [fixtures.alice; fixtures.bob] = expected [fixtures.bob] ∅ ∅ []
  /\ diff [fixtures.bob] [fixtures.bobRW]
     = expected [] {[ "bob" := [types.PermissionWrite] ]} ∅ []
  /\ diff [fixtures.bob] [fixtures.bobW]
     = expected [] {[ "bob" := [types.PermissionWrite] ]}
                {[ "bob" := [types.PermissionRead] ]} []
  /\ diff [fixtures.bob] [fixtures.bobArn3] = expected [fixtures.bobArn3] ∅ ∅ [fixtures.bob]
  /\ diff [fixtures.alice; fixtures.bob] [fixtures.alice] = expected [] ∅ ∅ [fixtures.bob]
  /\ diff [fixtures.alice; fixtures.bob] [fixtures.bobRW]
     = expected [] {[ "bob" := [types.PermissionWrite] ]} ∅ [fixtures.alice]
  /\ diff [fixtures.aliceNoArn] [] = expected [] ∅ ∅ [fixtures.aliceNoArn].
Proof. vm_compute. repeat split. Qed.

(** The "Updated arn" case of the tests. *)
Lemma diffUsers_arn_change_witness :
  let old := fixtures.topic [fixtures.bob] ∅ in
  let new := fixtures.topic [fixtures.bobArn3] ∅ in
  let d := admin.cmdUpdate.diffUsers "a" old new in
  fixtures.bobArn3 ∈ admin.AddedUsers d
  /\ fixtures.bob ∈ admin.DeletedUsers d
  /\ admin.AddedPermissions d !! "bob" = None
  /\ admin.DeletedPermissions d !! "bob" = None.
Proof.
  intros old new d.
  destruct (diffUsers_arn_change "a" old new fixtures.bob fixtures.bobArn3)
    as (_ & Hadded & Hdeleted & _ & _ & Hsame).
  - by left.
  - reflexivity.
  - discriminate.
  - destruct Hsame as [Ha Hd].
    + intros o' Ho' _. apply list_elem_of_singleton in Ho' as ->. reflexivity.
    + by split_and!.
Defined.

(** Against C1 as the specification words it (a changed Arn leaves no
    permission entry for the user): here [bob] changes Arn and trades READ
    for WRITE; he is replaced, and both permission maps still carry his
    entry. *)
Lemma diffUsers_arn_change_keeps_permission_diff :
  let old := fixtures.topic [fixtures.bob] ∅ in
  let new := fixtures.topic [fixtures.bobArn3W] ∅ in
  let d := admin.cmdUpdate.diffUsers "a" old new in
  types.Username fixtures.bob = types.Username fixtures.bobArn3W
  /\ types.Arn fixtures.bob ≠ types.Arn fixtures.bobArn3W
  /\ admin.AddedUsers d = [fixtures.bobArn3W]
  /\ admin.DeletedUsers d = [fixtures.bob]
  /\ admin.AddedPermissions d !! "bob" = Some [types.PermissionWrite]
  /\ admin.DeletedPermissions d !! "bob" = Some [types.PermissionRead].
Proof. vm_compute. split_and!; done. Qed.

(** *** Config diff *)

Section diffConfig_lemmas.
Import admin admin.cmdUpdate.
Context {order : MapOrder}.

Implicit Types current new old : gmap string (option string).
Implicit Types updates acc : list kadm.AlterConfig.

Lemma range_elem_of {V} (m : gmap string V) k v : (k, v) ∈ range m <-> m !! k = Some v.
Proof. by rewrite range_perm, elem_of_map_to_list. Qed.

Lemma range_NoDup_fst {V} (m : gmap string V) : NoDup (range m).*1.
Proof. rewrite range_perm. apply NoDup_fst_map_to_list. Qed.

Lemma range_no_nil m : no_nil m -> Forall (fun kv => is_Some kv.2) (range m).
Proof.
  intros Hm. apply Forall_forall. intros [k v] Hkv%range_elem_of. by eapply Hm.
Qed.

(** One step of each loop, when nothing is nil. *)
Lemma diffConfig_new_Ok current acc kv :
  no_nil current -> is_Some kv.2 ->
  diffConfig_new current acc kv = Ok (acc ++ new_ops current kv).
Proof.
  destruct kv as [k nv]. cbn [snd]. intros Hc [n ->]. unfold diffConfig_new, new_ops. cbn [fst snd].
  destruct (current !! k) as [cv|] eqn:Hk; [|done].
  destruct (Hc k cv Hk) as [c ->]. cbn.
  destruct (decide (n = c)) as [->|Hne].
  - rewrite !decide_False by (intros H; by apply H). by rewrite app_nil_r.
  - by rewrite !decide_True by congruence.
Qed.

Lemma diffConfig_old_Ok new current acc kv :
  no_nil current -> is_Some kv.2 ->
  diffConfig_old new current acc kv = Ok (acc ++ old_ops new current kv).
Proof.
  destruct kv as [k ov]. cbn [snd]. intros Hc [o ->]. unfold diffConfig_old, old_ops. cbn [fst snd].
  destruct (new !! k); [by rewrite app_nil_r|].
  destruct (current !! k) as [cv|] eqn:Hk; [|done].
  destruct (Hc k cv Hk) as [c ->]. cbn.
  destruct (decide (o = c)) as [->|Hne].
  - rewrite bool_decide_eq_false_2 by (intros H; by apply H).
    by rewrite decide_False by (intros H; by apply H).
  - rewrite bool_decide_eq_true_2 by done.
    rewrite decide_True by congruence. by rewrite app_nil_r.
Qed.

Lemma ofold_new_Ok current l acc :
  no_nil current -> Forall (fun kv => is_Some kv.2) l ->
  ofold (diffConfig_new current) l acc = Ok (acc ++ (l ≫= new_ops current)).
Proof.
  intros Hc Hl. revert acc. induction Hl as [|kv l Hkv Hl IH]; intros acc; cbn.
  - by rewrite app_nil_r.
  - rewrite diffConfig_new_Ok by done. cbn. by rewrite IH, <- app_assoc.
Qed.

Lemma ofold_old_Ok new current l acc :
  no_nil current -> Forall (fun kv => is_Some kv.2) l ->
  ofold (diffConfig_old new current) l acc = Ok (acc ++ (l ≫= old_ops new current)).
Proof.
  intros Hc Hl. revert acc. induction Hl as [|kv l Hkv Hl IH]; intros acc; cbn.
  - by rewrite app_nil_r.
  - rewrite diffConfig_old_Ok by done. cbn. by rewrite IH, <- app_assoc.
Qed.

(** The logging loop returns exactly when no update carries a nil value. *)
Lemma ofold_log_Ok updates :
  Forall (fun u => is_Some (kadm.Value u)) updates ->
  ofold (fun (_ : unit) u => _ ← deref (kadm.Value u); Ok tt) updates tt = Ok tt.
Proof.
  induction 1 as [|u us [v Hv] _ IH]; cbn; [done|]. by rewrite Hv.
Qed.

Lemma ofold_log_Panic updates u :
  u ∈ updates -> kadm.Value u = None ->
  exists r, ofold (fun (_ : unit) u => _ ← deref (kadm.Value u); Ok tt) updates tt
            = Panic r.
Proof.
  intros Hu Hv. induction updates as [|u' us IH]; [by apply elem_of_nil in Hu|].
  cbn. destruct (kadm.Value u') as [v|] eqn:Hv'; cbn; [|by eexists].
  apply IH. apply elem_of_cons in Hu as [->|Hu]; [congruence|done].
Qed.

Lemma new_ops_Value current kv u : u ∈ new_ops current kv -> kadm.Value u = kv.2.
Proof.
  unfold new_ops. repeat case_match; intros Hu;
    repeat (apply elem_of_cons in Hu as [->|Hu]); try done; by apply elem_of_nil in Hu.
Qed.

Lemma old_ops_Value new current kv u : u ∈ old_ops new current kv -> kadm.Value u = kv.2.
Proof.
  unfold old_ops. repeat case_match; intros Hu;
    repeat (apply elem_of_cons in Hu as [->|Hu]); try done; by apply elem_of_nil in Hu.
Qed.

(** Without nil pointers [diffConfig] returns, and what it returns is
    the operations of the entries of [new] followed by those of [old]. *)
Lemma diffConfig_against_Ok current new old :
  no_nil current -> no_nil new -> no_nil old ->
  diffConfig_against current new old
  = Ok ((range new ≫= new_ops current) ++ (range old ≫= old_ops new current)).
Proof.
  intros Hc Hn Ho. unfold diffConfig_against.
  rewrite ofold_new_Ok by auto using range_no_nil. cbn.
  rewrite ofold_old_Ok by auto using range_no_nil. cbn.
  rewrite ofold_log_Ok; [done|].
  apply Forall_forall. intros u [Hu|Hu]%elem_of_app.
  - apply list_elem_of_bind in Hu as (kv & Hu & Hkv).
    rewrite (new_ops_Value _ _ _ Hu). destruct kv as [k v].
    apply range_elem_of in Hkv. by eapply Hn.
  - apply list_elem_of_bind in Hu as (kv & Hu & Hkv).
    rewrite (old_ops_Value _ _ _ _ Hu). destruct kv as [k v].
    apply range_elem_of in Hkv. by eapply Ho.
Qed.

Lemma elem_of_new_ops current kv u :
  u ∈ new_ops current kv
  <-> kadm.Name u = kv.1 /\ kadm.Value u = kv.2
      /\ ((kadm.Op u = kadm.AppendConfig /\ current !! kv.1 = None)
          \/ (kadm.Op u = kadm.SetConfig
              /\ exists cv, current !! kv.1 = Some cv /\ cv ≠ kv.2)).
Proof.
  unfold new_ops. destruct u as [op k v], kv as [k' v']. cbn [fst snd].
  destruct (current !! k') as [cv|].
  - destruct (decide (v' ≠ cv)) as [Hne|Heq].
    + rewrite list_elem_of_singleton. split.
      * intros [= -> -> ->]. cbn. split_and!; [done..|]. right. split; [done|].
        exists cv. split; [done|congruence].
      * cbn. intros (-> & -> & [[_ [=]]|[-> _]]). done.
    + split; [by intros ?%elem_of_nil|].
      cbn. intros (_ & _ & [[_ [=]]|[_ (cv' & [= <-] & Hcv)]]).
      destruct Heq. congruence.
  - rewrite list_elem_of_singleton. split.
    + intros [= -> -> ->]. cbn. split_and!; [done..|]. by left.
    + cbn. intros (-> & -> & [[-> _]|[_ (cv & [=] & _)]]). done.
Qed.

Lemma elem_of_old_ops new current kv u :
  u ∈ old_ops new current kv
  <-> kadm.Name u = kv.1 /\ kadm.Value u = kv.2 /\ kadm.Op u = kadm.DeleteConfig
      /\ new !! kv.1 = None
      /\ (current !! kv.1 = None \/ current !! kv.1 = Some kv.2).
Proof.
  unfold old_ops. destruct u as [op k v], kv as [k' v']. cbn [fst snd].
  destruct (new !! k') as [nv|].
  { split; [by intros ?%elem_of_nil|]. by intros (_ & _ & _ & [=] & _). }
  destruct (current !! k') as [cv|].
  - destruct (decide (v' ≠ cv)) as [Hne|Heq].
    + split; [by intros ?%elem_of_nil|].
      intros (_ & _ & _ & _ & [[=]|[= ->]]). done.
    + apply dec_stable in Heq as ->. rewrite list_elem_of_singleton. split.
      * intros [= -> -> ->]. cbn. split_and!; [done..|]. by right.
      * cbn. by intros (-> & -> & -> & _).
  - rewrite list_elem_of_singleton. split.
    + intros [= -> -> ->]. cbn. split_and!; [done..|]. by left.
    + cbn. by intros (-> & -> & -> & _).
Qed.

Lemma NoDup_new_ops current kv : NoDup (new_ops current kv).
Proof. unfold new_ops. repeat case_match; repeat constructor; by intros ?%elem_of_nil. Qed.

Lemma NoDup_old_ops new current kv : NoDup (old_ops new current kv).
Proof. unfold old_ops. repeat case_match; repeat constructor; by intros ?%elem_of_nil. Qed.

Lemma NoDup_range {V} (m : gmap string V) : NoDup (range m).
Proof. eapply NoDup_fmap_1, range_NoDup_fst. Qed.

Lemma NoDup_ops current new old :
  NoDup ((range new ≫= new_ops current) ++ (range old ≫= old_ops new current)).
Proof.
  apply NoDup_app. split_and!.
  - apply NoDup_bind; [|auto using NoDup_new_ops|apply NoDup_range].
    intros [k1 v1] [k2 v2] u _ _ (H1 & H2 & _)%elem_of_new_ops (H3 & H4 & _)%elem_of_new_ops.
    cbn in *. congruence.
  - intros u (kv & Hu%elem_of_new_ops & _)%list_elem_of_bind
             (kv' & Hu'%elem_of_old_ops & _)%list_elem_of_bind.
    destruct Hu as (_ & _ & [[Hop _]|[Hop _]]), Hu' as (_ & _ & Hop' & _); congruence.
  - apply NoDup_bind; [|auto using NoDup_old_ops|apply NoDup_range].
    intros [k1 v1] [k2 v2] u _ _ (H1 & H2 & _)%elem_of_old_ops (H3 & H4 & _)%elem_of_old_ops.
    cbn in *. congruence.
Qed.

(** Which operations the two closed forms hold. *)
Lemma elem_of_ops current new old op k v :
  {| kadm.Op := op; kadm.Name := k; kadm.Value := v |}
    ∈ (range new ≫= new_ops current) ++ (range old ≫= old_ops new current)
  <-> (op = kadm.AppendConfig /\ new !! k = Some v /\ current !! k = None)
      \/ (op = kadm.SetConfig /\ new !! k = Some v
          /\ exists cv, current !! k = Some cv /\ cv ≠ v)
      \/ (op = kadm.DeleteConfig /\ new !! k = None /\ old !! k = Some v
          /\ (current !! k = None \/ current !! k = Some v)).
Proof.
  rewrite elem_of_app, !list_elem_of_bind. split.
  - intros [([k' v'] & Hu%elem_of_new_ops & Hkv%range_elem_of)
           |([k' v'] & Hu%elem_of_old_ops & Hkv%range_elem_of)]; cbn in Hu.
    + destruct Hu as (-> & -> & [[-> Hc]|[-> Hc]]); [left|right; left]; done.
    + destruct Hu as (-> & -> & -> & Hn & Hc). right; right. done.
  - intros [(-> & Hn & Hc)|[(-> & Hn & Hc)|(-> & Hn & Ho & Hc)]].
    + left. exists (k, v). split; [|by apply range_elem_of].
      apply elem_of_new_ops. cbn. split_and!; [done..|]. by left.
    + left. exists (k, v). split; [|by apply range_elem_of].
      apply elem_of_new_ops. cbn. split_and!; [done..|]. by right.
    + right. exists (k, v). split; [|by apply range_elem_of].
      apply elem_of_old_ops. cbn. by split_and!.
Qed.

Lemma diffConfig_replied env topic new old tr c0 rest :
  kafkaClient_DescribeTopicConfigs env (tr ++ [DescribeTopicConfigs topic])
  = inr (c0 :: rest) ->
  diffConfig env topic new old tr
  = (diffConfig_against (currentConfig c0) new old, tr ++ [DescribeTopicConfigs topic]).
Proof. intros Hreply. unfold diffConfig. cmd_unfold. by rewrite Hreply. Qed.

End diffConfig_lemmas.

Ltac by_evaluation := apply (bool_decide_unpack _); vm_compute; exact I.

Section diffConfig_spec.
Import admin admin.cmdUpdate.

(** C2, as the code has it.  When [DescribeTopicConfigs] answers and no
    value of the three configs is a nil pointer, [diffConfig] makes that
    one call and returns a list of operations without repetition that
    holds exactly: an append for every key of [new] absent from
    [current]; a set for every key of [new] whose current value differs;
    a delete for every key of [old] absent from [new], unless [current]
    holds a different value for it (so also when [current] has no value
    for the key).  Nothing else is returned: no operation for a key
    whose current value equals the new one, nor for a key in neither
    desired config.  For the configs of the test the operations are
    add d=3, set a=2 and delete b=2, the delete last. *)
Theorem diffConfig_three_way (order : MapOrder) (env : Env) (topic : string)
    (new old : gmap string (option string)) (tr : list Call)
    (c0 : kadm.ResourceConfig) (rest : list kadm.ResourceConfig) :
  kafkaClient_DescribeTopicConfigs env (tr ++ [DescribeTopicConfigs topic])
  = inr (c0 :: rest) ->
  let current := currentConfig c0 in
  no_nil current -> no_nil new -> no_nil old ->
  exists updates,
    diffConfig env topic new old tr = (Ok updates, tr ++ [DescribeTopicConfigs topic])
    /\ NoDup updates
    /\ (forall op k v,
          {| kadm.Op := op; kadm.Name := k; kadm.Value := v |} ∈ updates
          <-> (op = kadm.AppendConfig /\ new !! k = Some v /\ current !! k = None)
              \/ (op = kadm.SetConfig /\ new !! k = Some v
                  /\ exists cv, current !! k = Some cv /\ cv ≠ v)
              \/ (op = kadm.DeleteConfig /\ new !! k = None /\ old !! k = Some v
                  /\ (current !! k = None \/ current !! k = Some v)))
    /\ (new = fixtures.newConfig -> old = fixtures.oldConfig ->
        c0 :: rest = fixtures.describeTopicConfigsOutput ->
        exists first,
          updates = first ++ [ {| kadm.Op := kadm.DeleteConfig; kadm.Name := "b";
                                  kadm.Value := Some "2" |} ]
          /\ first ≡ₚ [ {| kadm.Op := kadm.AppendConfig; kadm.Name := "d";
                           kadm.Value := Some "3" |};
                        {| kadm.Op := kadm.SetConfig; kadm.Name := "a";
                           kadm.Value := Some "2" |} ]).
Proof.
  intros Hreply current Hc Hn Ho.
  exists ((range new ≫= new_ops current) ++ (range old ≫= old_ops new current)).
  split. { rewrite (diffConfig_replied _ _ _ _ _ _ _ Hreply). f_equal.
           by apply diffConfig_against_Ok. }
  split; [apply NoDup_ops|]. split; [apply elem_of_ops|].
  intros -> -> [= -> ->]. eexists. split.
  - f_equal. apply Permutation_singleton_r. rewrite range_perm.
    vm_compute. reflexivity.
  - rewrite range_perm. vm_compute. apply perm_swap.
Qed.

Lemma diffConfig_three_way_witness :
  exists updates,
    diffConfig (H:=canonical_order)
      (fixtures.scripted ∅ fixtures.describeTopicConfigsOutput ∅)
      "a" fixtures.newConfig fixtures.oldConfig []
    = (Ok updates, [DescribeTopicConfigs "a"])
    /\ updates ≡ₚ [ {| kadm.Op := kadm.AppendConfig; kadm.Name := "d";
                       kadm.Value := Some "3" |};
                    {| kadm.Op := kadm.SetConfig; kadm.Name := "a";
                       kadm.Value := Some "2" |};
                    {| kadm.Op := kadm.DeleteConfig; kadm.Name := "b";
                       kadm.Value := Some "2" |} ].
Proof.
  destruct (diffConfig_three_way canonical_order
              (fixtures.scripted ∅ fixtures.describeTopicConfigsOutput ∅)
              "a" fixtures.newConfig fixtures.oldConfig []
              (hd (kadm.Build_ResourceConfig "" [] None) fixtures.describeTopicConfigsOutput)
              [])
    as (updates & Hrun & _ & _ & Hscenario).
  - reflexivity.
  - by_evaluation.
  - by_evaluation.
  - by_evaluation.
  - exists updates. split; [exact Hrun|].
    destruct Hscenario as (first & -> & Hfirst); [reflexivity..|].
    rewrite Hfirst. reflexivity.
Defined.

(** Against C2 as the specification words it (a delete only when the
    current value still matches the old one): here the cluster reports no
    value for [b] at all, and the delete is issued. *)
Lemma diffConfig_deletes_absent_key :
  let current : gmap string (option string) := ∅ in
  let new : gmap string (option string) := ∅ in
  let old : gmap string (option string) := {[ "b" := Some "2" ]} in
  diffConfig_against (H:=canonical_order) current new old
  = Ok [ {| kadm.Op := kadm.DeleteConfig; kadm.Name := "b"; kadm.Value := Some "2" |} ]
  /\ new !! "b" = None
  /\ old !! "b" = Some (Some "2")
  /\ current !! "b" ≠ Some (Some "2").
Proof. vm_compute. split_and!; done. Qed.

End diffConfig_spec.

Section diffConfig_nil.
Import admin admin.cmdUpdate.
Context {order : MapOrder}.

Implicit Types current new old : gmap string (option string).

(** A step of either loop panics or extends the list; an entry with a
    nil value that does not panic leaves an operation with a nil value. *)
Lemma diffConfig_new_step current acc kv :
  match diffConfig_new current acc kv with
  | Ok ups => exists ops, ups = acc ++ ops
                /\ (kv.2 = None -> exists u, u ∈ ops /\ kadm.Value u = None)
  | Err _ => False
  | Panic _ => True
  end.
Proof.
  destruct kv as [k nv]. unfold diffConfig_new.
  destruct (current !! k) as [[c|]|]; destruct nv as [n|]; cbn; try done.
  - destruct (decide (n ≠ c)); [by eexists|]. exists []. by rewrite app_nil_r.
  - by eexists.
  - eexists. split; [done|]. intros _. eexists. split; [by left|done].
Qed.

Lemma diffConfig_old_step new current acc kv :
  match diffConfig_old new current acc kv with
  | Ok ups => exists ops, ups = acc ++ ops
                /\ (kv.2 = None -> new !! kv.1 = None ->
                    exists u, u ∈ ops /\ kadm.Value u = None)
  | Err _ => False
  | Panic _ => True
  end.
Proof.
  destruct kv as [k ov]. unfold diffConfig_old. cbn [fst snd].
  destruct (new !! k) as [nv|].
  { exists []. by rewrite app_nil_r. }
  destruct (current !! k) as [[c|]|]; destruct ov as [o|]; cbn; try done.
  - destruct (bool_decide (o ≠ c)); [|by eexists]. exists []. by rewrite app_nil_r.
  - by eexists.
  - eexists. split; [done|]. intros _ _. eexists. split; [by left|done].
Qed.

Lemma ofold_new_nil current l acc :
  match ofold (diffConfig_new current) l acc with
  | Ok ups => (forall u, u ∈ acc -> u ∈ ups)
              /\ (forall k, (k, None) ∈ l -> exists u, u ∈ ups /\ kadm.Value u = None)
  | Err _ => False
  | Panic _ => True
  end.
Proof.
  revert acc. induction l as [|kv l IH]; intros acc; cbn.
  - split; [done|]. by intros k ?%elem_of_nil.
  - pose proof (diffConfig_new_step current acc kv) as Hstep.
    destruct (diffConfig_new current acc kv) as [ups| |]; cbn; [|done..].
    destruct Hstep as (ops & -> & Hnil). specialize (IH (acc ++ ops)).
    destruct (ofold _ l (acc ++ ops)) as [ups'| |]; [|done..].
    destruct IH as [Hacc Hl]. split.
    + intros u Hu. apply Hacc, elem_of_app. by left.
    + intros k [[= <-]|Hk]%elem_of_cons; [|by eapply Hl].
      destruct Hnil as (u & Hu & Hv); [done|]. exists u. split; [|done].
      apply Hacc, elem_of_app. by right.
Qed.

Lemma ofold_old_nil new current l acc :
  match ofold (diffConfig_old new current) l acc with
  | Ok ups => (forall u, u ∈ acc -> u ∈ ups)
              /\ (forall k, (k, None) ∈ l -> new !! k = None ->
                    exists u, u ∈ ups /\ kadm.Value u = None)
  | Err _ => False
  | Panic _ => True
  end.
Proof.
  revert acc. induction l as [|kv l IH]; intros acc; cbn.
  - split; [done|]. by intros k ?%elem_of_nil.
  - pose proof (diffConfig_old_step new current acc kv) as Hstep.
    destruct (diffConfig_old new current acc kv) as [ups| |]; cbn; [|done..].
    destruct Hstep as (ops & -> & Hnil). specialize (IH (acc ++ ops)).
    destruct (ofold _ l (acc ++ ops)) as [ups'| |]; [|done..].
    destruct IH as [Hacc Hl]. split.
    + intros u Hu. apply Hacc, elem_of_app. by left.
    + intros k [[= <-]|Hk]%elem_of_cons Hnew; [|by eapply Hl].
      destruct Hnil as (u & Hu & Hv); [done..|]. exists u. split; [|done].
      apply Hacc, elem_of_app. by right.
Qed.

Lemma diffConfig_against_nil_new current new old k :
  new !! k = Some None -> exists r, diffConfig_against current new old = Panic r.
Proof.
  intros Hk%range_elem_of. unfold diffConfig_against.
  pose proof (ofold_new_nil current (range new) []) as H1.
  destruct (ofold _ (range new) []) as [ups1| |r]; cbn; [|done|by eexists].
  destruct H1 as [_ H1]. destruct (H1 k Hk) as (u & Hu & Hv).
  pose proof (ofold_old_nil new current (range old) ups1) as H2.
  destruct (ofold _ (range old) ups1) as [ups2| |r]; cbn; [|done|by eexists].
  destruct H2 as [H2 _].
  destruct (ofold_log_Panic ups2 u (H2 u Hu) Hv) as [r ->]. by eexists.
Qed.

Lemma diffConfig_against_nil_old current new old k :
  old !! k = Some None -> new !! k = None ->
  exists r, diffConfig_against current new old = Panic r.
Proof.
  intros Hk%range_elem_of Hnew. unfold diffConfig_against.
  pose proof (ofold_new_nil current (range new) []) as H1.
  destruct (ofold _ (range new) []) as [ups1| |r]; cbn; [|done|by eexists].
  pose proof (ofold_old_nil new current (range old) ups1) as H2.
  destruct (ofold _ (range old) ups1) as [ups2| |r]; cbn; [|done|by eexists].
  destruct H2 as [_ H2]. destruct (H2 k Hk Hnew) as (u & Hu & Hv).
  destruct (ofold_log_Panic ups2 u Hu Hv) as [r ->]. by eexists.
Qed.

End diffConfig_nil.


(** *** Commands: calls made, absence of panics *)

Section commands.

Lemma emits_ret {A} P (a : A) : emits P (mret a).
Proof. intros tr. exists []. by rewrite app_nil_r. Qed.

Lemma emits_lift {A} P (o : outcome A) : emits P (lift o).
Proof. intros tr. exists []. by rewrite app_nil_r. Qed.

Lemma emits_fail {A} P e : emits P (fail (A:=A) e).
Proof. apply emits_lift. Qed.

Lemma emits_call {A} (P : Call -> Prop) c (reply : list Call -> error + A) :
  P c -> emits P (call c reply).
Proof. intros Hc tr. exists [c]. split; [done|]. by constructor. Qed.

Lemma emits_call_ (P : Call -> Prop) c reply : P c -> emits P (call_ c reply).
Proof. apply emits_call. Qed.

Lemma emits_invoke (P : Call -> Prop) c method : P c -> emits P (invoke c method).
Proof. intros Hc tr. exists [c]. split; [done|]. by constructor. Qed.

Lemma emits_bind {A B} P (m : Cmd A) (k : A -> Cmd B) :
  emits P m -> (forall a, emits P (k a)) -> emits P (m ≫= k).
Proof.
  intros Hm Hk tr. destruct (Hm tr) as (calls & Htr & Hcalls).
  unfold mbind, Cmd_bind, cmd_bind. destruct (m tr) as [[a|e|r] tr1]; cbn in *.
  - destruct (Hk a tr1) as (calls' & -> & Hcalls'). subst tr1.
    exists (calls ++ calls'). split; [by rewrite app_assoc|]. by apply Forall_app.
  - by exists calls.
  - by exists calls.
Qed.

Lemma emits_withStack {A} P (m : Cmd A) : emits P m -> emits P (withStack m).
Proof.
  intros Hm tr. destruct (Hm tr) as (calls & Htr & Hcalls). exists calls.
  unfold withStack. by destruct (m tr) as [[a|e|r] tr1].
Qed.

Lemma emits_attempt {A} P (m : Cmd A) : emits P m -> emits P (attempt m).
Proof.
  intros Hm tr. destruct (Hm tr) as (calls & Htr & Hcalls). exists calls.
  unfold attempt. by destruct (m tr) as [[a|e|r] tr1].
Qed.

Lemma emits_forEach {A} P (xs : list A) body :
  (forall x, emits P (body x)) -> emits P (forEach xs body).
Proof.
  intros Hbody. induction xs as [|x xs IH]; cbn; [apply emits_ret|].
  apply emits_bind; auto.
Qed.

Lemma emits_weaken {A} (P Q : Call -> Prop) (m : Cmd A) :
  (forall c, P c -> Q c) -> emits P m -> emits Q m.
Proof.
  intros HPQ Hm tr. destruct (Hm tr) as (calls & Htr & Hcalls). exists calls.
  split; [done|]. eapply Forall_impl; eauto.
Qed.

Lemma no_panic_ret {A} (a : A) : no_panic (mret a).
Proof. by intros tr r. Qed.

Lemma no_panic_fail {A} e : no_panic (fail (A:=A) e).
Proof. by intros tr r. Qed.

Lemma no_panic_call {A} c (reply : list Call -> error + A) : no_panic (call c reply).
Proof. intros tr r. unfold call. cbn. by destruct (reply _). Qed.

Lemma no_panic_call_ c reply : no_panic (call_ c reply).
Proof. apply no_panic_call. Qed.

Lemma no_panic_invoke c (method : list Call -> outcome unit) :
  (forall h r, method h ≠ Panic r) -> no_panic (invoke c method).
Proof. intros Hm tr r. apply Hm. Qed.

Lemma no_panic_lift {A} (o : outcome A) : calm o -> no_panic (lift o).
Proof. intros Ho tr r. apply Ho. Qed.

Lemma no_panic_bind {A B} (m : Cmd A) (k : A -> Cmd B) :
  no_panic m -> (forall a, no_panic (k a)) -> no_panic (m ≫= k).
Proof.
  intros Hm Hk tr r. specialize (Hm tr). unfold mbind, Cmd_bind, cmd_bind.
  destruct (m tr) as [[a|e|r'] tr1]; cbn in *; [apply Hk|done|].
  by destruct (Hm r').
Qed.

Lemma no_panic_withStack {A} (m : Cmd A) : no_panic m -> no_panic (withStack m).
Proof.
  intros Hm tr r. specialize (Hm tr). unfold withStack.
  destruct (m tr) as [[a|e|r'] tr1]; cbn in *; [done..|].
  by destruct (Hm r').
Qed.

Lemma no_panic_attempt {A} (m : Cmd A) : no_panic m -> no_panic (attempt m).
Proof.
  intros Hm tr r. specialize (Hm tr). unfold attempt.
  destruct (m tr) as [[a|e|r'] tr1]; cbn in *; [done..|].
  by destruct (Hm r').
Qed.

Lemma no_panic_forEach {A} (xs : list A) body :
  (forall x, no_panic (body x)) -> no_panic (forEach xs body).
Proof.
  intros Hbody. induction xs as [|x xs IH]; cbn; [apply no_panic_ret|].
  apply no_panic_bind; auto.
Qed.

(** A loop of calls on a method either makes them all, each accepted, or
    stops at the first one that is not: its error is returned wrapped,
    its panic goes through. *)
Lemma forEach_calls {A} (ev : A -> Call) (method : list Call -> outcome unit) xs tr :
  forEach xs (fun x => withStack (invoke (ev x) method)) tr = (Ok tt, tr ++ (ev <$> xs))
  \/ exists n,
       (n < length xs)%nat
       /\ ((exists e,
              method (tr ++ (ev <$> take (S n) xs)) = Err e
              /\ forEach xs (fun x => withStack (invoke (ev x) method)) tr
                 = (Err (WithStack e), tr ++ (ev <$> take (S n) xs)))
           \/ (exists r,
                 method (tr ++ (ev <$> take (S n) xs)) = Panic r
                 /\ forEach xs (fun x => withStack (invoke (ev x) method)) tr
                    = (Panic r, tr ++ (ev <$> take (S n) xs)))).
Proof.
  revert tr. induction xs as [|x xs IH]; intros tr; cbn [forEach].
  - left. cbn. by rewrite app_nil_r.
  - cmd_unfold. destruct (method (tr ++ [ev x])) as [[]|e|r] eqn:Hreply.
    + destruct (IH (tr ++ [ev x])) as [Hok|(n & Hn & Hstop)].
      * left. cmd_unfold. rewrite Hok. by rewrite <- app_assoc.
      * right. exists (S n). cmd_unfold.
        cbn [take fmap list_fmap length]. rewrite <- !app_assoc in Hstop.
        split; [lia|].
        destruct Hstop as [(e & Hreply' & Hrun)|(r & Hreply' & Hrun)]; rewrite Hrun;
          [left|right]; eexists; (split; [exact Hreply'|reflexivity]).
    + right. exists 0%nat. cbn. split; [lia|]. left. by exists e.
    + right. exists 0%nat. cbn. split; [lia|]. right. by exists r.
Qed.

Lemma forEach_accepted {A} (ev : A -> Call) (method : list Call -> outcome unit) xs tr :
  (forall h, method h = Ok tt) ->
  forEach xs (fun x => withStack (invoke (ev x) method)) tr = (Ok tt, tr ++ (ev <$> xs)).
Proof.
  intros Hreply.
  destruct (forEach_calls ev method xs tr) as [H|(n & _ & [(e & H & _)|(r & H & _)])];
    [done|by rewrite Hreply in H..].
Qed.

Lemma forEach_Ok {A} (ev : A -> Call) (method : list Call -> outcome unit) xs tr r :
  forEach xs (fun x => withStack (invoke (ev x) method)) tr = r ->
  r.1 = Ok tt -> r.2 = tr ++ (ev <$> xs).
Proof.
  intros <-.
  destruct (forEach_calls ev method xs tr) as [->|(n & _ & [(e & _ & ->)|(r & _ & ->)])];
    done.
Qed.

End commands.

Create HintDb cmd.

#[local] Hint Resolve emits_ret emits_lift emits_fail emits_call emits_call_ emits_invoke
  emits_withStack emits_attempt emits_forEach no_panic_ret no_panic_fail no_panic_call
  no_panic_call_ no_panic_invoke no_panic_withStack no_panic_attempt no_panic_forEach : cmd.

Section running.

Lemma bind_Ok {A B} (m : Cmd A) (k : A -> Cmd B) tr a tr1 :
  m tr = (Ok a, tr1) -> (m ≫= k) tr = k a tr1.
Proof. intros Hm. unfold mbind, Cmd_bind, cmd_bind. by rewrite Hm. Qed.

Lemma bind_Err {A B} (m : Cmd A) (k : A -> Cmd B) tr e tr1 :
  m tr = (Err e, tr1) -> (m ≫= k) tr = (Err e, tr1).
Proof. intros Hm. unfold mbind, Cmd_bind, cmd_bind. by rewrite Hm. Qed.

Lemma bind_Panic {A B} (m : Cmd A) (k : A -> Cmd B) tr r tr1 :
  m tr = (Panic r, tr1) -> (m ≫= k) tr = (Panic r, tr1).
Proof. intros Hm. unfold mbind, Cmd_bind, cmd_bind. by rewrite Hm. Qed.

Lemma withStack_Ok {A} (m : Cmd A) tr a tr1 :
  m tr = (Ok a, tr1) -> withStack m tr = (Ok a, tr1).
Proof. intros Hm. unfold withStack. by rewrite Hm. Qed.

Lemma withStack_Err {A} (m : Cmd A) tr e tr1 :
  m tr = (Err e, tr1) -> withStack m tr = (Err (WithStack e), tr1).
Proof. intros Hm. unfold withStack. by rewrite Hm. Qed.

Lemma call_inr {A} c (reply : list Call -> error + A) tr a :
  reply (tr ++ [c]) = inr a -> call c reply tr = (Ok a, tr ++ [c]).
Proof. intros Hr. unfold call. by rewrite Hr. Qed.

Lemma call_inl {A} c (reply : list Call -> error + A) tr e :
  reply (tr ++ [c]) = inl e -> call c reply tr = (Err e, tr ++ [c]).
Proof. intros Hr. unfold call. by rewrite Hr. Qed.

Lemma Resolve_emits env info :
  emits cluster_call (admin.kmsKeyResolver.Resolve env info).
Proof.
  unfold admin.kmsKeyResolver.Resolve. case_match; [|apply emits_ret].
  apply emits_bind; [by apply emits_withStack, emits_call|].
  intros [tags|]; [|apply emits_lift].
  case_match; [apply emits_ret|apply emits_fail].
Qed.

(** The resolver panics on a reply without [ClusterInfo] only. *)
Lemma Resolve_Panic env info tr r tr1 :
  admin.kmsKeyResolver.Resolve env info tr = (Panic r, tr1) ->
  tr1 = tr ++ [DescribeCluster (types.ClusterArn info)]
  /\ mskClient_DescribeCluster env tr1 = inr None.
Proof.
  unfold admin.kmsKeyResolver.Resolve. case_match; [|done]. cmd_unfold.
  destruct (mskClient_DescribeCluster env _) as [e|[tags|]] eqn:Hreply; [done| |].
  - by destruct (tags !! admin.TagKmsKey).
  - by intros [= <- <-].
Qed.

Lemma Resolve_no_panic env info :
  (forall h, mskClient_DescribeCluster env h ≠ inr None) ->
  no_panic (admin.kmsKeyResolver.Resolve env info).
Proof.
  intros Hinfo tr r Hr.
  destruct (admin.kmsKeyResolver.Resolve env info tr) as [o tr1] eqn:Hrun. cbn in Hr.
  subst o. apply Resolve_Panic in Hrun as [_ Hrun]. by apply Hinfo in Hrun.
Qed.

Lemma bind_stopped (m : Cmd unit) (k : unit -> Cmd unit) tr o tr1 :
  m tr = (o, tr1) -> o ≠ Ok tt -> (m ≫= k) tr = (o, tr1).
Proof.
  intros Hm Ho. unfold mbind, Cmd_bind, cmd_bind. rewrite Hm.
  by destruct o as [[]|e|r].
Qed.

Lemma perform_app env calls1 calls2 tr :
  perform env (calls1 ++ calls2) tr
  = match perform env calls1 tr with
    | (Ok _, tr1) => perform env calls2 tr1
    | stopped => stopped
    end.
Proof.
  revert tr. induction calls1 as [|c calls1 IH]; intros tr; cbn [perform app]; [done|].
  by destruct (service env c (tr ++ [c])).
Qed.

Lemma perform_accepted env calls tr :
  (forall c h, service env c h = Ok tt) -> perform env calls tr = (Ok tt, tr ++ calls).
Proof.
  intros Hok. revert tr. induction calls as [|c calls IH]; intros tr; cbn [perform].
  - by rewrite app_nil_r.
  - rewrite Hok, IH. by rewrite <- app_assoc.
Qed.

(** What a performance has made when it ends: a prefix of the calls,
    every call but the last accepted, and the last one accepted too
    unless it is the one that stopped the performance. *)
Lemma perform_made env calls tr :
  exists made,
    (perform env calls tr).2 = tr ++ made
    /\ made `prefix_of` calls
    /\ (forall n c,
          made !! n = Some c ->
          (S n < length made)%nat \/ (perform env calls tr).1 = Ok tt ->
          service env c (tr ++ take (S n) made) = Ok tt)
    /\ ((perform env calls tr).1 = Ok tt /\ made = calls
        \/ exists before c,
             made = before ++ [c]
             /\ ((exists e, service env c (tr ++ made) = Err e
                            /\ (perform env calls tr).1 = Err (WithStack e))
                 \/ (exists r, service env c (tr ++ made) = Panic r
                               /\ (perform env calls tr).1 = Panic r))).
Proof.
  revert tr. induction calls as [|c calls IH]; intros tr; cbn [perform].
  { exists []. rewrite app_nil_r. split_and!; [done|done|by intros n c ?|by left]. }
  destruct (service env c (tr ++ [c])) as [[]|e|r] eqn:Hc.
  - destruct (IH (tr ++ [c])) as (made & Htr & Hpre & Hacc & Hend).
    exists (c :: made). split_and!.
    + by rewrite Htr, <- app_assoc.
    + by apply prefix_cons.
    + intros [|n] c' Hn Hlast; cbn in Hn.
      * by injection Hn as <-.
      * cbn [take]. rewrite cons_middle, app_assoc.
        apply Hacc; [done|]. cbn in Hlast. destruct Hlast; [left; lia|by right].
    + destruct Hend as [[Hok ->]|(before & c' & -> & Hstop)]; [by left|].
      right. exists (c :: before), c'. split; [done|].
      by rewrite <- (app_assoc tr [c]) in Hstop.
  - exists [c]. split_and!; [done|by apply prefix_cons, prefix_nil| |].
    + intros [|n] c' Hn [Hlast|Hlast]; cbn in *; done || lia.
    + right. exists [], c. split; [done|]. left. by exists e.
  - exists [c]. split_and!; [done|by apply prefix_cons, prefix_nil| |].
    + intros [|n] c' Hn [Hlast|Hlast]; cbn in *; done || lia.
    + right. exists [], c. split; [done|]. right. by exists r.
Qed.

Lemma forEach_perform {A} env (ev : A -> Call) (method : list Call -> outcome unit) xs tr :
  (forall x, service env (ev x) = method) ->
  forEach xs (fun x => withStack (invoke (ev x) method)) tr = perform env (ev <$> xs) tr.
Proof.
  intros Hev. revert tr. induction xs as [|x xs IH]; intros tr; [done|].
  cbn [forEach fmap list_fmap perform]. rewrite Hev. cmd_unfold.
  destruct (method (tr ++ [ev x])) as [[]|e|r]; [|done..]. cbn. apply IH.
Qed.

Lemma bind_perform env (m1 m2 : Cmd unit) calls1 calls2 tr :
  m1 tr = perform env calls1 tr ->
  (forall tr1, m2 tr1 = perform env calls2 tr1) ->
  (m1 ≫= fun _ => m2) tr = perform env (calls1 ++ calls2) tr.
Proof.
  intros H1 H2. rewrite perform_app. unfold mbind, Cmd_bind, cmd_bind. rewrite H1.
  destruct (perform env calls1 tr) as [[[]|e|r] tr1]; [apply H2|done..].
Qed.

End running.

(** *** Delete *)

Section cmdDelete_spec.
Import types admin.

(** C5.  With [DeletionPolicy = Retain] the delete command never calls
    [DeleteTopics], whatever the collaborators answer.  Once the key is
    resolved it calls [DeleteUser] for the users of the desired state, in
    order, up to the first refusal; when it succeeds it has called
    [DeleteUser] for every user, and it succeeds when no [DeleteUser] is
    refused.  With any other policy it then calls [DeleteTopics] on the
    canonical topic name; a response carrying [UnknownTopicOrPartition]
    for the topic, or no error, gives success, any other error is
    returned. *)
Theorem cmdDelete_Run_policy (env : Env) (info : TopicInfo) (stackID : string)
    (tr : list Call) :
  let short := shortStackID stackID in
  let resourceID := canonicalTopicName (Name info) short in
  let deletions kmsKeyID :=
    (fun u => DeleteUser u kmsKeyID resourceID short (ClusterArn info)) <$> Users info in
  (DeletionPolicy_ info = DeletionPolicyRetain ->
     (exists calls, (cmdDelete.Run env info stackID tr).2 = tr ++ calls
                    /\ Forall (fun c => ~ is_DeleteTopics c) calls)
     /\ forall kmsKeyID tr1,
          kmsKeyResolver.Resolve env info tr = (Ok kmsKeyID, tr1) ->
          (exists made,
             (cmdDelete.Run env info stackID tr).2 = tr1 ++ made
             /\ made `prefix_of` deletions kmsKeyID
             /\ ((cmdDelete.Run env info stackID tr).1 = Ok tt -> made = deletions kmsKeyID))
          /\ ((forall h, userManager_DeleteUser env h = Ok tt) ->
              cmdDelete.Run env info stackID tr = (Ok tt, tr1 ++ deletions kmsKeyID)))
  /\ (DeletionPolicy_ info ≠ DeletionPolicyRetain ->
      forall kmsKeyID tr1,
        kmsKeyResolver.Resolve env info tr = (Ok kmsKeyID, tr1) ->
        (forall h, userManager_DeleteUser env h = Ok tt) ->
        let tr2 := (tr1 ++ deletions kmsKeyID) ++ [DeleteTopics resourceID] in
        (cmdDelete.Run env info stackID tr).2 = tr2
        /\ match kafkaClient_DeleteTopics env tr2 with
           | inl err => (cmdDelete.Run env info stackID tr).1 = Err (WithStack err)
           | inr responses =>
               match responses !! resourceID with
               | Some (Some err) =>
                   if errors_Is err kerr_UnknownTopicOrPartition
                   then (cmdDelete.Run env info stackID tr).1 = Ok tt
                   else (cmdDelete.Run env info stackID tr).1 = Err (WithStack err)
               | _ => (cmdDelete.Run env info stackID tr).1 = Ok tt
               end
           end).
Proof.
  intros short resourceID deletions. split.
  - intros Hretain. split.
    + apply (emits_weaken (fun c => cluster_call c \/ exists u a b c' d, c = DeleteUser u a b c' d)).
      { intros c Hc Hd. destruct c; cbn in Hd; try done.
        by destruct Hc as [[]|(? & ? & ? & ? & ? & ?)]. }
      unfold cmdDelete.Run. rewrite decide_True by done.
      apply emits_bind.
      { apply emits_withStack. eapply emits_weaken; [|apply Resolve_emits]. by left. }
      intros kms. apply emits_bind; [|intros; apply emits_ret].
      apply emits_forEach. intros u. apply emits_withStack, emits_invoke. right. by eauto 10.
    + intros kms tr1 Hkey. unfold cmdDelete.Run.
      erewrite bind_Ok by (by apply withStack_Ok). fold short resourceID. split.
      * assert (Hpre : forall n, take (S n) (deletions kms) `prefix_of` deletions kms).
        { intros n. rewrite <- (take_drop (S n) (deletions kms)) at 2.
          by apply prefix_app_r. }
        destruct (forEach_calls
                    (fun u => DeleteUser u kms resourceID short (ClusterArn info))
                    (userManager_DeleteUser env) (Users info) tr1)
          as [Hok|(n & Hn & [(e & _ & Hstop)|(r & _ & Hstop)])].
        -- erewrite bind_Ok by exact Hok. rewrite decide_True by done.
           by exists (deletions kms).
        -- erewrite bind_Err by exact Hstop. exists (take (S n) (deletions kms)).
           unfold deletions at 1. by rewrite fmap_take.
        -- erewrite bind_Panic by exact Hstop. exists (take (S n) (deletions kms)).
           unfold deletions at 1. by rewrite fmap_take.
      * intros Haccept. erewrite bind_Ok by (by apply forEach_accepted).
        by rewrite decide_True.
  - intros Hdelete kms tr1 Hkey Haccept tr2. unfold cmdDelete.Run.
    erewrite bind_Ok by (by apply withStack_Ok).
    erewrite bind_Ok by (by apply forEach_accepted).
    rewrite decide_False by done. fold short resourceID. fold (deletions kms).
    destruct (kafkaClient_DeleteTopics env tr2) as [err|responses] eqn:Hreply.
    + erewrite bind_Err by (apply withStack_Err, call_inl; exact Hreply). done.
    + erewrite bind_Ok by (apply withStack_Ok, call_inr; exact Hreply).
      destruct (responses !! resourceID) as [[err|]|]; [|done..].
      by destruct (errors_Is err kerr_UnknownTopicOrPartition).
Qed.

End cmdDelete_spec.

(** Two users and [Retain]; then the same with [Delete] on a cluster that
    no longer knows the topic. *)
Lemma cmdDelete_Run_policy_witness :
  let info policy :=
    {| types.Name := "a"; types.Partitions := 1; types.ReplicationFactor := 3;
       types.ClusterArn := "arn-1"; types.Config := ∅;
       types.Users := [fixtures.alice; fixtures.bob]; types.DeletionPolicy_ := policy |} in
  let gone : Env :=
    {| kafkaClient_ListTopics := fun _ => inr ∅;
       kafkaClient_DescribeTopicConfigs := fun _ => inr [];
       kafkaClient_AlterTopicConfigs := fun _ => inr [];
       kafkaClient_DeleteTopics := fun _ =>
         inr {[ "a-T6DNBAMI" := Some (WithStack kerr_UnknownTopicOrPartition) ]};
       kafkaClient_CreateTopic := fun _ => None;
       mskClient_DescribeCluster := fun _ => inr (Some {[ "TR-KMS-KEY" := "key-1" ]});
       userManager_CreateUser := fun _ => Ok tt;
       userManager_DeleteUser := fun _ => Ok tt;
       userManager_CreateACLs := fun _ => Ok tt;
       userManager_DeleteACLs := fun _ => Ok tt;
       kafkaClientProvider_NewKafkaClient := fun _ => None |} in
  admin.cmdDelete.Run gone (info types.DeletionPolicyRetain) "test" []
  = (Ok tt, [ DescribeCluster "arn-1";
              DeleteUser fixtures.alice "key-1" "a-T6DNBAMI" "T6DNBAMI" "arn-1";
              DeleteUser fixtures.bob "key-1" "a-T6DNBAMI" "T6DNBAMI" "arn-1" ])
  /\ admin.cmdDelete.Run gone (info types.DeletionPolicyDelete) "test" []
     = (Ok tt, [ DescribeCluster "arn-1";
                 DeleteUser fixtures.alice "key-1" "a-T6DNBAMI" "T6DNBAMI" "arn-1";
                 DeleteUser fixtures.bob "key-1" "a-T6DNBAMI" "T6DNBAMI" "arn-1";
                 DeleteTopics "a-T6DNBAMI" ]).
Proof.
  intros info gone. split.
  - destruct (cmdDelete_Run_policy gone (info types.DeletionPolicyRetain) "test" [])
      as [H _].
    destruct H as [_ H]; [reflexivity|].
    pose proof (H "key-1" [DescribeCluster "arn-1"] eq_refl) as [_ Hall].
    rewrite Hall by reflexivity. reflexivity.
  - destruct (cmdDelete_Run_policy gone (info types.DeletionPolicyDelete) "test" [])
      as [_ H].
    destruct (H (ltac:(discriminate)) "key-1" [DescribeCluster "arn-1"]) as [Hcalls Hresult];
      [reflexivity|reflexivity|].
    apply injective_projections; [exact Hresult|].
    cbn [snd]. rewrite Hcalls. reflexivity.
Defined.

(** *** Update: the order of the user mutations *)

Section update_order.
Import types admin admin.cmdUpdate.
Context {order : MapOrder}.

Lemma Run_users_perform env udiff kmsKeyID topicName shortStackID clusterArn tr :
  Run_users env udiff kmsKeyID topicName shortStackID clusterArn tr
  = perform env (plan udiff kmsKeyID topicName shortStackID clusterArn) tr.
Proof.
  unfold Run_users, plan.
  apply bind_perform; [by apply forEach_perform|]. intros tr1.
  apply bind_perform; [by destruct (DeletedUsers udiff)|]. intros tr2.
  apply bind_perform; [by apply forEach_perform|]. intros tr3.
  apply bind_perform; [|intros tr4].
  - by apply (forEach_perform env
                (fun entry => CreateACLs topicName entry.1 shortStackID entry.2)).
  - by apply (forEach_perform env
                (fun entry => DeleteACLs topicName entry.1 shortStackID entry.2)).
Qed.

Lemma plan_without_delay udiff kmsKeyID topicName shortStackID clusterArn :
  DeletedUsers udiff = [] ->
  FixedDelay ∉ plan udiff kmsKeyID topicName shortStackID clusterArn.
Proof.
  intros Hd. unfold plan. rewrite Hd. cbn.
  rewrite !elem_of_app, !list_elem_of_fmap. by intros [(? & ? & ?)|[(? & ? & ?)|(? & ? & ?)]].
Qed.

Lemma diffConfig_emits env topic new old :
  emits cluster_call (diffConfig env topic new old).
Proof.
  unfold diffConfig. apply emits_bind; [by apply emits_withStack, emits_call|].
  intros c. apply emits_lift.
Qed.

Lemma Run_topic_emits env old new stackID :
  emits cluster_call (Run_topic env old new stackID).
Proof.
  unfold Run_topic.
  apply emits_bind; [by apply emits_withStack, emits_call|]. intros topics.
  apply emits_bind; [repeat case_match; auto with cmd|]. intros _.
  apply emits_bind; [case_match; auto with cmd|]. intros _.
  apply emits_bind; [case_match; auto with cmd|]. intros _.
  apply emits_bind; [apply emits_withStack, Resolve_emits|]. intros kms.
  apply emits_bind; [apply emits_withStack, diffConfig_emits|]. intros cdiff.
  apply emits_bind; [|auto with cmd]. case_match; [|auto with cmd].
  apply emits_bind; [by apply emits_withStack, emits_call|]. intros responses.
  apply emits_bind; [auto with cmd|]. intros response.
  case_match; auto with cmd.
Qed.

(** C4.  The user diff is applied as the calls of [plan], in that order:
    the [DeleteUser] calls for [DeletedUsers], then one [FixedDelay] if
    [DeletedUsers] is not empty, then the [CreateUser] calls for
    [AddedUsers], then the [CreateACLs] calls for [AddedPermissions],
    then the [DeleteACLs] calls for [DeletedPermissions].  Applying the
    diff is performing these calls one after the other: every call made
    is the next one of the plan, it is made only after all the calls
    before it were accepted, and the run goes on as long as calls are
    accepted.  So a run makes all of them and succeeds (it does when no
    call is refused), or stops at the first call that is not accepted,
    with its error wrapped (or its panic); no call of a later group is
    made before every call of the earlier groups was made and accepted,
    and the delay is not invoked when [DeletedUsers] is empty.  In [Run]
    nothing but calls on the cluster precedes these calls, and they
    follow as soon as the topic part has succeeded. *)
Theorem Run_user_mutations_in_order (env : Env) :
  (forall udiff kmsKeyID topicName shortStackID clusterArn tr,
     let run := Run_users env udiff kmsKeyID topicName shortStackID clusterArn tr in
     let planned := plan udiff kmsKeyID topicName shortStackID clusterArn in
     run = perform env planned tr
     /\ (exists made,
           run.2 = tr ++ made
           /\ made `prefix_of` planned
           /\ (forall n c,
                 made !! n = Some c ->
                 (S n < length made)%nat \/ run.1 = Ok tt ->
                 service env c (tr ++ take (S n) made) = Ok tt)
           /\ (run.1 = Ok tt /\ made = planned
               \/ exists before c,
                    made = before ++ [c]
                    /\ ((exists e, service env c (tr ++ made) = Err e
                                   /\ run.1 = Err (WithStack e))
                        \/ (exists r, service env c (tr ++ made) = Panic r
                                      /\ run.1 = Panic r)))
           /\ (DeletedUsers udiff = [] -> FixedDelay ∉ made))
     /\ ((forall c h, service env c h = Ok tt) -> run = (Ok tt, tr ++ planned)))
  /\ (forall old new stackID tr,
       let run := Run env old new stackID tr in
       let shortStackID := shortStackID stackID in
       let topicName := canonicalTopicName (Name new) shortStackID in
       let udiff := diffUsers (Name old) old new in
       (exists before made kmsKeyID,
          run.2 = tr ++ before ++ made
          /\ Forall cluster_call before
          /\ made `prefix_of` plan udiff kmsKeyID topicName shortStackID (ClusterArn old)
          /\ (run.1 = Ok tt ->
              made = plan udiff kmsKeyID topicName shortStackID (ClusterArn old))
          /\ (DeletedUsers udiff = [] -> FixedDelay ∉ made))
       /\ forall kmsKeyID tr1,
            Run_topic env old new stackID tr = (Ok kmsKeyID, tr1) ->
            run = perform env (plan udiff kmsKeyID topicName shortStackID (ClusterArn old))
                          tr1).
Proof.
  assert (Husers : forall udiff kmsKeyID topicName shortStackID clusterArn tr,
     let run := Run_users env udiff kmsKeyID topicName shortStackID clusterArn tr in
     let planned := plan udiff kmsKeyID topicName shortStackID clusterArn in
     exists made,
       run.2 = tr ++ made
       /\ made `prefix_of` planned
       /\ (forall n c,
             made !! n = Some c ->
             (S n < length made)%nat \/ run.1 = Ok tt ->
             service env c (tr ++ take (S n) made) = Ok tt)
       /\ (run.1 = Ok tt /\ made = planned
           \/ exists before c,
                made = before ++ [c]
                /\ ((exists e, service env c (tr ++ made) = Err e
                               /\ run.1 = Err (WithStack e))
                    \/ (exists r, service env c (tr ++ made) = Panic r
                                  /\ run.1 = Panic r)))
       /\ (DeletedUsers udiff = [] -> FixedDelay ∉ made)).
  { intros udiff kms topicName short arn tr run planned. subst run.
    rewrite Run_users_perform. fold planned.
    destruct (perform_made env planned tr) as (made & Htr & Hpre & Hacc & Hend).
    exists made. split_and!; [done..|].
    intros Hd Hin. eapply plan_without_delay; [exact Hd|]. by eapply elem_of_prefix. }
  split.
  { intros udiff kms topicName short arn tr run planned.
    split; [apply Run_users_perform|]. split; [apply Husers|].
    intros Hok. subst run. rewrite Run_users_perform. by apply perform_accepted. }
  intros old new stackID tr run short topicName udiff. subst run. unfold Run. split.
  - destruct (Run_topic_emits env old new stackID tr) as (before & Htr & Hbefore).
    destruct (Run_topic env old new stackID tr) as [[kms|e|r] tr1] eqn:Htopic;
      cbn [snd] in Htr; subst tr1.
    + rewrite (bind_Ok _ _ _ _ _ Htopic).
      destruct (Husers udiff kms topicName short (ClusterArn old) (tr ++ before))
        as (made & Hmade & Hpre & _ & Hres & Hdelay).
      exists before, made, kms. fold short topicName udiff. rewrite Hmade.
      split_and!; [by rewrite app_assoc|done|done| |done].
      intros Hok. destruct Hres as [[_ ->]|(b & c & _ & [(e & _ & He)|(r & _ & He)])];
        [done|by rewrite He in Hok..].
    + rewrite (bind_Err _ _ _ _ _ Htopic). exists before, [], "".
      rewrite app_nil_r. split_and!; [done|done|apply prefix_nil|done|].
      by intros _ ?%elem_of_nil.
    + rewrite (bind_Panic _ _ _ _ _ Htopic). exists before, [], "".
      rewrite app_nil_r. split_and!; [done|done|apply prefix_nil|done|].
      by intros _ ?%elem_of_nil.
  - intros kms tr1 Htopic. rewrite (bind_Ok _ _ _ _ _ Htopic).
    apply Run_users_perform.
Qed.

End update_order.

(** Identical users: nothing is deleted, so no delay, and the run makes
    exactly the planned calls (none).  Then the "Updated arn" case: one
    delete, the delay, one create. *)
Lemma Run_user_mutations_in_order_witness :
  let tagged := fixtures.scripted (fixtures.listTopicsOutput "a-T6DNBAMI" 0 0)
                  [ {| kadm.ResourceName := "a"; kadm.Configs := [];
                       kadm.ResourceErr := None |} ]
                  {[ "TR-KMS-KEY" := "key-1" ]} in
  let same := fixtures.topic [fixtures.alice; fixtures.bob] ∅ in
  (exists before made,
     (admin.cmdUpdate.Run (H:=canonical_order) tagged same same "test" []).2 = before ++ made
     /\ Forall cluster_call before
     /\ FixedDelay ∉ made)
  /\ admin.cmdUpdate.Run (H:=canonical_order) tagged
       (fixtures.topic [fixtures.bob] ∅) (fixtures.topic [fixtures.bobArn3] ∅) "test" []
     = (Ok tt, [ ListTopics "a-T6DNBAMI"; DescribeCluster "";
                 DescribeTopicConfigs "a-T6DNBAMI";
                 DeleteUser fixtures.bob "key-1" "a-T6DNBAMI" "T6DNBAMI" "";
                 FixedDelay;
                 CreateUser "T6DNBAMI" "a-T6DNBAMI" "key-1" "" fixtures.bobArn3 ]).
Proof.
  intros tagged same. split; [|by vm_compute].
  destruct (Run_user_mutations_in_order (order:=canonical_order) tagged) as [_ H].
  destruct (H same same "test" [])
    as [(before & made & kms & Hrun & Hbefore & _ & _ & Hdelay) _].
  exists before, made. split_and!; [exact Hrun|exact Hbefore|].
  apply Hdelay. by vm_compute.
Defined.

(** *** Update: immutable properties *)

Section update_checks.
Import types admin admin.cmdUpdate.
Context {order : MapOrder}.

(** C3, as the code has it.  [Run] first lists the canonical topic of
    [new.Name].  When that call answers, the update stops there, with no
    other call made, in each of these cases: the topic is reported
    unknown and the name changed ([cannot update Name and ClusterArn
    properties]); the reported partition count differs from
    [new.Partitions] ([Cannot update Partitions]); the counts agree and
    the reported replica count differs from [new.ReplicationFactor]
    ([Cannot update ReplicationFactor]).  So a change of [Partitions] or
    [ReplicationFactor] is rejected whenever the cluster still reports
    the old value. *)
Theorem Run_rejects (env : Env) (old new : TopicInfo) (stackID : string)
    (tr : list Call) (topics : gmap string kadm.TopicDetail) :
  let topicName := canonicalTopicName (Name new) (shortStackID stackID) in
  let tr1 := tr ++ [ListTopics topicName] in
  kafkaClient_ListTopics env tr1 = inr topics ->
  let currentTopic := default kadm.noTopicDetail (topics !! topicName) in
  let partitions := Z.of_nat (length (kadm.Numbers (kadm.Partitions currentTopic))) in
  let replicas := kadm.NumReplicas (kadm.Partitions currentTopic) in
  (forall err,
     is_Some (topics !! topicName) -> kadm.Err_ currentTopic = Some err ->
     errors_Is err kerr_UnknownTopicOrPartition = true -> Name old ≠ Name new ->
     Run env old new stackID tr
     = (Err (errors_New "cannot update Name and ClusterArn properties"), tr1))
  /\ (kadm.Err_ currentTopic = None -> partitions ≠ Partitions new ->
      Run env old new stackID tr = (Err (errors_New "Cannot update Partitions"), tr1))
  /\ (kadm.Err_ currentTopic = None -> partitions = Partitions new ->
      replicas ≠ ReplicationFactor new ->
      Run env old new stackID tr
      = (Err (errors_New "Cannot update ReplicationFactor"), tr1))
  /\ (kadm.Err_ currentTopic = None -> partitions = Partitions old ->
      Partitions old ≠ Partitions new ->
      Run env old new stackID tr = (Err (errors_New "Cannot update Partitions"), tr1))
  /\ (kadm.Err_ currentTopic = None -> partitions = Partitions new ->
      replicas = ReplicationFactor old ->
      ReplicationFactor old ≠ ReplicationFactor new ->
      Run env old new stackID tr
      = (Err (errors_New "Cannot update ReplicationFactor"), tr1)).
Proof.
  intros topicName tr1 Hlist currentTopic partitions replicas.
  assert (Hstart : forall k : gmap string kadm.TopicDetail -> Cmd string,
            (withStack (call (ListTopics topicName) (kafkaClient_ListTopics env)) ≫= k) tr
            = k topics tr1).
  { intros k. by apply bind_Ok, withStack_Ok, call_inr. }
  assert (Hparts : kadm.Err_ currentTopic = None -> partitions ≠ Partitions new ->
            Run env old new stackID tr
            = (Err (errors_New "Cannot update Partitions"), tr1)).
  { intros Herr Hne. unfold Run. erewrite bind_Err; [done|].
    unfold Run_topic. fold topicName. rewrite Hstart. fold currentTopic.
    erewrite bind_Ok; cycle 1.
    { subst currentTopic. destruct (topics !! topicName) as [td|]; [|done].
      cbn in Herr. by rewrite Herr. }
    erewrite bind_Err; [done|]. fold partitions. by rewrite decide_True. }
  assert (Hrepl : kadm.Err_ currentTopic = None -> partitions = Partitions new ->
            replicas ≠ ReplicationFactor new ->
            Run env old new stackID tr
            = (Err (errors_New "Cannot update ReplicationFactor"), tr1)).
  { intros Herr Heq Hne. unfold Run. erewrite bind_Err; [done|].
    unfold Run_topic. fold topicName. rewrite Hstart. fold currentTopic.
    erewrite bind_Ok; cycle 1.
    { subst currentTopic. destruct (topics !! topicName) as [td|]; [|done].
      cbn in Herr. by rewrite Herr. }
    erewrite bind_Ok; cycle 1.
    { fold partitions. by rewrite decide_False by (by intros ?). }
    erewrite bind_Err; [done|]. fold replicas. by rewrite decide_True. }
  split_and!.
  - intros err [td Htd] Herr Hunknown Hname. unfold Run. erewrite bind_Err; [done|].
    unfold Run_topic. fold topicName. rewrite Hstart.
    erewrite bind_Err; [done|]. subst currentTopic. rewrite Htd in Herr |- *.
    cbn in Herr. rewrite Herr, Hunknown. by rewrite bool_decide_eq_true_2.
  - exact Hparts.
  - exact Hrepl.
  - intros Herr Heq Hne. apply Hparts; [done|]. by rewrite Heq.
  - intros Herr Heq Heq' Hne. apply Hrepl; [done..|]. by rewrite Heq'.
Qed.

End update_checks.

(** The template asks for two partitions, the cluster reports one. *)
Lemma Run_rejects_witness :
  admin.cmdUpdate.Run (H:=canonical_order) (fixtures.clusterWith 1)
    (fixtures.plain 1 "arn-1") (fixtures.plain 2 "arn-1") "test" []
  = (Err (errors_New "Cannot update Partitions"), [ListTopics "a-T6DNBAMI"]).
Proof.
  destruct (Run_rejects (order:=canonical_order) (fixtures.clusterWith 1)
              (fixtures.plain 1 "arn-1") (fixtures.plain 2 "arn-1") "test" []
              (fixtures.listTopicsOutput "a-T6DNBAMI" 1 3))
    as (_ & H & _); [reflexivity|].
  rewrite H; [|by vm_compute..]. reflexivity.
Defined.

(** Against C3 as the specification words it (every change of
    [ClusterArn] or [Partitions] is rejected): an update that changes
    [ClusterArn] only succeeds, and so does one that changes [Partitions]
    from 1 to 2 when the cluster already reports 2 partitions. *)
Lemma Run_accepts_changes :
  let run old new env := admin.cmdUpdate.Run (H:=canonical_order) env old new "test" [] in
  (types.ClusterArn (fixtures.plain 1 "arn-1") ≠ types.ClusterArn (fixtures.plain 1 "arn-2")
   /\ run (fixtures.plain 1 "arn-1") (fixtures.plain 1 "arn-2") (fixtures.clusterWith 1)
      = (Ok tt, [ListTopics "a-T6DNBAMI"; DescribeTopicConfigs "a-T6DNBAMI"]))
  /\ (types.Partitions (fixtures.plain 1 "arn-1") ≠ types.Partitions (fixtures.plain 2 "arn-1")
      /\ run (fixtures.plain 1 "arn-1") (fixtures.plain 2 "arn-1") (fixtures.clusterWith 2)
         = (Ok tt, [ListTopics "a-T6DNBAMI"; DescribeTopicConfigs "a-T6DNBAMI"])).
Proof. vm_compute. split_and!; done. Qed.

(** *** Desired-state model: validation errors *)

Section NewTopicInfo_spec.
Import types gojsonschema.

Lemma occurs_in_refl s : occurs_in s s.
Proof. exists "", "". by rewrite append_empty_l, append_empty_r. Qed.

Lemma occurs_in_append_l s pre whole : occurs_in s whole -> occurs_in s (pre +:+ whole).
Proof.
  intros (before & after & ->). exists (pre +:+ before), after.
  by rewrite append_assoc.
Qed.

Lemma occurs_in_append_r s whole post : occurs_in s whole -> occurs_in s (whole +:+ post).
Proof.
  intros (before & after & ->). exists before, (after +:+ post).
  by rewrite !append_assoc.
Qed.

(** Every element of a joined list occurs in the result. *)
Lemma concat_occurs sep (l : list string) s : s ∈ l -> occurs_in s (String.concat sep l).
Proof.
  induction l as [|x l IH]; [by intros ?%elem_of_nil|].
  intros Hs. destruct l as [|y l].
  - apply elem_of_cons in Hs as [->|Hs%elem_of_nil]; [apply occurs_in_refl|done].
  - change (String.concat sep (x :: y :: l))
      with (x +:+ sep +:+ String.concat sep (y :: l)).
    apply elem_of_cons in Hs as [->|Hs].
    + apply occurs_in_append_r, occurs_in_refl.
    + by apply occurs_in_append_l, occurs_in_append_l, IH.
Qed.

(** C8.  When validation finds violations, [NewTopicInfo] returns one
    error; its message is the texts of all violations joined by a space,
    so every violation occurs in it.  On the empty map the message lists
    the five missing required fields. *)
Theorem NewTopicInfo_reports_every_violation (props : json.Value) :
  let result := Validate topicInfoSchema props in
  (result ≠ [] ->
   exists msg,
     NewTopicInfo props = Err (errors_New msg)
     /\ msg = String.concat " " (String_ <$> result)
     /\ forall violation, violation ∈ result -> occurs_in (String_ violation) msg)
  /\ NewTopicInfo (json.Object [])
     = Err (errors_New ("(root): ServiceToken is required (root): Name is required "
                        +:+ "(root): Partitions is required "
                        +:+ "(root): ReplicationFactor is required "
                        +:+ "(root): ClusterArn is required")).
Proof.
  intros result. split; [|by vm_compute].
  intros Hresult. eexists. split_and!; [|reflexivity|].
  - unfold NewTopicInfo. fold result. by destruct result.
  - intros violation Hin. apply concat_occurs. by apply list_elem_of_fmap_2.
Qed.

(** The "Invalid Partitions" case of the tests: [Partitions = "1a"]. *)
Lemma NewTopicInfo_reports_every_violation_witness :
  exists msg,
    NewTopicInfo (json.Object [ ("ServiceToken", json.Str "st"); ("Name", json.Str "topic-a");
                                ("Partitions", json.Str "1a");
                                ("ReplicationFactor", json.Str "3");
                                ("ClusterArn", json.Str "arn") ])
    = Err (errors_New msg)
    /\ msg = "Partitions: Does not match pattern '^[0-9]*$'".
Proof.
  destruct (NewTopicInfo_reports_every_violation
              (json.Object [ ("ServiceToken", json.Str "st"); ("Name", json.Str "topic-a");
                             ("Partitions", json.Str "1a");
                             ("ReplicationFactor", json.Str "3");
                             ("ClusterArn", json.Str "arn") ]))
    as [H _].
  destruct H as (msg & Hrun & Hmsg & _); [by vm_compute|].
  exists msg. split; [exact Hrun|]. rewrite Hmsg. vm_compute. reflexivity.
Defined.

Example NewTopicInfo_invalid_permission :
  NewTopicInfo (fixtures.properties
    [ ("Users", json.Array [ json.Object [ ("Username", json.Str "alice");
                                           ("Arn", json.Str "a");
                                           ("Permissions", json.Array [json.Str "READING"]) ] ]) ])
  = Err (errors_New ("Users.0.Permissions.0: Users.0.Permissions.0 must be one of the "
                     +:+ "following: " +:+ quoted "READ" +:+ ", " +:+ quoted "WRITE")).
Proof. vm_compute. reflexivity. Qed.

Example NewTopicInfo_invalid_policy :
  NewTopicInfo (fixtures.properties [ ("DeletionPolicy", json.Str "INVALID_POLICY") ])
  = Err (errors_New ("DeletionPolicy: DeletionPolicy must be one of the following: "
                     +:+ quoted "DELETE" +:+ ", " +:+ quoted "RETAIN")).
Proof. vm_compute. reflexivity. Qed.

Example NewTopicInfo_basic :
  NewTopicInfo (fixtures.properties [])
  = Ok {| Name := "topic-a"; Partitions := 1; ReplicationFactor := 3; ClusterArn := "arn";
          Config := ∅; Users := []; DeletionPolicy_ := DeletionPolicyRetain |}.
Proof. vm_compute. reflexivity. Qed.

End NewTopicInfo_spec.

(** *** Create: the response *)

Section create_spec.
Import types admin.

Lemma calm_bind {A B} (m : outcome A) (k : A -> outcome B) :
  calm m -> (forall a, calm (k a)) -> calm (m ≫= k).
Proof. intros Hm Hk. destruct m as [a|e|r]; cbn; [apply Hk|done|]. by destruct (Hm r). Qed.

Lemma calm_ofold {A B} (body : B -> A -> outcome B) xs acc :
  (forall acc x, calm (body acc x)) -> calm (ofold body xs acc).
Proof.
  intros Hbody. revert acc. induction xs as [|x xs IH]; intros acc; cbn; [done|].
  apply (calm_bind (body acc x)); auto.
Qed.

Lemma calm_decodeString field v current : calm (decodeString field v current).
Proof. by destruct v. Qed.

Lemma calm_decodeQuotedInt field v current : calm (decodeQuotedInt field v current).
Proof. destruct v; try done. cbn. by case_match. Qed.

Lemma calm_decodeConfig v current : calm (decodeConfig v current).
Proof.
  destruct v; try done. cbn. apply calm_ofold. intros acc [k x]. by destruct x.
Qed.

Lemma calm_decodePermissions v current : calm (decodePermissions v current).
Proof.
  destruct v; try done. cbn. apply calm_ofold. intros acc x.
  apply calm_bind; [apply calm_decodeString|done].
Qed.

Lemma calm_decodeUser v : calm (decodeUser v).
Proof.
  destruct v; try done. cbn. apply calm_ofold. intros acc [k x].
  repeat case_decide; try done;
    (apply calm_bind; [auto using calm_decodeString, calm_decodePermissions|done]).
Qed.

Lemma calm_decodeUsers v current : calm (decodeUsers v current).
Proof.
  destruct v; try done. cbn. apply calm_ofold. intros acc x.
  apply calm_bind; [apply calm_decodeUser|done].
Qed.

Lemma calm_Unmarshal document ti : calm (Unmarshal document ti).
Proof.
  destruct document; try done. cbn. apply calm_ofold. intros acc [k x].
  repeat case_decide; try done;
    (apply calm_bind;
     [auto using calm_decodeString, calm_decodeQuotedInt, calm_decodeConfig,
        calm_decodeUsers|done]).
Qed.

Lemma calm_NewTopicInfo props : calm (NewTopicInfo props).
Proof. unfold NewTopicInfo. case_match; [apply calm_Unmarshal|done]. Qed.

Lemma bind_Ok_inv {A B} (m : Cmd A) (k : A -> Cmd B) tr b tr' :
  (m ≫= k) tr = (Ok b, tr') -> exists a tr1, m tr = (Ok a, tr1) /\ k a tr1 = (Ok b, tr').
Proof.
  unfold mbind, Cmd_bind, cmd_bind. destruct (m tr) as [[a|e|r] tr1]; [|done..].
  intros Hk. by exists a, tr1.
Qed.

(** Where the user manager can panic: nowhere, when the replies are
    complete. *)
Lemma quiet_ret {A} (a : A) : quiet (mret a : userManager.Op A).
Proof. by intros tr r. Qed.

Lemma quiet_pure {A} (o : outcome A) : calm o -> quiet (userManager.pure o).
Proof. intros Ho tr r. apply Ho. Qed.

Lemma quiet_raise {A} e : quiet (userManager.raise (A:=A) e).
Proof. by intros tr r. Qed.

Lemma quiet_send {A} request (reply : list userManager.Request -> error + A) :
  quiet (userManager.send request reply).
Proof. intros tr r. unfold userManager.send. cbn. by destruct (reply _). Qed.

Lemma quiet_send_ request reply : quiet (userManager.send_ request reply).
Proof. apply quiet_send. Qed.

Lemma quiet_stacked {A} (m : userManager.Op A) : quiet m -> quiet (userManager.stacked m).
Proof.
  intros Hm tr r. specialize (Hm tr). unfold userManager.stacked.
  destruct (m tr) as [[a|e|r'] tr1]; cbn in *; [done..|]. by destruct (Hm r').
Qed.

Lemma quiet_try {A} (m : userManager.Op A) : quiet m -> quiet (userManager.try m).
Proof.
  intros Hm tr r. specialize (Hm tr). unfold userManager.try.
  destruct (m tr) as [[a|e|r'] tr1]; cbn in *; [done..|]. by destruct (Hm r').
Qed.

(** The continuation need be quiet only on what [m] can return. *)
Lemma quiet_bind_result {A B} (P : A -> Prop) (m : userManager.Op A)
    (k : A -> userManager.Op B) :
  quiet m ->
  (forall tr a tr1, m tr = (Ok a, tr1) -> P a) ->
  (forall a, P a -> quiet (k a)) ->
  quiet (m ≫= k).
Proof.
  intros Hm HP Hk tr r. specialize (Hm tr). specialize (HP tr).
  unfold mbind, userManager.Op_bind, userManager.op_bind.
  destruct (m tr) as [[a|e|r'] tr1]; cbn in *; [|done|by destruct (Hm r')].
  apply Hk. by eapply HP.
Qed.

Lemma quiet_bind {A B} (m : userManager.Op A) (k : A -> userManager.Op B) :
  quiet m -> (forall a, quiet (k a)) -> quiet (m ≫= k).
Proof. intros Hm Hk. by apply (quiet_bind_result (fun _ => True)). Qed.

Lemma stacked_send_result {A} request (reply : list userManager.Request -> error + A)
    tr a tr1 :
  userManager.stacked (userManager.send request reply) tr = (Ok a, tr1) ->
  reply tr1 = inr a.
Proof.
  unfold userManager.stacked, userManager.send.
  destruct (reply (tr ++ [request])) as [e|a'] eqn:Hreply; [done|].
  by intros [= <- <-].
Qed.

Lemma try_send_result {A} request (reply : list userManager.Request -> error + A)
    tr x tr1 :
  userManager.try (userManager.send request reply) tr = (Ok x, tr1) ->
  reply tr1 = x.
Proof.
  unfold userManager.try, userManager.send.
  destruct (reply (tr ++ [request])) as [e|a'] eqn:Hreply; by intros [= <- <-].
Qed.

Lemma quiet_generatePassword w : quiet (userManager.generatePassword w).
Proof.
  unfold userManager.generatePassword.
  apply quiet_bind; [apply quiet_stacked, quiet_send|]. intros [n buf].
  case_decide; [apply quiet_raise|apply quiet_ret].
Qed.

Lemma quiet_createACLs_loop w acls :
  (forall h, userManager.kafkaClient_CreateACLs w h ≠ inr []) ->
  quiet (userManager.createACLs_loop w acls).
Proof.
  intros Hfirst. induction acls as [|acl acls IH]; cbn [userManager.createACLs_loop];
    [apply quiet_ret|].
  apply (quiet_bind_result (fun car => car ≠ [])); [apply quiet_stacked, quiet_send| |].
  - intros tr car tr1 Hcar%stacked_send_result ->. by apply Hfirst in Hcar.
  - intros [|first rest] Hcar; [done|].
    destruct (acl.ResultErr first); [apply quiet_raise|apply IH].
Qed.

Lemma quiet_deleteACLs_loop w acls :
  (forall h, userManager.kafkaClient_DeleteACLs w h ≠ inr []) ->
  quiet (userManager.deleteACLs_loop w acls).
Proof.
  intros Hfirst. induction acls as [|acl acls IH]; cbn [userManager.deleteACLs_loop];
    [apply quiet_ret|].
  apply (quiet_bind_result (fun r => r ≠ inr [])); [apply quiet_try, quiet_send| |].
  - intros tr r tr1 Hr%try_send_result ->. by apply Hfirst in Hr.
  - intros [err|[|first rest]] Hr; [|done|].
    + case_match; [apply quiet_raise|apply quiet_ret].
    + destruct (acl.ResultErr first); [|apply IH].
      case_match; [apply quiet_raise|apply IH].
Qed.

Lemma calm_checkAssociated unprocessed :
  Forall (fun uss => is_Some (userManager.ErrorMessage uss)
                     /\ is_Some (userManager.ErrorCode uss)) unprocessed ->
  calm (userManager.checkAssociated unprocessed).
Proof.
  intros Hall. destruct unprocessed as [|uss [|]]; [done| |done].
  apply Forall_inv in Hall as [[message Hm] [code Hc]].
  unfold userManager.checkAssociated. rewrite Hm, Hc. cbn. by case_decide.
Qed.

Lemma calm_checkDisassociated unprocessed :
  Forall (fun uss => is_Some (userManager.ErrorMessage uss)) unprocessed ->
  calm (userManager.checkDisassociated unprocessed).
Proof.
  intros Hall. destruct unprocessed as [|uss [|]]; [done| |done].
  apply Forall_inv in Hall as [message Hm].
  unfold userManager.checkDisassociated. rewrite Hm. cbn. by case_decide.
Qed.

Lemma quiet_unlessRetriable {A} w (r : error + A) : quiet (userManager.unlessRetriable w r).
Proof.
  destruct r as [err|a]; cbn; [|apply quiet_ret].
  case_match; [apply quiet_raise|apply quiet_ret].
Qed.

Lemma quiet_CreateUser w shortStackID topic kmsKeyID clusterArn u :
  complete w ->
  quiet (userManager.CreateUser w shortStackID topic kmsKeyID clusterArn u).
Proof.
  intros (Hcreated & Hdescribed & Hassociated & _ & Hfirst & _).
  unfold userManager.CreateUser.
  apply quiet_bind; [apply quiet_stacked, quiet_generatePassword|]. intros password.
  apply (quiet_bind_result (fun r => r ≠ inr None)); [apply quiet_try, quiet_send| |].
  { intros tr r tr1 Hr%try_send_result ->. by apply Hcreated in Hr. }
  intros r Hr. apply quiet_bind.
  { destruct r as [err|[arn|]]; [|by apply quiet_pure|done].
    case_match; [apply quiet_raise|].
    apply (quiet_bind_result (fun ds => ds ≠ None)); [apply quiet_stacked, quiet_send| |].
    - intros tr ds tr1 Hds%stacked_send_result ->. by apply Hdescribed in Hds.
    - intros [arn|] Hds; [by apply quiet_pure|done]. }
  intros secretArn. apply quiet_bind.
  { case_decide; [|apply quiet_ret]. apply quiet_stacked.
    unfold userManager.grantAccessToSecretForArn.
    apply quiet_bind; [apply quiet_stacked, quiet_send_|]. intros _.
    apply quiet_bind; [apply quiet_stacked, quiet_send|]. intros _. apply quiet_ret. }
  intros _. apply quiet_bind; [apply quiet_send_|]. intros _.
  apply (quiet_bind_result
           (fun bass => Forall (fun uss => is_Some (userManager.ErrorMessage uss)
                                           /\ is_Some (userManager.ErrorCode uss)) bass));
    [apply quiet_stacked, quiet_send| |].
  { intros tr bass tr1 Hbass%stacked_send_result. by eapply Hassociated. }
  intros bass Hbass. apply quiet_bind; [by apply quiet_pure, calm_checkAssociated|].
  intros _. by apply quiet_stacked, quiet_createACLs_loop.
Qed.

Lemma quiet_DeleteUser w u kmsKeyID topic shortStackID clusterArn :
  complete w ->
  quiet (userManager.DeleteUser w u kmsKeyID topic shortStackID clusterArn).
Proof.
  intros (_ & Hdescribed & _ & Hdisassociated & _ & Hfirst).
  unfold userManager.DeleteUser.
  apply quiet_bind; [by apply quiet_stacked, quiet_deleteACLs_loop|]. intros _.
  apply (quiet_bind_result (fun r => r ≠ inr None)); [apply quiet_try, quiet_send| |].
  { intros tr r tr1 Hr%try_send_result ->. by apply Hdescribed in Hr. }
  intros [err|[arn|]] Hr; [|clear Hr|done].
  { case_match; [apply quiet_ret|apply quiet_raise]. }
  apply quiet_bind; [by apply quiet_pure|]. intros secretArn.
  apply (quiet_bind_result
           (fun r => match r with
                     | inl _ => True
                     | inr bdss =>
                         Forall (fun uss => is_Some (userManager.ErrorMessage uss)) bdss
                     end));
    [apply quiet_try, quiet_send| |].
  { intros tr r tr1 Hr%try_send_result. destruct r as [e|bdss]; [done|].
    by eapply Hdisassociated. }
  intros r Hbdss. apply quiet_bind.
  { destruct r as [e|bdss]; [apply quiet_unlessRetriable|].
    by apply quiet_pure, calm_checkDisassociated. }
  intros _. apply quiet_bind.
  { case_decide; [|apply quiet_ret].
    apply quiet_bind; [apply quiet_try, quiet_send|]. intros [e|grantId].
    - apply quiet_unlessRetriable.
    - apply quiet_bind; [apply quiet_try, quiet_send_|]. intros r'.
      apply quiet_unlessRetriable. }
  intros _. apply quiet_bind; [apply quiet_try, quiet_send_|]. intros r'.
  apply quiet_unlessRetriable.
Qed.

Lemma newUserManager_no_panic w :
  complete w -> forall h r, Handler.newUserManager w h ≠ Panic r.
Proof.
  intros Hw h r. unfold Handler.newUserManager.
  destruct (last h) as [c|]; [|done].
  destruct c; cbn [Handler.method]; try done.
  - by apply quiet_CreateUser.
  - by apply quiet_DeleteUser.
  - destruct Hw as (_ & _ & _ & _ & Hfirst & _). by apply quiet_createACLs_loop.
  - destruct Hw as (_ & _ & _ & _ & _ & Hfirst). by apply quiet_deleteACLs_loop.
Qed.





End create_spec.

Lemma complete_willing : complete scenarios.willing.
Proof.
  unfold complete. split_and!; try done.
  - intros h unprocessed [= <-]. constructor.
  - intros h unprocessed [= <-]. constructor.
Qed.


(** *** Config diff: nil values *)

Section nil_values.
Import types admin admin.cmdUpdate.

(** C10.  [diffConfig] dereferences the values of [new] and [old]
    without a nil check.  A nil value anywhere in [new] makes it panic,
    and so does a nil value of [old] under a key that [new] does not
    have; it returns a result when no value of [new], [old] and the
    current config is nil.  Such a value is reachable: a property map
    whose [Config] holds a JSON [null] passes [NewTopicInfo], which
    stores a nil pointer for it, and an update with that map panics in
    [diffConfig]. *)
Theorem diffConfig_nil_value (order : MapOrder)
    (current new old : gmap string (option string)) :
  ((exists k, new !! k = Some None) ->
     exists r, diffConfig_against current new old = Panic r)
  /\ ((exists k, old !! k = Some None /\ new !! k = None) ->
      exists r, diffConfig_against current new old = Panic r)
  /\ (no_nil current -> no_nil new -> no_nil old ->
      exists updates, diffConfig_against current new old = Ok updates)
  /\ (exists ti, NewTopicInfo fixtures.nullConfig = Ok ti
                 /\ Config ti !! "retention.ms" = Some None)
  /\ (forall w,
        Handler.update (H:=canonical_order) fixtures.cluster w fixtures.nullConfigUpdate []
        = (Panic "runtime error: invalid memory address or nil pointer dereference",
           [ NewKafkaClient "arn"; ListTopics "topic-a-T6DNBAMI";
             DescribeTopicConfigs "topic-a-T6DNBAMI" ])).
Proof.
  split_and!.
  - intros [k Hk]. by eapply diffConfig_against_nil_new.
  - intros (k & Hk & Hnew). by eapply diffConfig_against_nil_old.
  - intros Hc Hn Ho. eexists. by apply diffConfig_against_Ok.
  - eexists. split; [by vm_compute|]. by vm_compute.
  - intros w. by vm_compute.
Qed.

Lemma diffConfig_nil_value_witness :
  (exists r, diffConfig_against (H:=canonical_order) ∅ {[ "retention.ms" := None ]} ∅
             = Panic r)
  /\ (exists r, diffConfig_against (H:=canonical_order) ∅ ∅ {[ "retention.ms" := None ]}
                = Panic r)
  /\ (exists updates,
        diffConfig_against (H:=canonical_order) ∅ {[ "retention.ms" := Some "1" ]} ∅
        = Ok updates).
Proof.
  split_and!.
  - destruct (diffConfig_nil_value canonical_order ∅ {[ "retention.ms" := None ]} ∅)
      as (H & _).
    apply H. exists "retention.ms". reflexivity.
  - destruct (diffConfig_nil_value canonical_order ∅ ∅ {[ "retention.ms" := None ]})
      as (_ & H & _).
    apply H. exists "retention.ms". split; reflexivity.
  - destruct (diffConfig_nil_value canonical_order ∅ {[ "retention.ms" := Some "1" ]} ∅)
      as (_ & _ & H & _).
    apply H; by_evaluation.
Defined.

End nil_values.

(* ===================================================================== *)
(** ** Further properties of the code *)
(* ===================================================================== *)

(** *** Naming: what the canonical names keep apart *)

Section naming_more.
Import admin.

Lemma string_length_append s t :
  String.length (s +:+ t) = (String.length s + String.length t)%nat.
Proof. induction s as [|c s IH]; [done|]. rewrite append_cons. cbn. by rewrite IH. Qed.

(** A string is cut in one way only before a suffix of known length. *)
Lemma append_inj_suffix s1 s2 t1 t2 :
  String.length t1 = String.length t2 -> s1 +:+ t1 = s2 +:+ t2 -> s1 = s2 /\ t1 = t2.
Proof.
  intros Hlen. revert s2.
  induction s1 as [|c s1 IH]; intros [|c' s2]; rewrite ?append_cons, ?append_empty_l.
  - done.
  - intros ->. rewrite <- append_cons, string_length_append in Hlen. cbn in Hlen. lia.
  - intros <-. rewrite <- append_cons, string_length_append in Hlen. cbn in Hlen. lia.
  - intros [= -> H]. by destruct (IH _ H) as [-> ->].
Qed.

Lemma append_inj_prefix p s t : p +:+ s = p +:+ t -> s = t.
Proof.
  induction p as [|c p IH]; [done|]. rewrite !append_cons. intros [= H]. auto.
Qed.

Lemma canonical_cut (sep : ascii) raw1 raw2 short1 short2 :
  String.length short1 = String.length short2 ->
  raw1 +:+ String sep short1 = raw2 +:+ String sep short2 ->
  raw1 = raw2 /\ short1 = short2.
Proof.
  intros Hlen H. apply append_inj_suffix in H as [H1 H2].
  - split; [exact H1|]. by injection H2.
  - cbn [String.length]. by rewrite Hlen.
Qed.

(** X1.  Canonical names are unambiguous: the canonical topic name, and
    the canonical username, of a stack determine the raw name and the
    short hash they were built from.  So two raw names under one stack
    never share a canonical name. *)
Theorem canonical_names_unambiguous (stack1 stack2 raw1 raw2 : string) :
  (canonicalTopicName raw1 (shortStackID stack1)
   = canonicalTopicName raw2 (shortStackID stack2) ->
     raw1 = raw2 /\ shortStackID stack1 = shortStackID stack2)
  /\ (canonicalUsername raw1 (shortStackID stack1)
      = canonicalUsername raw2 (shortStackID stack2) ->
      raw1 = raw2 /\ shortStackID stack1 = shortStackID stack2)
  /\ (raw1 ≠ raw2 ->
      canonicalTopicName raw1 (shortStackID stack1)
      ≠ canonicalTopicName raw2 (shortStackID stack1)
      /\ canonicalUsername raw1 (shortStackID stack1)
         ≠ canonicalUsername raw2 (shortStackID stack1)).
Proof.
  pose proof (shortStackID_length stack1) as Hlen1.
  pose proof (shortStackID_length stack2) as Hlen2.
  generalize dependent (shortStackID stack1). intros short1 Hlen1.
  generalize dependent (shortStackID stack2). intros short2 Hlen2.
  rewrite !canonicalTopicName_eq, !canonicalUsername_eq.
  split_and!.
  - apply canonical_cut. by rewrite Hlen1, Hlen2.
  - intros H%append_inj_prefix. revert H. apply canonical_cut. by rewrite Hlen1, Hlen2.
  - intros Hne. split.
    + intros H. apply canonical_cut in H as [H _]; [by apply Hne|done].
    + intros H%append_inj_prefix. apply canonical_cut in H as [H _]; [by apply Hne|done].
Qed.

Lemma quantum_length bs : length (base32.quantum bs) = 5%nat.
Proof.
  unfold base32.quantum. rewrite length_take, length_app, repeat_length. lia.
Qed.

Lemma groups_quanta n bs : Forall (fun g => length g = 5%nat) (base32.groups n bs).
Proof.
  revert bs. induction n as [|n IH]; intros bs; cbn; constructor; auto using quantum_length.
Qed.

Lemma digit_encodeStd g :
  length g = 5%nat -> base32.digit g ∈ list_ascii_of_string base32.encodeStd.
Proof.
  destruct g as [|b1 [|b2 [|b3 [|b4 [|b5 [|]]]]]]; try done. intros _.
  destruct b1, b2, b3, b4, b5; by_evaluation.
Qed.

(** X2.  The short hash of a stack identifier is made of the characters
    of the base32 alphabet only: upper-case letters and the digits 2 to
    7. *)
Theorem shortStackID_alphabet (stackID : string) :
  Forall (fun c => c ∈ list_ascii_of_string "ABCDEFGHIJKLMNOPQRSTUVWXYZ234567")
         (list_ascii_of_string (shortStackID stackID)).
Proof.
  unfold shortStackID, base32.EncodeToString.
  rewrite substring_of_list, list_ascii_of_string_of_list_ascii.
  apply Forall_take, Forall_fmap. eapply Forall_impl; [apply groups_quanta|].
  intros g Hg. by apply digit_encodeStd.
Qed.

End naming_more.

(** Two topics of one stack, and the same topic under two stacks. *)
Lemma canonical_names_unambiguous_witness :
  admin.canonicalTopicName "a" (admin.shortStackID "test")
  ≠ admin.canonicalTopicName "b" (admin.shortStackID "test")
  /\ admin.canonicalUsername "a" (admin.shortStackID "test")
     ≠ admin.canonicalUsername "b" (admin.shortStackID "test").
Proof.
  destruct (canonical_names_unambiguous "test" "test" "a" "b") as (_ & _ & H).
  apply H. discriminate.
Defined.

(** *** User diff: unchanged users, new and removed users, permission entries *)

Section diffUsers_more.
Import types admin admin.cmdUpdate.

Lemma index_None us k :
  index us !! k = None <-> forall u, u ∈ us -> Username u ≠ k.
Proof.
  rewrite index_last, last_None. split.
  - intros Hnil u Hu Hk.
    assert (Hin : u ∈ filter (fun u => Username u = k) us) by by apply list_elem_of_filter.
    rewrite Hnil in Hin. by apply elem_of_nil in Hin.
  - intros Hall. apply elem_of_nil_inv. intros u [Hk Hu]%list_elem_of_filter.
    by apply (Hall u).
Qed.

(** With unique names the index returns every user of the list. *)
Lemma index_unique us u :
  NoDup (Username <$> us) -> u ∈ us -> index us !! Username u = Some u.
Proof.
  intros Hnd Hu. destruct (index us !! Username u) as [n|] eqn:Hn.
  - apply index_lookup in Hn as [Hn Hname]. f_equal.
    apply list_elem_of_lookup in Hn as [i Hi], Hu as [j Hj].
    assert (i = j) as ->; [|congruence].
    eapply NoDup_lookup; [exact Hnd| |]; rewrite list_lookup_fmap.
    + by rewrite Hi.
    + rewrite Hj. cbn. by rewrite Hname.
  - destruct (index_None us (Username u)) as [Hnone _].
    by destruct (Hnone Hn u Hu).
Qed.

Lemma missingFrom_self xs : missingFrom xs xs = [].
Proof. by apply missingFrom_nil. Qed.

Lemma diffUsers_same_users topic old new :
  NoDup (Username <$> Users old) -> Users new = Users old ->
  AddedUsers (diffUsers topic old new) = []
  /\ DeletedUsers (diffUsers topic old new) = [].
Proof.
  intros Hnd Hsame. rewrite diffUsers_AddedUsers, diffUsers_DeletedUsers, Hsame. split.
  - apply elem_of_nil_inv. intros u [Hu|Hu]%elem_of_app.
    + apply list_elem_of_omap in Hu as (o & Ho & Hrep). unfold replaced in Hrep.
      rewrite index_unique in Hrep by done. by rewrite decide_False in Hrep by (by intros ?).
    + apply list_elem_of_filter in Hu as [Hnone Hu]. by rewrite index_unique in Hnone.
  - apply elem_of_nil_inv. intros o [Hdrop Ho]%list_elem_of_filter.
    unfold dropped in Hdrop. rewrite index_unique in Hdrop by done.
    by rewrite bool_decide_eq_false_2 in Hdrop by (by intros ?).
Qed.

Lemma diffUsers_same_permissions topic old new :
  NoDup (Username <$> Users old) -> Users new = Users old ->
  AddedPermissions (diffUsers topic old new) = ∅
  /\ DeletedPermissions (diffUsers topic old new) = ∅.
Proof.
  intros Hnd Hsame. split; apply map_eq; intros u; rewrite lookup_empty.
  - apply diffUsers_AddedPermissions_None. rewrite Hsame.
    intros o n Ho <- Hn. rewrite index_unique in Hn by done. injection Hn as <-.
    apply missingFrom_self.
  - apply diffUsers_DeletedPermissions_None. rewrite Hsame.
    intros o n Ho <- Hn. rewrite index_unique in Hn by done. injection Hn as <-.
    apply missingFrom_self.
Qed.

(** X3.  When the users did not change and their names are unique, the
    user diff is empty: nobody is added or deleted and no permission
    changes.  Uniqueness matters: with two users of one name and different
    Arns, the first is deleted and the second added although nothing
    changed. *)
Theorem diffUsers_unchanged (topic : string) (old new : TopicInfo) :
  (NoDup (Username <$> Users old) -> Users new = Users old ->
     diffUsers topic old new = newUserDiff)
  /\ (let twice := fixtures.topic [fixtures.bob; fixtures.bobArn3] ∅ in
      AddedUsers (diffUsers topic twice twice) = [fixtures.bobArn3]
      /\ DeletedUsers (diffUsers topic twice twice) = [fixtures.bob]).
Proof.
  split; [|by vm_compute].
  intros Hnd Hsame.
  destruct (diffUsers_same_users topic old new Hnd Hsame) as [Hadded Hdeleted].
  destruct (diffUsers_same_permissions topic old new Hnd Hsame) as [Haddp Hdelp].
  destruct (diffUsers topic old new) as [added addp delp deleted].
  cbn in Hadded, Hdeleted, Haddp, Hdelp. subst. reflexivity.
Qed.

(** X4.  Who is deleted and who is added.  An old user is deleted
    exactly when no new user has its name or the new user the index keeps
    for the name has another Arn.  A user is added exactly when it is a new
    user whose name no old user has, or it is the new user kept for the
    name of an old user with another Arn.  Deleted users come in the order
    of the old list. *)
Theorem diffUsers_added_deleted (topic : string) (old new : TopicInfo) (u : User) :
  let d := diffUsers topic old new in
  (u ∈ DeletedUsers d
   <-> u ∈ Users old
       /\ ((forall n, n ∈ Users new -> Username n ≠ Username u)
           \/ exists n, index (Users new) !! Username u = Some n /\ Arn u ≠ Arn n))
  /\ (u ∈ AddedUsers d
      <-> (u ∈ Users new /\ forall o, o ∈ Users old -> Username o ≠ Username u)
          \/ exists o, o ∈ Users old
                       /\ index (Users new) !! Username o = Some u /\ Arn o ≠ Arn u)
  /\ DeletedUsers d `sublist_of` Users old.
Proof.
  intros d. subst d. rewrite diffUsers_AddedUsers, diffUsers_DeletedUsers. split_and!.
  - rewrite list_elem_of_filter. unfold dropped. split.
    + intros [Hdrop Hu]. split; [done|].
      destruct (index (Users new) !! Username u) as [n|] eqn:Hn.
      * right. exists n. split; [done|]. by apply bool_decide_unpack in Hdrop.
      * left. by apply index_None.
    + intros [Hu [Hnone|(n & Hn & Harn)]]; (split; [|done]).
      * apply index_None in Hnone. by rewrite Hnone.
      * rewrite Hn. by apply bool_decide_pack.
  - rewrite elem_of_app, list_elem_of_omap, list_elem_of_filter. split.
    + intros [(o & Ho & Hrep)|[Hnone Hu]].
      * right. exists o. split; [done|]. unfold replaced in Hrep.
        destruct (index (Users new) !! Username o) as [n|]; [|done].
        destruct (decide (Arn o ≠ Arn n)); [|done]. by injection Hrep as ->.
      * left. split; [done|]. by apply index_None.
    + intros [[Hu Hnone]|(o & Ho & Hn & Harn)].
      * right. split; [|done]. by apply index_None.
      * left. exists o. split; [done|]. unfold replaced. rewrite Hn.
        by rewrite decide_True.
  - apply sublist_filter.
Qed.

(** An entry of a permission map comes from some old user of that name. *)
Lemma fold_old_AddedPermissions_Some ni olds d u ps :
  (fold_left (diffUsers_old ni) olds d).(AddedPermissions) !! u = Some ps ->
  AddedPermissions d !! u = Some ps
  \/ exists o n, o ∈ olds /\ Username o = u /\ ni !! u = Some n
                 /\ ps = missingFrom (Permissions n) (Permissions o) /\ ps ≠ [].
Proof.
  revert d. induction olds as [|o olds IH]; intros d; cbn [fold_left]; [by left|].
  intros [Hd|(o' & n & Ho' & Hrest)]%IH.
  - rewrite diffUsers_old_AddedPermissions in Hd.
    destruct (ni !! Username o) as [n|] eqn:Hn; [|by left].
    destruct (missingFrom (Permissions n) (Permissions o)) as [|p added] eqn:Hm; [by left|].
    destruct (decide (Username o = u)) as [Hu|Hu].
    + subst u. rewrite lookup_insert_eq in Hd. injection Hd as <-.
      right. exists o, n. rewrite Hm. split_and!; try done. by left.
    + rewrite lookup_insert_ne in Hd by done. by left.
  - right. exists o', n. split; [by right|done].
Qed.

Lemma fold_old_DeletedPermissions_Some ni olds d u ps :
  (fold_left (diffUsers_old ni) olds d).(DeletedPermissions) !! u = Some ps ->
  DeletedPermissions d !! u = Some ps
  \/ exists o n, o ∈ olds /\ Username o = u /\ ni !! u = Some n
                 /\ ps = missingFrom (Permissions o) (Permissions n) /\ ps ≠ [].
Proof.
  revert d. induction olds as [|o olds IH]; intros d; cbn [fold_left]; [by left|].
  intros [Hd|(o' & n & Ho' & Hrest)]%IH.
  - rewrite diffUsers_old_DeletedPermissions in Hd.
    destruct (ni !! Username o) as [n|] eqn:Hn; [|by left].
    destruct (missingFrom (Permissions o) (Permissions n)) as [|p deleted] eqn:Hm; [by left|].
    destruct (decide (Username o = u)) as [Hu|Hu].
    + subst u. rewrite lookup_insert_eq in Hd. injection Hd as <-.
      right. exists o, n. rewrite Hm. split_and!; try done. by left.
    + rewrite lookup_insert_ne in Hd by done. by left.
  - right. exists o', n. split; [by right|done].
Qed.

(** X5.  Every entry of [AddedPermissions] is under the name of a user
    present in both lists and holds, in order, the permissions of the new
    user that the old one lacks; every entry of [DeletedPermissions]
    holds the permissions of the old user that the new one lacks.  No
    entry is empty, so the update never asks for an ACL change without a
    permission. *)
Theorem diffUsers_permission_entries (topic : string) (old new : TopicInfo)
    (u : string) (ps : list Permission) :
  let d := diffUsers topic old new in
  (AddedPermissions d !! u = Some ps ->
     ps ≠ []
     /\ exists o n, o ∈ Users old /\ Username o = u /\ index (Users new) !! u = Some n
                    /\ ps = missingFrom (Permissions n) (Permissions o)
                    /\ forall p, p ∈ ps <-> p ∈ Permissions n /\ p ∉ Permissions o)
  /\ (DeletedPermissions d !! u = Some ps ->
      ps ≠ []
      /\ exists o n, o ∈ Users old /\ Username o = u /\ index (Users new) !! u = Some n
                     /\ ps = missingFrom (Permissions o) (Permissions n)
                     /\ forall p, p ∈ ps <-> p ∈ Permissions o /\ p ∉ Permissions n).
Proof.
  intros d. subst d. unfold diffUsers.
  destruct (fold_new_frame (index (Users old)) (Users new)
              (fold_left (diffUsers_old (index (Users new))) (Users old) newUserDiff))
    as (_ & _ & -> & ->).
  split.
  - intros [Hd|(o & n & Ho & Hname & Hn & Hps & Hne)]%fold_old_AddedPermissions_Some.
    { cbn in Hd. by rewrite lookup_empty in Hd. }
    split; [done|]. exists o, n. split_and!; try done.
    intros p. rewrite Hps. unfold missingFrom. rewrite list_elem_of_filter. tauto.
  - intros [Hd|(o & n & Ho & Hname & Hn & Hps & Hne)]%fold_old_DeletedPermissions_Some.
    { cbn in Hd. by rewrite lookup_empty in Hd. }
    split; [done|]. exists o, n. split_and!; try done.
    intros p. rewrite Hps. unfold missingFrom. rewrite list_elem_of_filter. tauto.
Qed.

End diffUsers_more.

(** The users of the tests, unchanged. *)
Lemma diffUsers_unchanged_witness :
  admin.cmdUpdate.diffUsers "a" (fixtures.topic [fixtures.alice; fixtures.bob] ∅)
                                (fixtures.topic [fixtures.alice; fixtures.bob] ∅)
  = admin.newUserDiff.
Proof.
  destruct (diffUsers_unchanged "a" (fixtures.topic [fixtures.alice; fixtures.bob] ∅)
              (fixtures.topic [fixtures.alice; fixtures.bob] ∅)) as [H _].
  apply H; [|reflexivity]. apply (bool_decide_unpack _). vm_compute. exact I.
Defined.

(** The "Additional permissions" case of the tests: [bob] gains WRITE. *)
Lemma diffUsers_permission_entries_witness :
  [types.PermissionWrite] ≠ []
  /\ exists o n, o ∈ [fixtures.bob] /\ types.Username o = "bob"
                 /\ n = fixtures.bobRW
                 /\ [types.PermissionWrite]
                    = admin.cmdUpdate.missingFrom (types.Permissions n) (types.Permissions o).
Proof.
  destruct (diffUsers_permission_entries "a" (fixtures.topic [fixtures.bob] ∅)
              (fixtures.topic [fixtures.bobRW] ∅) "bob" [types.PermissionWrite]) as [H _].
  destruct H as (Hne & o & n & Ho & Hname & Hn & Hps & _); [reflexivity|].
  split; [exact Hne|]. exists o, n. split_and!; try done.
  vm_compute in Hn. by injection Hn as <-.
Defined.

(** *** Update: settled configs, unchanged properties, failed alterations *)

Section update_more.
Import types admin admin.cmdUpdate.
Context {order : MapOrder}.

Lemma range_empty {V} : range (∅ : gmap string V) = [].
Proof. apply Permutation_nil_r. rewrite range_perm. by rewrite map_to_list_empty. Qed.

(** The first loop adds nothing for a key whose current value is the new
    one, the second nothing for a key that [new] still has. *)
Lemma ofold_new_settled (current : gmap string (option string)) l acc :
  Forall (fun kv => is_Some kv.2 /\ current !! kv.1 = Some kv.2) l ->
  ofold (diffConfig_new current) l acc = Ok acc.
Proof.
  induction 1 as [|[k nv] l [[n Hn] Hc] _ IH]; [done|]. cbn in Hn, Hc. subst nv.
  cbn [ofold]. unfold diffConfig_new at 1. rewrite Hc. cbn.
  by rewrite decide_False by (by intros ?).
Qed.

Lemma ofold_old_kept (new current : gmap string (option string)) l acc :
  Forall (fun kv => is_Some (new !! kv.1)) l ->
  ofold (diffConfig_old new current) l acc = Ok acc.
Proof.
  induction 1 as [|[k ov] l [n Hn] _ IH]; [done|]. cbn in Hn.
  cbn [ofold]. unfold diffConfig_old at 1. by rewrite Hn.
Qed.

Lemma diffConfig_against_settled (current new old : gmap string (option string)) :
  no_nil new ->
  (forall k v, new !! k = Some v -> current !! k = Some v) ->
  (forall k, is_Some (old !! k) -> is_Some (new !! k)) ->
  diffConfig_against current new old = Ok [].
Proof.
  intros Hnil Hsettled Hkept. unfold diffConfig_against.
  rewrite ofold_new_settled; cycle 1.
  { apply Forall_forall. intros [k v] Hkv%range_elem_of. cbn. split; [by eapply Hnil|auto]. }
  cbn. rewrite ofold_old_kept; [done|].
  apply Forall_forall. intros [k v] Hkv%range_elem_of. cbn. apply Hkept. by exists v.
Qed.

(** X6.  When no value is nil, [diffConfig] finds nothing to do exactly
    when the cluster holds every desired value and every key of the old
    desired config that was dropped has another value on the cluster. *)
Theorem diffConfig_nothing_to_do (current new old : gmap string (option string)) :
  no_nil current -> no_nil new -> no_nil old ->
  diffConfig_against current new old = Ok []
  <-> (forall k v, new !! k = Some v -> current !! k = Some v)
      /\ (forall k v, old !! k = Some v -> new !! k = None ->
            exists cv, current !! k = Some cv /\ cv ≠ v).
Proof.
  intros Hc Hn Ho. rewrite diffConfig_against_Ok by done.
  pose proof (elem_of_ops current new old) as Hops.
  set (ops := (range new ≫= new_ops current) ++ (range old ≫= old_ops new current)) in *.
  split.
  - intros [= Hnil]. rewrite Hnil in Hops. split.
    + intros k v Hk. destruct (current !! k) as [cv|] eqn:Hcur.
      * destruct (decide (cv = v)) as [->|Hne]; [done|].
        exfalso. eapply (elem_of_nil (A:=kadm.AlterConfig)), Hops. right; left.
        split_and!; [done..|]. by exists cv.
      * exfalso. eapply (elem_of_nil (A:=kadm.AlterConfig)), Hops. by left.
    + intros k v Hk Hnone. destruct (current !! k) as [cv|] eqn:Hcur.
      * destruct (decide (cv = v)) as [->|Hne]; [|by exists cv].
        exfalso. eapply (elem_of_nil (A:=kadm.AlterConfig)), Hops. right; right.
        split_and!; [done..|]. by right.
      * exfalso. eapply (elem_of_nil (A:=kadm.AlterConfig)), Hops. right; right.
        split_and!; [done..|]. by left.
  - intros [Hset Hdrop]. f_equal. apply elem_of_nil_inv. intros [op k v] Hin%Hops.
    destruct Hin as [(_ & Hk & Hcur)|[(_ & Hk & cv & Hcur & Hne)|(_ & Hk & Hold & Hcur)]].
    + apply Hset in Hk. congruence.
    + apply Hset in Hk. congruence.
    + destruct (Hdrop k v Hold Hk) as (cv & Hcv & Hne). destruct Hcur; congruence.
Qed.

Lemma Resolve_tagged env info tr tags key :
  Users info ≠ [] ->
  mskClient_DescribeCluster env (tr ++ [DescribeCluster (ClusterArn info)])
  = inr (Some tags) ->
  tags !! TagKmsKey = Some key ->
  kmsKeyResolver.Resolve env info tr
  = (Ok key, tr ++ [DescribeCluster (ClusterArn info)]).
Proof.
  intros Hu Hreply Htag. unfold kmsKeyResolver.Resolve.
  destruct (Users info) as [|u us]; [done|]. cbn [length Nat.ltb Nat.leb].
  cmd_unfold. by rewrite Hreply, Htag.
Qed.

(** [Run] once the checks against the cluster passed and the key is
    known: what is left is the config diff, its application and the user
    diff. *)
Lemma Run_topic_checked env old new stackID tr topics kmsKeyID tr2 :
  let topicName := canonicalTopicName (Name new) (shortStackID stackID) in
  let currentTopic := default kadm.noTopicDetail (topics !! topicName) in
  kafkaClient_ListTopics env (tr ++ [ListTopics topicName]) = inr topics ->
  kadm.Err_ currentTopic = None ->
  Z.of_nat (length (kadm.Numbers (kadm.Partitions currentTopic))) = Partitions new ->
  kadm.NumReplicas (kadm.Partitions currentTopic) = ReplicationFactor new ->
  kmsKeyResolver.Resolve env new (tr ++ [ListTopics topicName]) = (Ok kmsKeyID, tr2) ->
  Run_topic env old new stackID tr
  = (cdiff ← withStack (diffConfig env topicName (Config new) (Config old));
     _ ← (if (0 <? length cdiff)%nat then
            responses ← withStack (call (AlterTopicConfigs cdiff topicName)
                                        (kafkaClient_AlterTopicConfigs env));
            response ← withStack (lift (kadm.On responses topicName));
            match kadm.ResponseErr response with
            | Some err => fail (WithStack err)
            | None => mret tt
            end
          else mret tt);
     mret kmsKeyID) tr2.
Proof.
  intros topicName currentTopic Hlist Herr Hparts Hrepl Hkey.
  unfold Run_topic. fold topicName.
  erewrite bind_Ok by (by apply withStack_Ok, call_inr).
  erewrite bind_Ok; cycle 1.
  { subst currentTopic. destruct (topics !! topicName) as [td|]; [|done].
    cbn in Herr. by rewrite Herr. }
  fold currentTopic.
  erewrite bind_Ok; cycle 1. { by rewrite decide_False by (by intros ?). }
  erewrite bind_Ok; cycle 1. { by rewrite decide_False by (by intros ?). }
  erewrite bind_Ok by (by apply withStack_Ok). done.
Qed.

Lemma Run_users_nothing env udiff kmsKeyID topicName shortStackID clusterArn tr :
  AddedUsers udiff = [] -> DeletedUsers udiff = [] ->
  AddedPermissions udiff = ∅ -> DeletedPermissions udiff = ∅ ->
  Run_users env udiff kmsKeyID topicName shortStackID clusterArn tr = (Ok tt, tr).
Proof.
  intros Hadded Hdeleted Haddp Hdelp. unfold Run_users.
  rewrite Hadded, Hdeleted, Haddp, Hdelp. cbn. by rewrite !range_empty.
Qed.

(** X7.  An update that changes neither the users nor the config does
    not touch the cluster: when the topic is as desired, the users have
    unique names, the cluster holds every desired config value and the
    key resolves, [Run] succeeds having made read-only calls only, in this
    order: [ListTopics], [DescribeCluster] (if there are users) and
    [DescribeTopicConfigs].  The name, the cluster Arn and the deletion
    policy may differ between old and new. *)
Theorem Run_unchanged (env : Env) (old new : TopicInfo) (stackID : string)
    (tr : list Call) (topics : gmap string kadm.TopicDetail)
    (c0 : kadm.ResourceConfig) (rest : list kadm.ResourceConfig) :
  let topicName := canonicalTopicName (Name new) (shortStackID stackID) in
  let currentTopic := default kadm.noTopicDetail (topics !! topicName) in
  let tr1 := tr ++ [ListTopics topicName] in
  let tr2 := tr1 ++ (if Users new is [] then [] else [DescribeCluster (ClusterArn new)]) in
  let tr3 := tr2 ++ [DescribeTopicConfigs topicName] in
  kafkaClient_ListTopics env tr1 = inr topics ->
  kadm.Err_ currentTopic = None ->
  Z.of_nat (length (kadm.Numbers (kadm.Partitions currentTopic))) = Partitions new ->
  kadm.NumReplicas (kadm.Partitions currentTopic) = ReplicationFactor new ->
  (Users new ≠ [] ->
   exists tags, mskClient_DescribeCluster env tr2 = inr (Some tags)
                /\ is_Some (tags !! TagKmsKey)) ->
  kafkaClient_DescribeTopicConfigs env tr3 = inr (c0 :: rest) ->
  no_nil (Config new) ->
  (forall k v, Config new !! k = Some v -> currentConfig c0 !! k = Some v) ->
  (forall k, is_Some (Config old !! k) -> is_Some (Config new !! k)) ->
  NoDup (Username <$> Users old) -> Users new = Users old ->
  Run env old new stackID tr = (Ok tt, tr3).
Proof.
  intros topicName currentTopic tr1 tr2 tr3 Hlist Herr Hparts Hrepl Htags Hconfigs
    Hnil Hsettled Hkept Hnd Hsame.
  assert (Hkey : exists key, kmsKeyResolver.Resolve env new tr1 = (Ok key, tr2)).
  { subst tr2. destruct (Users new) as [|u us] eqn:Hu.
    - exists "". rewrite app_nil_r. by apply Resolve_no_users.
    - destruct Htags as (tags & Hreply & [key Hkey]); [done|].
      exists key. eapply Resolve_tagged; [by rewrite Hu|done..]. }
  destruct Hkey as [key Hkey]. unfold Run.
  erewrite bind_Ok; cycle 1.
  { erewrite Run_topic_checked by done. fold topicName.
    erewrite bind_Ok; cycle 1.
    { apply withStack_Ok. erewrite diffConfig_replied by done.
      by rewrite diffConfig_against_settled. }
    done. }
  destruct (diffUsers_same_users (Name old) old new Hnd Hsame) as [Hadded Hdeleted].
  destruct (diffUsers_same_permissions (Name old) old new Hnd Hsame) as [Haddp Hdelp].
  by apply Run_users_nothing.
Qed.

(** X8.  [diffConfig] reads the first element of the reply of
    [DescribeTopicConfigs] without looking at its length: when the checks
    pass, the key resolves and the reply is an empty list, the update
    panics (index out of range), having altered nothing. *)
Theorem Run_empty_description (env : Env) (old new : TopicInfo) (stackID : string)
    (tr : list Call) (topics : gmap string kadm.TopicDetail)
    (kmsKeyID : string) (tr2 : list Call) :
  let topicName := canonicalTopicName (Name new) (shortStackID stackID) in
  let currentTopic := default kadm.noTopicDetail (topics !! topicName) in
  let tr1 := tr ++ [ListTopics topicName] in
  let tr3 := tr2 ++ [DescribeTopicConfigs topicName] in
  kafkaClient_ListTopics env tr1 = inr topics ->
  kadm.Err_ currentTopic = None ->
  Z.of_nat (length (kadm.Numbers (kadm.Partitions currentTopic))) = Partitions new ->
  kadm.NumReplicas (kadm.Partitions currentTopic) = ReplicationFactor new ->
  kmsKeyResolver.Resolve env new tr1 = (Ok kmsKeyID, tr2) ->
  kafkaClient_DescribeTopicConfigs env tr3 = inr [] ->
  Run env old new stackID tr
  = (Panic "runtime error: index out of range [0] with length 0", tr3).
Proof.
  intros topicName currentTopic tr1 tr3 Hlist Herr Hparts Hrepl Hkey Hconfigs.
  unfold Run. erewrite bind_Panic; [done|].
  erewrite Run_topic_checked by done. fold topicName.
  erewrite bind_Panic; [done|].
  unfold diffConfig. cmd_unfold. fold tr3. by rewrite Hconfigs.
Qed.

(** X9.  A non-empty config diff is applied in one [AlterTopicConfigs]
    call, made before any user is touched.  The update stops there, with
    the error wrapped, when the call fails, when the reply has no
    response for the topic ([UnknownTopicOrPartition]) or when that
    response carries an error; otherwise it goes on with the user diff. *)
Theorem Run_applies_config_diff (env : Env) (old new : TopicInfo) (stackID : string)
    (tr : list Call) (topics : gmap string kadm.TopicDetail)
    (kmsKeyID : string) (tr2 : list Call)
    (c0 : kadm.ResourceConfig) (rest : list kadm.ResourceConfig)
    (cdiff : list kadm.AlterConfig) :
  let short := shortStackID stackID in
  let topicName := canonicalTopicName (Name new) short in
  let currentTopic := default kadm.noTopicDetail (topics !! topicName) in
  let tr1 := tr ++ [ListTopics topicName] in
  let tr3 := tr2 ++ [DescribeTopicConfigs topicName] in
  let tr4 := tr3 ++ [AlterTopicConfigs cdiff topicName] in
  kafkaClient_ListTopics env tr1 = inr topics ->
  kadm.Err_ currentTopic = None ->
  Z.of_nat (length (kadm.Numbers (kadm.Partitions currentTopic))) = Partitions new ->
  kadm.NumReplicas (kadm.Partitions currentTopic) = ReplicationFactor new ->
  kmsKeyResolver.Resolve env new tr1 = (Ok kmsKeyID, tr2) ->
  kafkaClient_DescribeTopicConfigs env tr3 = inr (c0 :: rest) ->
  diffConfig_against (currentConfig c0) (Config new) (Config old) = Ok cdiff ->
  cdiff ≠ [] ->
  match kafkaClient_AlterTopicConfigs env tr4 with
  | inl err => Run env old new stackID tr = (Err (WithStack err), tr4)
  | inr responses =>
      match filter (fun r => kadm.ResponseName r = topicName) responses with
      | [] => Run env old new stackID tr
              = (Err (WithStack kerr_UnknownTopicOrPartition), tr4)
      | response :: _ =>
          match kadm.ResponseErr response with
          | Some err => Run env old new stackID tr = (Err (WithStack err), tr4)
          | None =>
              Run env old new stackID tr
              = Run_users env (diffUsers (Name old) old new) kmsKeyID topicName short
                          (ClusterArn old) tr4
          end
      end
  end.
Proof.
  intros short topicName currentTopic tr1 tr3 tr4 Hlist Herr Hparts Hrepl Hkey Hconfigs
    Hdiff Hne.
  assert (Hstart : forall k : list kadm.AlterConfig -> Cmd string,
            (withStack (diffConfig env topicName (Config new) (Config old)) ≫= k) tr2
            = k cdiff tr3).
  { intros k. apply bind_Ok, withStack_Ok. erewrite diffConfig_replied by done.
    by rewrite Hdiff. }
  assert (Hlen : (0 <? length cdiff)%nat = true).
  { destruct cdiff; [done|]. reflexivity. }
  assert (Hon : forall responses,
            kadm.On responses topicName
            = match filter (fun r => kadm.ResponseName r = topicName) responses with
              | [] => Err kerr_UnknownTopicOrPartition
              | response :: _ => Ok response
              end).
  { induction responses as [|r rs IH]; [done|]. cbn [kadm.On]. rewrite filter_cons.
    by destruct (decide (kadm.ResponseName r = topicName)). }
  unfold Run. fold short topicName.
  destruct (kafkaClient_AlterTopicConfigs env tr4) as [err|responses] eqn:Hreply.
  - erewrite bind_Err; [done|].
    erewrite Run_topic_checked by done. fold topicName. rewrite Hstart, Hlen.
    erewrite bind_Err; [done|].
    erewrite bind_Err; [done|]. by apply withStack_Err, call_inl.
  - specialize (Hon responses).
    destruct (filter _ responses) as [|response others].
    + erewrite bind_Err; [done|].
      erewrite Run_topic_checked by done. fold topicName. rewrite Hstart, Hlen.
      erewrite bind_Err; [done|].
      erewrite bind_Ok by (by apply withStack_Ok, call_inr).
      erewrite bind_Err; [done|]. apply withStack_Err. unfold lift. f_equal. exact Hon.
    + destruct (kadm.ResponseErr response) as [err|] eqn:Hresp.
      * erewrite bind_Err; [done|].
        erewrite Run_topic_checked by done. fold topicName. rewrite Hstart, Hlen.
        erewrite bind_Err; [done|].
        erewrite bind_Ok by (by apply withStack_Ok, call_inr).
        erewrite bind_Ok by (apply withStack_Ok; unfold lift; f_equal; exact Hon).
        by rewrite Hresp.
      * erewrite bind_Ok; [done|].
        erewrite Run_topic_checked by done. fold topicName. rewrite Hstart, Hlen.
        erewrite bind_Ok; [done|].
        erewrite bind_Ok by (by apply withStack_Ok, call_inr).
        erewrite bind_Ok by (apply withStack_Ok; unfold lift; f_equal; exact Hon).
        by rewrite Hresp.
Qed.

End update_more.


(** A cluster that already holds the desired value. *)
Lemma diffConfig_nothing_to_do_witness :
  admin.cmdUpdate.diffConfig_against (H:=canonical_order)
    {[ "retention.ms" := Some "1"; "cleanup.policy" := Some "delete" ]}
    {[ "retention.ms" := Some "1" ]} ∅
  = Ok [].
Proof.
  destruct (diffConfig_nothing_to_do (order:=canonical_order)
              {[ "retention.ms" := Some "1"; "cleanup.policy" := Some "delete" ]}
              {[ "retention.ms" := Some "1" ]} ∅) as [_ H]; [by_evaluation..|].
  apply H. split.
  - intros k v [<- <-]%lookup_singleton_Some. reflexivity.
  - intros k v Hk. by rewrite lookup_empty in Hk.
Defined.

(** Topic [a] of stack [test] with [alice] and [bob], and a change of the
    deletion policy only. *)
Lemma Run_unchanged_witness :
  let info policy :=
    {| types.Name := "a"; types.Partitions := 1; types.ReplicationFactor := 3;
       types.ClusterArn := "arn-1"; types.Config := ∅;
       types.Users := [fixtures.alice; fixtures.bob]; types.DeletionPolicy_ := policy |} in
  admin.cmdUpdate.Run (H:=canonical_order) (fixtures.clusterWith 1)
    (info types.DeletionPolicyRetain) (info types.DeletionPolicyDelete) "test" []
  = (Ok tt, [ ListTopics "a-T6DNBAMI"; DescribeCluster "arn-1";
              DescribeTopicConfigs "a-T6DNBAMI" ]).
Proof.
  intros info.
  rewrite (Run_unchanged (order:=canonical_order) (fixtures.clusterWith 1)
             (info types.DeletionPolicyRetain) (info types.DeletionPolicyDelete) "test" []
             (fixtures.listTopicsOutput "a-T6DNBAMI" 1 3)
             {| kadm.ResourceName := "a-T6DNBAMI"; kadm.Configs := [];
                kadm.ResourceErr := None |} []).
  - by vm_compute.
  - reflexivity.
  - by vm_compute.
  - by vm_compute.
  - by vm_compute.
  - intros _. exists {[ "TR-KMS-KEY" := "key-1" ]}. split; [reflexivity|]. by_evaluation.
  - reflexivity.
  - by_evaluation.
  - intros k v Hk. change ((∅ : gmap string (option string)) !! k = Some v) in Hk.
    by rewrite lookup_empty in Hk.
  - intros k [v Hk]. change ((∅ : gmap string (option string)) !! k = Some v) in Hk.
    by rewrite lookup_empty in Hk.
  - by_evaluation.
  - reflexivity.
Defined.

(** A cluster whose [DescribeTopicConfigs] answers with an empty list. *)
Lemma Run_empty_description_witness :
  admin.cmdUpdate.Run (H:=canonical_order)
    (fixtures.scripted (fixtures.listTopicsOutput "a-T6DNBAMI" 1 3) [] ∅)
    (fixtures.plain 1 "arn-1") (fixtures.plain 1 "arn-1") "test" []
  = (Panic "runtime error: index out of range [0] with length 0",
     [ListTopics "a-T6DNBAMI"; DescribeTopicConfigs "a-T6DNBAMI"]).
Proof.
  rewrite (Run_empty_description (order:=canonical_order)
             (fixtures.scripted (fixtures.listTopicsOutput "a-T6DNBAMI" 1 3) [] ∅)
             (fixtures.plain 1 "arn-1") (fixtures.plain 1 "arn-1") "test" []
             (fixtures.listTopicsOutput "a-T6DNBAMI" 1 3) ""
             [ListTopics "a-T6DNBAMI"]); by vm_compute.
Defined.

(** A new config entry on a cluster that refuses the alteration. *)
Lemma Run_applies_config_diff_witness :
  let refusing : Env :=
    {| kafkaClient_ListTopics := fun _ => inr (fixtures.listTopicsOutput "a-T6DNBAMI" 1 3);
       kafkaClient_DescribeTopicConfigs := fun _ =>
         inr [ {| kadm.ResourceName := "a-T6DNBAMI"; kadm.Configs := [];
                  kadm.ResourceErr := None |} ];
       kafkaClient_AlterTopicConfigs := fun _ => inl (backend_error "not authorized");
       kafkaClient_DeleteTopics := fun _ => inr ∅;
       kafkaClient_CreateTopic := fun _ => None;
       mskClient_DescribeCluster := fun _ => inr (Some ∅);
       userManager_CreateUser := fun _ => Ok tt;
       userManager_DeleteUser := fun _ => Ok tt;
       userManager_CreateACLs := fun _ => Ok tt;
       userManager_DeleteACLs := fun _ => Ok tt;
       kafkaClientProvider_NewKafkaClient := fun _ => None |} in
  let new :=
    {| types.Name := "a"; types.Partitions := 1; types.ReplicationFactor := 3;
       types.ClusterArn := "arn-1"; types.Config := {[ "retention.ms" := Some "1" ]};
       types.Users := []; types.DeletionPolicy_ := types.DeletionPolicyRetain |} in
  let cdiff := [ {| kadm.Op := kadm.AppendConfig; kadm.Name := "retention.ms";
                    kadm.Value := Some "1" |} ] in
  admin.cmdUpdate.Run (H:=canonical_order) refusing (fixtures.plain 1 "arn-1") new "test" []
  = (Err (WithStack (backend_error "not authorized")),
     [ ListTopics "a-T6DNBAMI"; DescribeTopicConfigs "a-T6DNBAMI";
       AlterTopicConfigs cdiff "a-T6DNBAMI" ]).
Proof.
  intros refusing new cdiff.
  pose proof (Run_applies_config_diff (order:=canonical_order) refusing
                (fixtures.plain 1 "arn-1") new "test" []
                (fixtures.listTopicsOutput "a-T6DNBAMI" 1 3) ""
                [ListTopics "a-T6DNBAMI"]
                {| kadm.ResourceName := "a-T6DNBAMI"; kadm.Configs := [];
                   kadm.ResourceErr := None |} [] cdiff) as H.
  cbv zeta in H. rewrite H; by vm_compute.
Defined.

(** *** Create and delete: the steps of a run *)

Section create_more.
Import types admin.

Lemma Resolve_refused env info tr e :
  Users info ≠ [] ->
  mskClient_DescribeCluster env (tr ++ [DescribeCluster (ClusterArn info)]) = inl e ->
  kmsKeyResolver.Resolve env info tr
  = (Err (WithStack e), tr ++ [DescribeCluster (ClusterArn info)]).
Proof.
  intros Hu Hreply. unfold kmsKeyResolver.Resolve.
  destruct (Users info) as [|u us]; [done|]. cbn [length Nat.ltb Nat.leb].
  cmd_unfold. by rewrite Hreply.
Qed.

Lemma Resolve_untagged env info tr tags :
  Users info ≠ [] ->
  mskClient_DescribeCluster env (tr ++ [DescribeCluster (ClusterArn info)])
  = inr (Some tags) ->
  tags !! TagKmsKey = None ->
  kmsKeyResolver.Resolve env info tr
  = (Err (WithStack (errors_New missingTagMessage)),
     tr ++ [DescribeCluster (ClusterArn info)]).
Proof.
  intros Hu Hreply Htag. unfold kmsKeyResolver.Resolve.
  destruct (Users info) as [|u us]; [done|]. cbn [length Nat.ltb Nat.leb].
  cmd_unfold. by rewrite Hreply, Htag.
Qed.

Lemma Resolve_no_info env info tr :
  Users info ≠ [] ->
  mskClient_DescribeCluster env (tr ++ [DescribeCluster (ClusterArn info)]) = inr None ->
  kmsKeyResolver.Resolve env info tr
  = (Panic "runtime error: invalid memory address or nil pointer dereference",
     tr ++ [DescribeCluster (ClusterArn info)]).
Proof.
  intros Hu Hreply. unfold kmsKeyResolver.Resolve.
  destruct (Users info) as [|u us]; [done|]. cbn [length Nat.ltb Nat.leb].
  cmd_unfold. by rewrite Hreply.
Qed.


(** X11.  Without a key nothing is created or deleted.  When the desired
    state has users and [DescribeCluster] fails, or its reply has no
    [TR-KMS-KEY] tag, the create command and the delete command both stop
    with an error after that one call: no topic is created, no user is
    created or deleted, no topic is deleted.  A reply without
    [ClusterInfo] makes both panic after that one call. *)
Theorem commands_need_key (env : Env) (info : TopicInfo) (stackID : string)
    (tr : list Call) :
  Users info ≠ [] ->
  let tr1 := tr ++ [DescribeCluster (ClusterArn info)] in
  match mskClient_DescribeCluster env tr1 with
  | inl e =>
      cmdCreate.Run env info stackID tr = (Err (WithStack (WithStack e)), tr1)
      /\ cmdDelete.Run env info stackID tr = (Err (WithStack (WithStack e)), tr1)
  | inr (Some tags) =>
      tags !! TagKmsKey = None ->
      exists err,
        Error err = missingTagMessage
        /\ cmdCreate.Run env info stackID tr = (Err err, tr1)
        /\ cmdDelete.Run env info stackID tr = (Err err, tr1)
  | inr None =>
      cmdCreate.Run env info stackID tr
      = (Panic "runtime error: invalid memory address or nil pointer dereference", tr1)
      /\ cmdDelete.Run env info stackID tr
         = (Panic "runtime error: invalid memory address or nil pointer dereference", tr1)
  end.
Proof.
  intros Hu tr1.
  destruct (mskClient_DescribeCluster env tr1) as [e|[tags|]] eqn:Hreply.
  - unfold cmdCreate.Run, cmdDelete.Run.
    split; (erewrite bind_Err; [done|]); by apply withStack_Err, Resolve_refused.
  - intros Htag. exists (WithStack (WithStack (errors_New missingTagMessage))).
    split; [reflexivity|]. unfold cmdCreate.Run, cmdDelete.Run.
    split; (erewrite bind_Err; [done|]); eapply withStack_Err, Resolve_untagged; done.
  - unfold cmdCreate.Run, cmdDelete.Run.
    split; (erewrite bind_Panic; [done|]); unfold withStack;
      by rewrite (Resolve_no_info env info tr Hu Hreply).
Qed.

End create_more.


(** A user on a cluster without the tag. *)
Lemma commands_need_key_witness :
  let info := fixtures.topic [fixtures.alice] ∅ in
  exists err,
    Error err = missingTagMessage
    /\ admin.cmdCreate.Run (fixtures.scripted ∅ [] ∅) info "test" []
       = (Err err, [DescribeCluster ""])
    /\ admin.cmdDelete.Run (fixtures.scripted ∅ [] ∅) info "test" []
       = (Err err, [DescribeCluster ""]).
Proof.
  intros info.
  pose proof (commands_need_key (fixtures.scripted ∅ [] ∅) info "test" []) as H.
  apply H; [discriminate|reflexivity].
Defined.

(** *** Handler: what every response carries *)

Section handler_more.
Import types admin.

(** A delete run panics only in the resolver, on a reply without
    [ClusterInfo], or in [DeleteUser]. *)
Lemma cmdDelete_Run_Panic env info stackID tr r tr' :
  cmdDelete.Run env info stackID tr = (Panic r, tr') ->
  mskClient_DescribeCluster env tr' = inr None \/ userManager_DeleteUser env tr' = Panic r.
Proof.
  unfold cmdDelete.Run. intros Hrun.
  destruct (withStack (kmsKeyResolver.Resolve env info) tr) as [[kms|e|r'] tr1] eqn:Hkey.
  - rewrite (bind_Ok _ _ _ _ _ Hkey) in Hrun. right.
    set (short := shortStackID stackID) in Hrun.
    set (resourceID := canonicalTopicName (Name info) short) in Hrun.
    destruct (forEach_calls
                (fun u => DeleteUser u kms resourceID short (ClusterArn info))
                (userManager_DeleteUser env) (Users info) tr1)
      as [Hok|(n & _ & [(e & _ & Hstop)|(r' & Hpanic & Hstop)])].
    + rewrite (bind_Ok _ _ _ _ _ Hok) in Hrun. exfalso.
      match type of Hrun with
      | ?m ?t = _ => assert (Hcalm : no_panic m)
      end.
      { case_decide; [auto with cmd|].
        apply no_panic_bind; [auto with cmd|]. intros responses.
        repeat case_match; auto with cmd. }
      eapply Hcalm. by rewrite Hrun.
    + by rewrite (bind_Err _ _ _ _ _ Hstop) in Hrun.
    + rewrite (bind_Panic _ _ _ _ _ Hstop) in Hrun. by injection Hrun as <- <-.
  - by rewrite (bind_Err _ _ _ _ _ Hkey) in Hrun.
  - rewrite (bind_Panic _ _ _ _ _ Hkey) in Hrun. injection Hrun as <- <-. left.
    unfold withStack in Hkey.
    destruct (kmsKeyResolver.Resolve env info tr) as [[kms|e|r0] tr0] eqn:Hresolve;
      try done.
    injection Hkey as <- <-. by apply Resolve_Panic in Hresolve as [_ ?].
Qed.

Lemma Resolve_appends env info : emits (fun _ => True) (kmsKeyResolver.Resolve env info).
Proof. eapply emits_weaken; [|apply Resolve_emits]. done. Qed.

Lemma cmdCreate_Run_appends env info stackID :
  emits (fun _ => True) (cmdCreate.Run env info stackID).
Proof.
  unfold cmdCreate.Run.
  apply emits_bind; [apply emits_withStack, Resolve_appends|]. intros kms.
  apply emits_bind; [auto with cmd|]. intros r.
  apply emits_bind; [repeat case_match; auto with cmd|]. intros _.
  apply emits_bind; [|auto with cmd].
  apply emits_forEach. auto with cmd.
Qed.

Lemma cmdDelete_Run_appends env info stackID :
  emits (fun _ => True) (cmdDelete.Run env info stackID).
Proof.
  unfold cmdDelete.Run.
  apply emits_bind; [apply emits_withStack, Resolve_appends|]. intros kms.
  apply emits_bind; [apply emits_forEach; auto with cmd|]. intros _.
  case_decide; [auto with cmd|].
  apply emits_bind; [auto with cmd|]. intros responses.
  repeat case_match; auto with cmd.
Qed.

Lemma cmdUpdate_Run_appends `{MapOrder} env old new stackID :
  emits (fun _ => True) (cmdUpdate.Run env old new stackID).
Proof.
  unfold cmdUpdate.Run.
  apply emits_bind. { eapply emits_weaken; [|apply Run_topic_emits]. done. }
  intros kms. unfold cmdUpdate.Run_users.
  apply emits_bind; [apply emits_forEach; auto with cmd|]. intros _.
  apply emits_bind; [case_match; auto with cmd|]. intros _.
  apply emits_bind; [apply emits_forEach; auto with cmd|]. intros _.
  apply emits_bind; [apply emits_forEach; auto with cmd|]. intros _.
  apply emits_forEach; auto with cmd.
Qed.

(** X12.  Update and delete echo the physical resource identifier of the
    event and return no output properties: an invocation ends with such
    a response or with a panic, never with a bare error.  A delete
    panics only on a reply of [DescribeCluster] without [ClusterInfo] or
    in [DeleteUser] of the user manager, and it produces a response when
    the replies are complete. *)
Theorem update_delete_echo (env : Env) (w : userManager.Backends) (event : Event)
    (tr : list Call) :
  let echoes (run : outcome Response * list Call) :=
    (exists response tr',
       run = (Ok response, tr')
       /\ ResponseID response = EventPhysicalResourceID event
       /\ Data response = None)
    \/ exists r tr', run = (Panic r, tr') in
  echoes (Handler.delete env w event tr)
  /\ (forall order : MapOrder, echoes (Handler.update env w event tr))
  /\ (forall r tr',
        Handler.delete env w event tr = (Panic r, tr') ->
        mskClient_DescribeCluster env tr' = inr None
        \/ Handler.newUserManager w tr' = Panic r)
  /\ (complete w ->
      (forall h, mskClient_DescribeCluster env h ≠ inr None) ->
      exists response tr', Handler.delete env w event tr = (Ok response, tr')).
Proof.
  intros echoes.
  assert (Hpanic : forall r tr',
            Handler.delete env w event tr = (Panic r, tr') ->
            mskClient_DescribeCluster env tr' = inr None
            \/ Handler.newUserManager w tr' = Panic r).
  { unfold Handler.delete. intros r tr'.
    destruct (NewTopicInfo (ResourceProperties event)) as [ti|err|r0] eqn:Hti.
    - cmd_unfold. destruct (kafkaClientProvider_NewKafkaClient env _) as [err|]; [done|].
      destruct (cmdDelete.Run (Handler.collaborators env w) ti (StackID event) _)
        as [[[]|err|r0] tr1] eqn:Hrun; [done..|].
      intros [= <- <-]. by apply cmdDelete_Run_Panic in Hrun.
    - done.
    - by destruct (calm_NewTopicInfo (ResourceProperties event) r0). }
  assert (Hdelete : echoes (Handler.delete env w event tr)).
  { unfold echoes, Handler.delete.
    destruct (NewTopicInfo (ResourceProperties event)) as [ti|err|r] eqn:Hti.
    - cmd_unfold. destruct (kafkaClientProvider_NewKafkaClient env _) as [err|].
      { left. by eexists _, _. }
      destruct (cmdDelete.Run (Handler.collaborators env w) ti (StackID event) _)
        as [[[]|err|r] tr1].
      + left. by eexists _, _.
      + left. by eexists _, _.
      + right. by eexists _, _.
    - left. by eexists _, _.
    - by destruct (calm_NewTopicInfo (ResourceProperties event) r). }
  split_and!; [exact Hdelete| |exact Hpanic|].
  - intros order. unfold echoes, Handler.update.
    destruct (NewTopicInfo (OldResourceProperties event)) as [old|err|r] eqn:Hold.
    + destruct (NewTopicInfo (ResourceProperties event)) as [new|err|r] eqn:Hnew.
      * cmd_unfold. destruct (kafkaClientProvider_NewKafkaClient env _) as [err|].
        { left. by eexists _, _. }
        destruct (cmdUpdate.Run (Handler.collaborators env w) old new (StackID event) _)
          as [[[]|err|r] tr1].
        -- left. by eexists _, _.
        -- left. by eexists _, _.
        -- right. by eexists _, _.
      * left. by eexists _, _.
      * by destruct (calm_NewTopicInfo (ResourceProperties event) r).
    + left. by eexists _, _.
    + by destruct (calm_NewTopicInfo (OldResourceProperties event) r).
  - intros Hw Hinfo.
    destruct Hdelete as [(response & tr' & Hrun & _)|(r & tr' & Hrun)]; [by eauto|].
    destruct (Hpanic _ _ Hrun) as [Hnil|Hum].
    + by apply Hinfo in Hnil.
    + by apply newUserManager_no_panic in Hum.
Qed.

(** X13.  Invalid resource properties are rejected before anything is
    called: whatever the request type, the handler makes no call and
    returns an error and no output properties.  For a create the error is
    the validation error and the identifier the generated one; for a
    delete the validation error with the identifier of the event; for an
    update a wrapped error with the identifier of the event. *)
Theorem Handle_rejects_invalid_properties (order : MapOrder) (env : Env)
    (w : userManager.Backends) (uuid : string) (event : Event) (tr : list Call)
    (err : error) :
  NewTopicInfo (ResourceProperties event) = Err err ->
  exists response,
    Handler.Handle env w uuid event tr = (Ok response, tr)
    /\ is_Some (Error_ response)
    /\ Data response = None
    /\ (RequestType event = RequestCreate ->
        ResponseID response = uuid /\ Error_ response = Some err)
    /\ (RequestType event = RequestDelete ->
        ResponseID response = EventPhysicalResourceID event /\ Error_ response = Some err)
    /\ (RequestType event = RequestUpdate ->
        ResponseID response = EventPhysicalResourceID event
        /\ exists inner, Error_ response = Some (WithStack inner)).
Proof.
  intros Hinvalid. unfold Handler.Handle.
  destruct (decide (RequestType event = RequestCreate)) as [Hc|Hc].
  { unfold Handler.create. rewrite Hinvalid. eexists. split; [reflexivity|].
    cbn. split_and!; [by eexists|done|done| |]; intros Hreq; by rewrite Hreq in Hc. }
  destruct (decide (RequestType event = RequestUpdate)) as [Hu|Hu].
  { unfold Handler.update.
    destruct (NewTopicInfo (OldResourceProperties event)) as [old|err'|r] eqn:Hold.
    - rewrite Hinvalid. eexists. split; [reflexivity|].
      cbn. split_and!; [by eexists|done|done| |by eauto]. intros Hreq. by rewrite Hreq in Hu.
    - eexists. split; [reflexivity|].
      cbn. split_and!; [by eexists|done|done| |by eauto]. intros Hreq. by rewrite Hreq in Hu.
    - by destruct (calm_NewTopicInfo (OldResourceProperties event) r). }
  destruct (decide (RequestType event = RequestDelete)) as [Hd|Hd].
  { unfold Handler.delete. rewrite Hinvalid. eexists. split; [reflexivity|].
    cbn. split_and!; [by eexists|done|done|done|]. intros Hreq. by rewrite Hreq in Hd. }
  eexists. split; [reflexivity|]. cbn. split_and!; [by eexists|done|done..].
Qed.

(** X14.  The first call of every invocation that calls anything is
    [NewKafkaClient]: on the cluster of the properties for a create or a
    delete, on the cluster of the old properties for an update.  When it
    is refused the handler calls nothing else and returns its error, as
    it is, with no output properties. *)
Theorem Handle_connects_first (order : MapOrder) (env : Env)
    (w : userManager.Backends) (uuid : string) (event : Event) (tr : list Call) :
  let run := Handler.Handle env w uuid event tr in
  run.2 = tr
  \/ exists ti rest,
       NewTopicInfo (if decide (RequestType event = RequestUpdate)
                     then OldResourceProperties event
                     else ResourceProperties event) = Ok ti
       /\ run.2 = tr ++ NewKafkaClient (ClusterArn ti) :: rest
       /\ forall e,
            kafkaClientProvider_NewKafkaClient env (tr ++ [NewKafkaClient (ClusterArn ti)])
            = Some e ->
            rest = []
            /\ exists response,
                 run.1 = Ok response /\ Error_ response = Some e /\ Data response = None.
Proof.
  intros run. subst run. unfold Handler.Handle.
  destruct (decide (RequestType event = RequestCreate)) as [Hc|Hc].
  { rewrite decide_False by (rewrite Hc; discriminate).
    unfold Handler.create.
    destruct (NewTopicInfo (ResourceProperties event)) as [ti|err|r] eqn:Hti;
      [|by left|by left].
    right. exists ti. cmd_unfold.
    destruct (cmdCreate_Run_appends (Handler.collaborators env w) ti (StackID event)
                (tr ++ [NewKafkaClient (ClusterArn ti)])) as (calls & Hcalls & _).
    destruct (kafkaClientProvider_NewKafkaClient env _) as [e|] eqn:Hreply.
    - exists []. split_and!; [done..|]. intros e' [= <-]. split; [done|]. by eexists.
    - exists calls. split_and!; [done| |done].
      destruct (cmdCreate.Run (Handler.collaborators env w) ti (StackID event) _)
        as [[a|e|r] tr1];
        cbn in Hcalls |- *; subst tr1; by rewrite <- app_assoc. }
  destruct (decide (RequestType event = RequestUpdate)) as [Hu|Hu].
  { unfold Handler.update.
    destruct (NewTopicInfo (OldResourceProperties event)) as [old|err|r] eqn:Hold;
      [|by left|by left].
    destruct (NewTopicInfo (ResourceProperties event)) as [new|err|r] eqn:Hnew;
      [|by left|by left].
    right. exists old. cmd_unfold.
    destruct (cmdUpdate_Run_appends (Handler.collaborators env w) old new (StackID event)
                (tr ++ [NewKafkaClient (ClusterArn old)])) as (calls & Hcalls & _).
    destruct (kafkaClientProvider_NewKafkaClient env _) as [e|] eqn:Hreply.
    - exists []. split_and!; [done..|]. intros e' [= <-]. split; [done|]. by eexists.
    - exists calls. split_and!; [done| |done].
      destruct (cmdUpdate.Run (Handler.collaborators env w) old new (StackID event) _)
        as [[a|e|r] tr1];
        cbn in Hcalls |- *; subst tr1; by rewrite <- app_assoc. }
  destruct (decide (RequestType event = RequestDelete)) as [Hd|Hd]; [|by left].
  unfold Handler.delete.
  destruct (NewTopicInfo (ResourceProperties event)) as [ti|err|r] eqn:Hti;
    [|by left|by left].
  right. exists ti. cmd_unfold.
  destruct (cmdDelete_Run_appends (Handler.collaborators env w) ti (StackID event)
              (tr ++ [NewKafkaClient (ClusterArn ti)])) as (calls & Hcalls & _).
  destruct (kafkaClientProvider_NewKafkaClient env _) as [e|] eqn:Hreply.
  - exists []. split_and!; [done..|]. intros e' [= <-]. split; [done|]. by eexists.
  - exists calls. split_and!; [done| |done].
    destruct (cmdDelete.Run (Handler.collaborators env w) ti (StackID event) _)
      as [[a|e|r] tr1];
      cbn in Hcalls |- *; subst tr1; by rewrite <- app_assoc.
Qed.

End handler_more.

(** The deletion of a topic with one reader: with complete replies, and
    when Secrets Manager describes the secret without its ARN. *)
Lemma update_delete_echo_witness :
  let event :=
    {| admin.RequestType := admin.RequestDelete; admin.StackID := "test";
       admin.EventPhysicalResourceID := "topic-a-T6DNBAMI";
       admin.ResourceProperties := fixtures.reader;
       admin.OldResourceProperties := json.Null |} in
  let alice :=
    {| types.Username := "alice"; types.Arn := "";
       types.Permissions := [types.PermissionRead] |} in
  (exists response tr',
     Handler.delete (fixtures.clusterWith 1) scenarios.willing event []
     = (Ok response, tr')
     /\ admin.ResponseID response = "topic-a-T6DNBAMI")
  /\ Handler.delete (fixtures.clusterWith 1) scenarios.nameless event []
     = (Panic "runtime error: invalid memory address or nil pointer dereference",
        [ NewKafkaClient "arn"; DescribeCluster "arn";
          DeleteUser alice "key-1" "topic-a-T6DNBAMI" "T6DNBAMI" "arn" ]).
Proof.
  intros event alice. split; [|by vm_compute].
  destruct (update_delete_echo (fixtures.clusterWith 1) scenarios.willing event [])
    as (Hecho & _ & _ & Hprogress).
  destruct (Hprogress complete_willing) as (response & tr' & Hrun); [done|].
  exists response, tr'. split; [exact Hrun|].
  destruct Hecho as [(response' & tr'' & Hrun' & Hid & _)|(r & tr'' & Hrun')];
    rewrite Hrun in Hrun'; [|done].
  by injection Hrun' as <- _.
Defined.

(** An update whose new properties lack every required one. *)
Lemma Handle_rejects_invalid_properties_witness :
  exists response,
    Handler.Handle (H:=canonical_order) fixtures.cluster scenarios.willing "generated"
      {| admin.RequestType := admin.RequestUpdate; admin.StackID := "test";
         admin.EventPhysicalResourceID := "topic-a-T6DNBAMI";
         admin.ResourceProperties := json.Object [];
         admin.OldResourceProperties := fixtures.properties [] |} []
    = (Ok response, [])
    /\ is_Some (admin.Error_ response)
    /\ admin.ResponseID response = "topic-a-T6DNBAMI".
Proof.
  destruct (Handle_rejects_invalid_properties canonical_order fixtures.cluster
              scenarios.willing "generated"
              {| admin.RequestType := admin.RequestUpdate; admin.StackID := "test";
                 admin.EventPhysicalResourceID := "topic-a-T6DNBAMI";
                 admin.ResourceProperties := json.Object [];
                 admin.OldResourceProperties := fixtures.properties [] |} []
              (errors_New ("(root): ServiceToken is required (root): Name is required "
                           +:+ "(root): Partitions is required "
                           +:+ "(root): ReplicationFactor is required "
                           +:+ "(root): ClusterArn is required")))
    as (response & Hrun & Herr & _ & _ & _ & Hupdate).
  - by vm_compute.
  - exists response. split_and!; [exact Hrun|exact Herr|]. by apply Hupdate.
Defined.

(** *** Desired-state model: what an accepted document gives *)

Ltac in_list := solve [repeat (apply elem_of_cons; first [left; reflexivity | right])].

Section NewTopicInfo_more.
Import types gojsonschema.

(** A field of the struct after [Unmarshal], from the property of its
    key: keys are unique, so the one entry of the key decides. *)
Lemma ofold_field {T A} (F : T -> A) (key : string)
    (decode : json.Value -> A -> outcome A)
    (step : T -> string * json.Value -> outcome T) :
  (forall ti k x ti', step ti (k, x) = Ok ti' -> k ≠ key -> F ti' = F ti) ->
  (forall ti x ti', step ti (key, x) = Ok ti' -> decode x (F ti) = Ok (F ti')) ->
  forall fields ti0 ti,
    ofold step fields ti0 = Ok ti -> NoDup fields.*1 ->
    match json.get key fields with
    | Some x => decode x (F ti0) = Ok (F ti)
    | None => F ti = F ti0
    end.
Proof.
  intros Hframe Hset.
  assert (Hkeep : forall fields ti0 ti,
            ofold step fields ti0 = Ok ti -> key ∉ fields.*1 -> F ti = F ti0).
  { induction fields as [|[k x] fields IH]; intros ti0 ti; cbn.
    - by intros [= ->].
    - destruct (step ti0 (k, x)) as [ti1| |] eqn:Hstep; cbn; [|done..].
      intros Hrest Hnotin. apply not_elem_of_cons in Hnotin as [Hk Hnotin].
      rewrite (IH _ _ Hrest Hnotin). eapply Hframe; [done|]. congruence. }
  induction fields as [|[k x] fields IH]; intros ti0 ti; cbn [ofold json.get fmap list_fmap].
  - by intros [= ->].
  - destruct (step ti0 (k, x)) as [ti1| |] eqn:Hstep; cbn [obind]; [|done..].
    intros Hrest [Hnotin Hnd]%NoDup_cons.
    destruct (decide (k = key)) as [->|Hk].
    + rewrite (Hkeep _ _ _ Hrest Hnotin). by apply Hset.
    + specialize (IH _ _ Hrest Hnd). rewrite (Hframe _ _ _ _ Hstep Hk) in IH. exact IH.
Qed.

(** What a valid object satisfies: required properties are present, no
    property is unknown when additional ones are not allowed, and every
    property with a schema satisfies it. *)
Lemma valid_object ty required properties additional pattern enum items ctx fields :
  validateRecursive (SubSchema ty required properties additional pattern enum items)
                    ctx (json.Object fields) = [] ->
  (forall r, r ∈ required -> is_Some (json.get r fields))
  /\ (additional = false ->
      forall k v, (k, v) ∈ fields -> k ∈ map fst properties)
  /\ (forall name sub child,
        (name, sub) ∈ properties -> json.get name fields = Some child ->
        validateRecursive sub (ctx ++ [name]) child = []).
Proof.
  cbn [validateRecursive]. case_match; [done|].
  intros (_ & (Hreq & (Hadd & Hchildren)%app_eq_nil)%app_eq_nil)%app_eq_nil.
  split_and!.
  - intros r Hr. unfold check_required in Hreq.
    destruct (json.get r fields) eqn:Hget; [by eexists|].
    assert (Hin : mk ctx (r +:+ " is required")
                  ∈ flat_map (fun p => match json.get p fields with
                                       | Some _ => []
                                       | None => [mk ctx (p +:+ " is required")]
                                       end) required).
    { apply list_elem_of_In, in_flat_map. exists r. split; [by apply list_elem_of_In|].
      rewrite Hget. by left. }
    rewrite Hreq in Hin. by apply elem_of_nil in Hin.
  - intros -> k v Hkv. unfold check_additional in Hadd.
    destruct (decide (k ∈ map fst properties)) as [|Hk]; [done|].
    assert (Hin : mk ctx ("Additional property " +:+ k +:+ " is not allowed")
                  ∈ flat_map (fun kv => if bool_decide (fst kv ∈ map fst properties) then []
                                        else [mk ctx ("Additional property " +:+ fst kv
                                                      +:+ " is not allowed")]) fields).
    { apply list_elem_of_In, in_flat_map. exists (k, v). split; [by apply list_elem_of_In|].
      cbn. rewrite bool_decide_eq_false_2 by done. by left. }
    rewrite Hadd in Hin. by apply elem_of_nil in Hin.
  - clear Hreq Hadd. induction properties as [|[name' sub'] properties IH];
      intros name sub child Hin Hget; [by apply elem_of_nil in Hin|].
    apply app_eq_nil in Hchildren as [Hfirst Hrest].
    apply elem_of_cons in Hin as [[= -> ->]|Hin].
    + by rewrite Hget in Hfirst.
    + by eapply IH.
Qed.

Lemma valid_string pattern enum ctx v :
  validateRecursive (SubSchema (Some TypeString) [] [] true pattern enum None) ctx v = [] ->
  exists s, v = json.Str s
            /\ (forall re, pattern = Some re -> MatchString re s = true)
            /\ (enum ≠ [] -> s ∈ enum).
Proof.
  destruct v; try done. cbn. intros [Henum Hpat]%app_eq_nil. eexists. split; [done|]. split.
  - intros re ->. cbn in Hpat. by destruct (MatchString re s).
  - intros Hne. destruct enum as [|e enum]; [done|]. cbn in Henum.
    case_bool_decide; [done|discriminate].
Qed.

Lemma digits_bounds s acc n : 0 <= acc -> json.digits acc s = Some n -> acc <= n.
Proof.
  revert acc. induction s as [|c s IH]; intros acc Hacc; cbn.
  - intros [= ->]. lia.
  - destruct (json.is_digit c) eqn:Hc; [|done]. intros Hn%IH.
    + unfold json.is_digit in Hc. apply andb_prop in Hc as [H1%N.leb_le H2]. lia.
    + unfold json.is_digit in Hc. apply andb_prop in Hc as [H1%N.leb_le H2]. lia.
Qed.

Lemma ParseInt_digits s n : all_digits s = true -> json.ParseInt s = Some n -> 0 <= n.
Proof.
  intros Hs. assert (Hplain : json.ParseInt s
                              = n ← (if s is EmptyString then None else json.digits 0 s);
                                if ((- 2 ^ 63 <=? n) && (n <? 2 ^ 63))%Z then Some n else None).
  { destruct s as [|c s]; [done|]. cbn in Hs. apply andb_prop in Hs as [Hc _].
    unfold json.ParseInt.
    destruct c as [[] [] [] [] [] [] [] []]; try discriminate Hc; destruct s; reflexivity. }
  rewrite Hplain. destruct s as [|c s]; [done|].
  destruct (json.digits 0 (String c s)) as [m|] eqn:Hm; [|done]. cbn.
  case_match; [|done]. intros [= <-]. by eapply (digits_bounds _ 0).
Qed.

(** X15.  What an accepted document gives.  When [NewTopicInfo] accepts
    a property map (with each key once, as a Go map has them), the map is
    an object with known properties only; [Name] and [ClusterArn] are the
    strings under those keys; [Partitions] and [ReplicationFactor] are the
    decimal values of the digit strings under theirs, hence not negative
    and below 2^63; the deletion policy is the one given, which is DELETE
    or RETAIN, and RETAIN when the property is absent. *)
Theorem NewTopicInfo_accepted (props : json.Value) (ti : TopicInfo) :
  NewTopicInfo props = Ok ti ->
  exists fields,
    props = json.Object fields
    /\ (NoDup fields.*1 ->
        (forall k v, (k, v) ∈ fields ->
           k ∈ ["ServiceToken"; "Name"; "Partitions"; "ReplicationFactor"; "ClusterArn";
                "Config"; "Users"; "DeletionPolicy"])
        /\ json.get "Name" fields = Some (json.Str (Name ti))
        /\ json.get "ClusterArn" fields = Some (json.Str (ClusterArn ti))
        /\ (exists s, json.get "Partitions" fields = Some (json.Str s)
                      /\ all_digits s = true /\ json.ParseInt s = Some (Partitions ti))
        /\ (exists s, json.get "ReplicationFactor" fields = Some (json.Str s)
                      /\ all_digits s = true
                      /\ json.ParseInt s = Some (ReplicationFactor ti))
        /\ 0 <= Partitions ti < 2 ^ 63
        /\ 0 <= ReplicationFactor ti < 2 ^ 63
        /\ match json.get "DeletionPolicy" fields with
           | Some v =>
               v = json.Str (DeletionPolicy_ ti)
               /\ (DeletionPolicy_ ti = DeletionPolicyDelete
                   \/ DeletionPolicy_ ti = DeletionPolicyRetain)
           | None => DeletionPolicy_ ti = DeletionPolicyRetain
           end).
Proof.
  unfold NewTopicInfo. destruct (Valid _) eqn:Hvalid; [|done].
  unfold Valid in Hvalid.
  destruct (Validate topicInfoSchema props) as [|] eqn:Hresult; [clear Hvalid|done].
  destruct props as [| | | | |fields]; try done.
  intros Hdecoded. exists fields. split; [done|]. intros Hnd.
  apply valid_object in Hresult as (Hreq & Hknown & Hchildren).
  specialize (Hknown eq_refl).
  assert (Hstring : forall name pattern enum,
            (name, SubSchema (Some TypeString) [] [] true pattern enum None)
              ∈ [ ("ServiceToken", stringSchema);
                  ("Name", stringSchema);
                  ("Partitions", SubSchema (Some TypeString) [] [] true (Some numeric) [] None);
                  ("ReplicationFactor",
                    SubSchema (Some TypeString) [] [] true (Some numeric) [] None);
                  ("ClusterArn", stringSchema);
                  ("Config", SubSchema (Some TypeObject) [] [] true None [] None);
                  ("Users", SubSchema (Some TypeArray) [] [] true None [] (Some userSchema));
                  ("DeletionPolicy",
                    SubSchema (Some TypeString) [] [] true None ["DELETE"; "RETAIN"] None) ] ->
            forall child, json.get name fields = Some child ->
            exists s, child = json.Str s
                      /\ (forall re, pattern = Some re -> MatchString re s = true)
                      /\ (enum ≠ [] -> s ∈ enum)).
  { intros name pattern enum Hin child Hget. eapply valid_string, Hchildren; done. }
  cbn [Unmarshal] in Hdecoded.
  set (step := fun (ti : TopicInfo) (kv : string * json.Value) => _) in Hdecoded.
  assert (Hframe : forall t k x t', step t (k, x) = Ok t' ->
            (k ≠ "Name" -> Name t' = Name t)
            /\ (k ≠ "Partitions" -> Partitions t' = Partitions t)
            /\ (k ≠ "ReplicationFactor" -> ReplicationFactor t' = ReplicationFactor t)
            /\ (k ≠ "ClusterArn" -> ClusterArn t' = ClusterArn t)
            /\ (k ≠ "DeletionPolicy" -> DeletionPolicy_ t' = DeletionPolicy_ t)).
  { intros t k x t'. subst step. cbn beta iota.
    repeat case_decide; subst;
      (match goal with
       | |- context [decodeString ?f x ?c] => destruct (decodeString f x c)
       | |- context [decodeQuotedInt ?f x ?c] => destruct (decodeQuotedInt f x c)
       | |- context [decodeConfig x ?c] => destruct (decodeConfig x c)
       | |- context [decodeUsers x ?c] => destruct (decodeUsers x c)
       | |- _ => idtac
       end); cbn; try done; intros [= <-]; by split_and!. }
  assert (Hset : forall t x t',
            (step t ("Name", x) = Ok t' ->
               decodeString "TopicInfo.Name" x (Name t) = Ok (Name t'))
            /\ (step t ("Partitions", x) = Ok t' ->
                decodeQuotedInt "TopicInfo.Partitions" x (Partitions t) = Ok (Partitions t'))
            /\ (step t ("ReplicationFactor", x) = Ok t' ->
                decodeQuotedInt "TopicInfo.ReplicationFactor" x (ReplicationFactor t)
                = Ok (ReplicationFactor t'))
            /\ (step t ("ClusterArn", x) = Ok t' ->
                decodeString "TopicInfo.ClusterArn" x (ClusterArn t) = Ok (ClusterArn t'))
            /\ (step t ("DeletionPolicy", x) = Ok t' ->
                decodeString "TopicInfo.DeletionPolicy" x (DeletionPolicy_ t)
                = Ok (DeletionPolicy_ t'))).
  { intros t x t'. subst step. cbn beta iota.
    split_and!; repeat case_decide; try done;
      (match goal with
       | |- context [decodeString ?f x ?c] => destruct (decodeString f x c)
       | |- context [decodeQuotedInt ?f x ?c] => destruct (decodeQuotedInt f x c)
       end); cbn; try done; by intros [= <-]. }
  pose proof (ofold_field Name "Name" (decodeString "TopicInfo.Name") step
                (fun t k x t' H => proj1 (Hframe t k x t' H))
                (fun t x t' => proj1 (Hset t x t')) _ _ _ Hdecoded Hnd) as HName.
  pose proof (ofold_field Partitions "Partitions" (decodeQuotedInt "TopicInfo.Partitions") step
                (fun t k x t' H => proj1 (proj2 (Hframe t k x t' H)))
                (fun t x t' => proj1 (proj2 (Hset t x t'))) _ _ _ Hdecoded Hnd) as HPartitions.
  pose proof (ofold_field ReplicationFactor "ReplicationFactor"
                (decodeQuotedInt "TopicInfo.ReplicationFactor") step
                (fun t k x t' H => proj1 (proj2 (proj2 (Hframe t k x t' H))))
                (fun t x t' => proj1 (proj2 (proj2 (Hset t x t')))) _ _ _ Hdecoded Hnd)
    as HReplicationFactor.
  pose proof (ofold_field ClusterArn "ClusterArn" (decodeString "TopicInfo.ClusterArn") step
                (fun t k x t' H => proj1 (proj2 (proj2 (proj2 (Hframe t k x t' H)))))
                (fun t x t' => proj1 (proj2 (proj2 (proj2 (Hset t x t'))))) _ _ _ Hdecoded Hnd)
    as HClusterArn.
  pose proof (ofold_field DeletionPolicy_ "DeletionPolicy"
                (decodeString "TopicInfo.DeletionPolicy") step
                (fun t k x t' H => proj2 (proj2 (proj2 (proj2 (Hframe t k x t' H)))))
                (fun t x t' => proj2 (proj2 (proj2 (proj2 (Hset t x t'))))) _ _ _ Hdecoded Hnd)
    as HDeletionPolicy.
  clear Hdecoded Hframe Hset step. cbn in HName, HPartitions, HReplicationFactor, HClusterArn,
    HDeletionPolicy.
  assert (HP : exists s, json.get "Partitions" fields = Some (json.Str s)
                         /\ all_digits s = true /\ json.ParseInt s = Some (Partitions ti)).
  { destruct (Hreq "Partitions") as [child Hget]; [in_list|]. rewrite Hget in HPartitions.
    destruct (Hstring "Partitions" (Some numeric) [] ltac:(in_list) child Hget)
      as (s & -> & Hpat & _).
    exists s. split; [done|]. split; [exact (Hpat numeric eq_refl)|].
    cbn in HPartitions. destruct (json.ParseInt s); [|done]. by injection HPartitions as ->. }
  assert (HR : exists s, json.get "ReplicationFactor" fields = Some (json.Str s)
                         /\ all_digits s = true
                         /\ json.ParseInt s = Some (ReplicationFactor ti)).
  { destruct (Hreq "ReplicationFactor") as [child Hget]; [in_list|].
    rewrite Hget in HReplicationFactor.
    destruct (Hstring "ReplicationFactor" (Some numeric) [] ltac:(in_list) child Hget)
      as (s & -> & Hpat & _).
    exists s. split; [done|]. split; [exact (Hpat numeric eq_refl)|].
    cbn in HReplicationFactor. destruct (json.ParseInt s); [|done].
    by injection HReplicationFactor as ->. }
  assert (Hrange : forall s n, json.ParseInt s = Some n -> n < 2 ^ 63).
  { intros s n H. unfold json.ParseInt in H. apply bind_Some in H as (m & _ & H).
    destruct ((- 2 ^ 63 <=? m) && (m <? 2 ^ 63)) eqn:Hb; [|done]. injection H as <-.
    by apply andb_prop in Hb as [_ Hb%Z.ltb_lt]. }
  split_and!.
  - intros k v Hkv. by apply (Hknown k v).
  - destruct (Hreq "Name") as [child Hget]; [in_list|]. rewrite Hget in HName |- *.
    destruct (Hstring "Name" None [] ltac:(in_list) child Hget) as (s & -> & _).
    cbn in HName. by injection HName as ->.
  - destruct (Hreq "ClusterArn") as [child Hget]; [in_list|].
    rewrite Hget in HClusterArn |- *.
    destruct (Hstring "ClusterArn" None [] ltac:(in_list) child Hget) as (s & -> & _).
    cbn in HClusterArn. by injection HClusterArn as ->.
  - exact HP.
  - exact HR.
  - destruct HP as (s & _ & Hs & Hn). by eapply ParseInt_digits.
  - destruct HP as (s & _ & Hs & Hn). by eapply Hrange.
  - destruct HR as (s & _ & Hs & Hn). by eapply ParseInt_digits.
  - destruct HR as (s & _ & Hs & Hn). by eapply Hrange.
  - destruct (json.get "DeletionPolicy" fields) as [child|] eqn:Hget; [|done].
    destruct (Hstring "DeletionPolicy" None ["DELETE"; "RETAIN"] ltac:(in_list) child Hget)
      as (s & -> & _ & Henum).
    cbn in HDeletionPolicy. injection HDeletionPolicy as <-. split; [done|].
    specialize (Henum ltac:(done)).
    apply elem_of_cons in Henum as [->|Henum]; [by left|].
    apply list_elem_of_singleton in Henum as ->. by right.
Qed.

End NewTopicInfo_more.


Section NewTopicInfo_rejections.
Import types gojsonschema.

Lemma Validate_object_errors fields e :
  e ∈ check_required ["ServiceToken"; "Name"; "Partitions"; "ReplicationFactor"; "ClusterArn"]
                     [] fields
      ++ check_additional false
           ["ServiceToken"; "Name"; "Partitions"; "ReplicationFactor"; "ClusterArn";
            "Config"; "Users"; "DeletionPolicy"] [] fields ->
  e ∈ Validate topicInfoSchema (json.Object fields).
Proof.
  intros He. unfold Validate, topicInfoSchema. cbn [validateRecursive].
  cbn [has_type negb check_enum app map fst].
  rewrite app_assoc. apply elem_of_app. by left.
Qed.

Lemma NewTopicInfo_violation props e :
  e ∈ Validate topicInfoSchema props ->
  exists msg, NewTopicInfo props = Err (errors_New msg) /\ occurs_in (String_ e) msg.
Proof.
  intros He. unfold NewTopicInfo.
  destruct (Validate topicInfoSchema props) as [|e0 es] eqn:Hresult;
    [by apply elem_of_nil in He|].
  cbn [Valid]. eexists. split; [reflexivity|].
  apply concat_occurs. change (map String_ (e0 :: es)) with (String_ <$> e0 :: es).
  by apply list_elem_of_fmap_2.
Qed.

(** X16.  Which documents are rejected.  A property map with a property
    that the schema does not know, or without one of the five required
    properties, is rejected, and the error names the property; so is a
    document that is not an object.  Nothing is decoded in these cases. *)
Theorem NewTopicInfo_rejects (fields : list (string * json.Value)) :
  (forall k v,
     (k, v) ∈ fields ->
     k ∉ ["ServiceToken"; "Name"; "Partitions"; "ReplicationFactor"; "ClusterArn";
          "Config"; "Users"; "DeletionPolicy"] ->
     exists msg,
       NewTopicInfo (json.Object fields) = Err (errors_New msg)
       /\ occurs_in ("(root): Additional property " +:+ k +:+ " is not allowed") msg)
  /\ (forall r,
        r ∈ ["ServiceToken"; "Name"; "Partitions"; "ReplicationFactor"; "ClusterArn"] ->
        json.get r fields = None ->
        exists msg,
          NewTopicInfo (json.Object fields) = Err (errors_New msg)
          /\ occurs_in ("(root): " +:+ r +:+ " is required") msg)
  /\ (forall props,
        (forall fields', props ≠ json.Object fields') ->
        NewTopicInfo props
        = Err (errors_New ("(root): Invalid type. Expected: object, given: "
                           +:+ given_name props))).
Proof.
  split_and!.
  - intros k v Hkv Hk.
    apply (NewTopicInfo_violation _
             (mk [] ("Additional property " +:+ k +:+ " is not allowed"))).
    apply Validate_object_errors, elem_of_app. right.
    unfold check_additional. apply list_elem_of_In, in_flat_map.
    exists (k, v). split; [by apply list_elem_of_In|].
    cbn [fst]. rewrite bool_decide_eq_false_2 by done. by left.
  - intros r Hr Hget.
    apply (NewTopicInfo_violation _ (mk [] (r +:+ " is required"))).
    apply Validate_object_errors, elem_of_app. left.
    unfold check_required. apply list_elem_of_In, in_flat_map.
    exists r. split; [by apply list_elem_of_In|]. rewrite Hget. by left.
  - intros props Hprops. destruct props; try reflexivity. by destruct (Hprops fields0).
Qed.

End NewTopicInfo_rejections.

(** The properties of the tests with [DeletionPolicy = DELETE]. *)
Lemma NewTopicInfo_accepted_witness :
  exists ti,
    types.NewTopicInfo (fixtures.properties [ ("DeletionPolicy", json.Str "DELETE") ])
    = Ok ti
    /\ 0 <= types.Partitions ti < 2 ^ 63
    /\ types.DeletionPolicy_ ti = types.DeletionPolicyDelete.
Proof.
  eexists. split; [by vm_compute|].
  destruct (NewTopicInfo_accepted
              (fixtures.properties [ ("DeletionPolicy", json.Str "DELETE") ])
              {| types.Name := "topic-a"; types.Partitions := 1;
                 types.ReplicationFactor := 3; types.ClusterArn := "arn";
                 types.Config := ∅; types.Users := [];
                 types.DeletionPolicy_ := types.DeletionPolicyDelete |})
    as (fields & Hfields & H); [by vm_compute|].
  injection Hfields as <-.
  destruct H as (_ & _ & _ & _ & _ & Hparts & _); [by_evaluation|].
  split; [exact Hparts|reflexivity].
Defined.

(** A misspelt property, and a map without [Name]. *)
Lemma NewTopicInfo_rejects_witness :
  (exists msg,
     types.NewTopicInfo (fixtures.properties [ ("Partition", json.Str "1") ])
     = Err (errors_New msg)
     /\ occurs_in "(root): Additional property Partition is not allowed" msg)
  /\ (exists msg,
        types.NewTopicInfo (json.Object [ ("ServiceToken", json.Str "st") ])
        = Err (errors_New msg)
        /\ occurs_in "(root): Name is required" msg).
Proof.
  split.
  - destruct (NewTopicInfo_rejects
                [ ("ServiceToken", json.Str "st"); ("Name", json.Str "topic-a");
                  ("Partitions", json.Str "1"); ("ReplicationFactor", json.Str "3");
                  ("ClusterArn", json.Str "arn"); ("Partition", json.Str "1") ]) as (H & _).
    apply (H "Partition" (json.Str "1")); [in_list|by_evaluation].
  - destruct (NewTopicInfo_rejects [ ("ServiceToken", json.Str "st") ]) as (_ & H & _).
    apply (H "Name"); [by_evaluation|reflexivity].
Defined.


Section NewTopicInfo_users.
Import types gojsonschema.

Lemma valid_type t required properties additional pattern enum items ctx v :
  validateRecursive (SubSchema (Some t) required properties additional pattern enum items)
                    ctx v = [] ->
  has_type t v = true.
Proof. cbn [validateRecursive]. by destruct (has_type t v). Qed.

Lemma concat_nil_inv {A} (ls : list (list A)) l : concat ls = [] -> l ∈ ls -> l = [].
Proof.
  induction ls as [|l' ls IH]; [by intros _ ?%elem_of_nil|].
  cbn. intros [-> Hrest]%app_eq_nil [->|Hin]%elem_of_cons; auto.
Qed.

(** Every element of a valid array satisfies the schema of the items. *)
Lemma valid_array required properties additional pattern sub ctx elems :
  validateRecursive (SubSchema (Some TypeArray) required properties additional pattern []
                               (Some sub)) ctx (json.Array elems) = [] ->
  forall elem, elem ∈ elems ->
    exists i : nat, validateRecursive sub (ctx ++ [pretty i]) elem = [].
Proof.
  cbn [validateRecursive has_type negb check_enum app]. intros Hall elem Hin.
  apply list_elem_of_lookup in Hin as [i Hi]. exists i.
  eapply (concat_nil_inv _ _ Hall), list_elem_of_lookup. exists i.
  rewrite list_lookup_imap, Hi. done.
Qed.

(** A loop that decodes the elements one by one and appends them. *)
Lemma ofold_append {A B} (f : A -> outcome B) xs acc ys :
  ofold (fun ys x => y ← f x; Ok (ys ++ [y])) xs acc = Ok ys ->
  exists ys', ys = acc ++ ys' /\ Forall2 (fun x y => f x = Ok y) xs ys'.
Proof.
  revert acc. induction xs as [|x xs IH]; intros acc; cbn [ofold].
  - intros [= <-]. exists []. by rewrite app_nil_r.
  - destruct (f x) as [y| |] eqn:Hx; cbn; [|done..].
    intros (ys' & -> & Hall)%IH. exists (y :: ys'). rewrite <- app_assoc. split; [done|].
    by constructor.
Qed.

(** X17.  The users of an accepted document.  Every user of the
    [TopicInfo] comes from an element of the [Users] array (there is none
    when the property is absent); its username is the string given, and
    each of its permissions is READ or WRITE. *)
Theorem NewTopicInfo_users (fields : list (string * json.Value)) (ti : TopicInfo) :
  NewTopicInfo (json.Object fields) = Ok ti ->
  NoDup fields.*1 ->
  (forall elems ufields,
     json.get "Users" fields = Some (json.Array elems) ->
     json.Object ufields ∈ elems -> NoDup ufields.*1) ->
  (json.get "Users" fields = None -> Users ti = [])
  /\ forall u,
       u ∈ Users ti ->
       (forall p, p ∈ Permissions u -> p = PermissionRead \/ p = PermissionWrite)
       /\ exists elems ufields,
            json.get "Users" fields = Some (json.Array elems)
            /\ json.Object ufields ∈ elems
            /\ json.get "Username" ufields = Some (json.Str (Username u)).
Proof.
  unfold NewTopicInfo. destruct (Valid _) eqn:Hvalid; [|done].
  unfold Valid in Hvalid.
  destruct (Validate topicInfoSchema (json.Object fields)) as [|] eqn:Hresult;
    [clear Hvalid|done].
  intros Hdecoded Hnd Hunique.
  apply valid_object in Hresult as (_ & _ & Hchildren).
  cbn [Unmarshal] in Hdecoded.
  set (step := fun (ti : TopicInfo) (kv : string * json.Value) => _) in Hdecoded.
  assert (HUsers : match json.get "Users" fields with
                   | Some x => decodeUsers x [] = Ok (Users ti)
                   | None => Users ti = []
                   end).
  { refine (ofold_field Users "Users" decodeUsers step _ _ _ _ _ Hdecoded Hnd).
    - intros t k x t'. subst step. cbn beta iota.
      repeat case_decide; subst;
        (match goal with
         | |- context [decodeString ?f x ?c] => destruct (decodeString f x c)
         | |- context [decodeQuotedInt ?f x ?c] => destruct (decodeQuotedInt f x c)
         | |- context [decodeConfig x ?c] => destruct (decodeConfig x c)
         | |- context [decodeUsers x ?c] => destruct (decodeUsers x c)
         | |- _ => idtac
         end); cbn; try done; by intros [= <-].
    - intros t x t'. subst step. cbn beta iota. repeat case_decide; try done.
      destruct (decodeUsers x (Users t)); cbn; try done. by intros [= <-]. }
  clear Hdecoded step.
  destruct (json.get "Users" fields) as [child|] eqn:Hget; [|split; [done|]]; cycle 1.
  { intros u. rewrite HUsers. by intros ?%elem_of_nil. }
  split; [done|]. intros u Hu.
  specialize (Hchildren "Users" _ child ltac:(in_list) Hget). cbn [app] in Hchildren.
  pose proof (valid_type _ _ _ _ _ _ _ _ _ Hchildren) as Htype.
  destruct child as [| | | |elems|]; try done. clear Htype.
  cbn [decodeUsers] in HUsers.
  apply ofold_append in HUsers as (us & Hus & Hall). cbn [app] in Hus. subst us.
  apply list_elem_of_lookup in Hu as [i Hi].
  destruct (Forall2_lookup_r _ _ _ _ _ Hall Hi) as (elem & Helem & Hdecode).
  assert (Hin : elem ∈ elems) by (apply list_elem_of_lookup; by exists i).
  destruct (valid_array _ _ _ _ _ _ _ Hchildren elem Hin) as [j Hvalid].
  pose proof (valid_type _ _ _ _ _ _ _ _ _ Hvalid) as Htype.
  destruct elem as [| | | | |ufields]; try done. clear Htype.
  specialize (Hunique elems ufields eq_refl Hin).
  apply valid_object in Hvalid as (Hreq & _ & Huser).
  cbn [decodeUser] in Hdecode.
  set (ustep := fun (u : User) (kv : string * json.Value) => _) in Hdecode.
  assert (Hframe : forall t k x t', ustep t (k, x) = Ok t' ->
            (k ≠ "Username" -> Username t' = Username t)
            /\ (k ≠ "Permissions" -> Permissions t' = Permissions t)).
  { intros t k x t'. subst ustep. cbn beta iota.
    repeat case_decide; subst;
      (match goal with
       | |- context [decodeString ?f x ?c] => destruct (decodeString f x c)
       | |- context [decodePermissions x ?c] => destruct (decodePermissions x c)
       | |- _ => idtac
       end); cbn; try done; intros [= <-]; by split. }
  assert (Hset : forall t x t',
            (ustep t ("Username", x) = Ok t' ->
               decodeString "TopicInfo.Users.Username" x (Username t) = Ok (Username t'))
            /\ (ustep t ("Permissions", x) = Ok t' ->
                decodePermissions x (Permissions t) = Ok (Permissions t'))).
  { intros t x t'. subst ustep. cbn beta iota.
    split; repeat case_decide; try done;
      (match goal with
       | |- context [decodeString ?f x ?c] => destruct (decodeString f x c)
       | |- context [decodePermissions x ?c] => destruct (decodePermissions x c)
       end); cbn; try done; by intros [= <-]. }
  pose proof (ofold_field Username "Username" (decodeString "TopicInfo.Users.Username") ustep
                (fun t k x t' H => proj1 (Hframe t k x t' H))
                (fun t x t' => proj1 (Hset t x t')) _ _ _ Hdecode Hunique) as HUsername.
  pose proof (ofold_field Permissions "Permissions" decodePermissions ustep
                (fun t k x t' H => proj2 (Hframe t k x t' H))
                (fun t x t' => proj2 (Hset t x t')) _ _ _ Hdecode Hunique) as HPermissions.
  clear Hdecode Hframe Hset ustep. cbn in HUsername, HPermissions.
  split.
  - destruct (Hreq "Permissions") as [pchild Hpget]; [in_list|].
    rewrite Hpget in HPermissions.
    specialize (Huser "Permissions" _ pchild ltac:(in_list) Hpget).
    pose proof (valid_type _ _ _ _ _ _ _ _ _ Huser) as Htype.
    destruct pchild as [| | | |pelems|]; try done. clear Htype.
    cbn [decodePermissions] in HPermissions.
    apply ofold_append in HPermissions as (ps & Hps & Hpall). cbn [app] in Hps. subst ps.
    intros p Hp. apply list_elem_of_lookup in Hp as [k Hk].
    destruct (Forall2_lookup_r _ _ _ _ _ Hpall Hk) as (pelem & Hpelem & Hpdecode).
    assert (Hpin : pelem ∈ pelems) by (apply list_elem_of_lookup; by exists k).
    destruct (valid_array _ _ _ _ _ _ _ Huser pelem Hpin) as [l Hpvalid].
    apply valid_string in Hpvalid as (s & -> & _ & Henum).
    cbn in Hpdecode. injection Hpdecode as <-.
    specialize (Henum ltac:(done)).
    apply elem_of_cons in Henum as [->|Henum]; [by left|].
    apply list_elem_of_singleton in Henum as ->. by right.
  - exists elems, ufields. split_and!; [done..|].
    destruct (Hreq "Username") as [uchild Huget]; [in_list|].
    rewrite Huget in HUsername |- *.
    specialize (Huser "Username" _ uchild ltac:(in_list) Huget).
    apply valid_string in Huser as (s & -> & _).
    cbn in HUsername. by injection HUsername as ->.
Qed.

End NewTopicInfo_users.

(** [alice] may read. *)
Lemma NewTopicInfo_users_witness :
  exists ti,
    types.NewTopicInfo
      (fixtures.properties
         [ ("Users", json.Array [ json.Object [ ("Username", json.Str "alice");
                                                ("Permissions", json.Array [json.Str "READ"]) ] ]) ])
    = Ok ti
    /\ forall u, u ∈ types.Users ti ->
         forall p, p ∈ types.Permissions u ->
           p = types.PermissionRead \/ p = types.PermissionWrite.
Proof.
  eexists. split; [by vm_compute|]. intros u Hu.
  eapply (NewTopicInfo_users
            [ ("ServiceToken", json.Str "st"); ("Name", json.Str "topic-a");
              ("Partitions", json.Str "1"); ("ReplicationFactor", json.Str "3");
              ("ClusterArn", json.Str "arn");
              ("Users", json.Array [ json.Object [ ("Username", json.Str "alice");
                                                   ("Permissions",
                                                     json.Array [json.Str "READ"]) ] ]) ]);
    [by vm_compute|by_evaluation| |exact Hu].
  intros elems ufields Hget Hin. vm_compute in Hget. injection Hget as <-.
  apply list_elem_of_singleton in Hin. injection Hin as ->. by_evaluation.
Defined.

(** *** Create: the counts sent to the cluster; update: the key when the
    last users go *)

Section counts_and_keys.
Import types admin admin.cmdUpdate.

Lemma int32_wraps x k : int32 (x + k * 2 ^ 32) = int32 x.
Proof. unfold int32. f_equal. rewrite <- Z.add_assoc, (Z.add_comm (k * _)), Z.add_assoc.
       by rewrite Z.mod_add. Qed.

Lemma int16_wraps x k : int16 (x + k * 2 ^ 16) = int16 x.
Proof. unfold int16. f_equal. rewrite <- Z.add_assoc, (Z.add_comm (k * _)), Z.add_assoc.
       by rewrite Z.mod_add. Qed.

(** X18.  The counts of [CreateTopic] are the desired ones converted to
    [int32] and [int16] without a range check.  Within the range of the
    target type the conversion changes nothing; outside it wraps around:
    a desired state whose [Partitions] is larger by a multiple of 2^32, or
    whose [ReplicationFactor] is larger by a multiple of 2^16, gives the
    very same run.  The result is always in the range of the type. *)
Theorem cmdCreate_Run_counts (env : Env) (info : TopicInfo) (stackID : string)
    (tr : list Call) (k j : Z) :
  let wrapped :=
    {| Name := Name info; Partitions := Partitions info + k * 2 ^ 32;
       ReplicationFactor := ReplicationFactor info + j * 2 ^ 16;
       ClusterArn := ClusterArn info; Config := Config info; Users := Users info;
       DeletionPolicy_ := DeletionPolicy_ info |} in
  cmdCreate.Run env wrapped stackID tr = cmdCreate.Run env info stackID tr
  /\ (- 2 ^ 31 <= Partitions info < 2 ^ 31 -> int32 (Partitions info) = Partitions info)
  /\ (- 2 ^ 15 <= ReplicationFactor info < 2 ^ 15 ->
      int16 (ReplicationFactor info) = ReplicationFactor info)
  /\ - 2 ^ 31 <= int32 (Partitions info) < 2 ^ 31
  /\ - 2 ^ 15 <= int16 (ReplicationFactor info) < 2 ^ 15.
Proof.
  intros wrapped. split_and!.
  - unfold cmdCreate.Run, kmsKeyResolver.Resolve. subst wrapped. cbn [Name Partitions
      ReplicationFactor ClusterArn Config Users DeletionPolicy_].
    by rewrite int32_wraps, int16_wraps.
  - intros H. unfold int32. rewrite Z.mod_small; lia.
  - intros H. unfold int16. rewrite Z.mod_small; lia.
  - unfold int32. pose proof (Z.mod_pos_bound (Partitions info + 2 ^ 31) (2 ^ 32)). lia.
  - unfold int32. pose proof (Z.mod_pos_bound (Partitions info + 2 ^ 31) (2 ^ 32)). lia.
  - unfold int16. pose proof (Z.mod_pos_bound (ReplicationFactor info + 2 ^ 15) (2 ^ 16)). lia.
  - unfold int16. pose proof (Z.mod_pos_bound (ReplicationFactor info + 2 ^ 15) (2 ^ 16)). lia.
Qed.

Context {order : MapOrder}.

(** A command whose result satisfies [Q], followed by one that is fine
    for such results. *)
Lemma emits_bind_result {A B} (P : Call -> Prop) (Q : A -> Prop) (m : Cmd A)
    (k : A -> Cmd B) :
  emits P m -> (forall tr a tr', m tr = (Ok a, tr') -> Q a) ->
  (forall a, Q a -> emits P (k a)) -> emits P (m ≫= k).
Proof.
  intros Hm HQ Hk tr. destruct (Hm tr) as (calls & Htr & Hcalls).
  unfold mbind, Cmd_bind, cmd_bind. destruct (m tr) as [[a|e|r] tr1] eqn:Hrun; cbn in *.
  - destruct (Hk a (HQ _ _ _ Hrun) tr1) as (calls' & -> & Hcalls'). subst tr1.
    exists (calls ++ calls'). split; [by rewrite app_assoc|]. by apply Forall_app.
  - by exists calls.
  - by exists calls.
Qed.

Lemma Run_topic_keyless env old new stackID :
  Users new = [] ->
  emits keyless (Run_topic env old new stackID)
  /\ forall tr key tr', Run_topic env old new stackID tr = (Ok key, tr') -> key = "".
Proof.
  intros Hnone.
  assert (Hresolve : kmsKeyResolver.Resolve env new = mret "").
  { unfold kmsKeyResolver.Resolve. by rewrite Hnone. }
  unfold Run_topic. rewrite Hresolve. split.
  - apply emits_bind; [by apply emits_withStack, emits_call|]. intros topics.
    apply emits_bind; [repeat case_match; auto with cmd|]. intros _.
    apply emits_bind; [case_match; auto with cmd|]. intros _.
    apply emits_bind; [case_match; auto with cmd|]. intros _.
    apply emits_bind; [auto with cmd|]. intros kms.
    apply emits_bind.
    { apply emits_withStack. unfold diffConfig.
      apply emits_bind; [by apply emits_withStack, emits_call|]. intros c. apply emits_lift. }
    intros cdiff.
    apply emits_bind; [|auto with cmd]. case_match; [|auto with cmd].
    apply emits_bind; [by apply emits_withStack, emits_call|]. intros responses.
    apply emits_bind; [auto with cmd|]. intros response.
    case_match; auto with cmd.
  - intros tr key tr' Hrun.
    apply bind_Ok_inv in Hrun as (topics & tr1 & _ & Hrun).
    apply bind_Ok_inv in Hrun as (_ & tr2 & _ & Hrun).
    apply bind_Ok_inv in Hrun as (_ & tr3 & _ & Hrun).
    apply bind_Ok_inv in Hrun as (_ & tr4 & _ & Hrun).
    apply bind_Ok_inv in Hrun as (kms & tr5 & Hkms & Hrun).
    apply bind_Ok_inv in Hrun as (cdiff & tr6 & _ & Hrun).
    apply bind_Ok_inv in Hrun as (_ & tr7 & _ & Hrun).
    unfold withStack, mret, Cmd_ret, cmd_ret in Hkms, Hrun. congruence.
Qed.

(** X19.  When an update leaves no user in the desired state, the key is
    not looked up: [Run] makes no [DescribeCluster] call, creates no user,
    deletes every user of the old state, and every [DeleteUser] call it
    makes carries the empty key. *)
Theorem Run_last_users_keyless (env : Env) (old new : TopicInfo) (stackID : string) :
  Users new = [] ->
  emits keyless (Run env old new stackID)
  /\ AddedUsers (diffUsers (Name old) old new) = []
  /\ DeletedUsers (diffUsers (Name old) old new) = Users old.
Proof.
  intros Hnone.
  assert (Hadded : AddedUsers (diffUsers (Name old) old new) = []).
  { rewrite diffUsers_AddedUsers, Hnone. cbn. rewrite app_nil_r.
    apply elem_of_nil_inv. intros u (o & Ho & Hrep)%list_elem_of_omap.
    unfold replaced in Hrep. cbn in Hrep. by rewrite lookup_empty in Hrep. }
  assert (Hdeleted : DeletedUsers (diffUsers (Name old) old new) = Users old).
  { rewrite diffUsers_DeletedUsers, Hnone.
    assert (Hdropped : forall o, dropped (index []) o = true).
    { intros o. unfold dropped, index. cbn [fold_left].
      by rewrite (lookup_empty (M:=gmap string)). }
    induction (Users old) as [|o os IH]; [done|].
    rewrite filter_cons, decide_True by (by rewrite Hdropped). by rewrite IH. }
  split; [|done].
  destruct (Run_topic_keyless env old new stackID Hnone) as [Htopic Hkey].
  unfold Run. eapply (emits_bind_result _ (fun key => key = "")); [exact Htopic|exact Hkey|].
  intros key ->. unfold Run_users. rewrite Hadded.
  apply emits_bind; [apply emits_forEach; intros u; by apply emits_withStack, emits_invoke|].
  intros _. apply emits_bind; [case_match; [by apply emits_call_|apply emits_ret]|].
  intros _. apply emits_bind; [apply emits_ret|].
  intros _. apply emits_bind;
    [apply emits_forEach; intros u; by apply emits_withStack, emits_invoke|].
  intros _. apply emits_forEach; intros u; by apply emits_withStack, emits_invoke.
Qed.

End counts_and_keys.

(** A topic asked for with 2^32 + 1 partitions. *)
Lemma cmdCreate_Run_counts_witness :
  admin.cmdCreate.Run fixtures.cluster (fixtures.plain (1 + 1 * 2 ^ 32) "arn-1") "test" []
  = admin.cmdCreate.Run fixtures.cluster (fixtures.plain 1 "arn-1") "test" []
  /\ int32 1 = 1.
Proof.
  destruct (cmdCreate_Run_counts fixtures.cluster (fixtures.plain 1 "arn-1") "test" [] 1 0)
    as (Hsame & Hsmall & _).
  split; [exact Hsame|]. apply Hsmall. cbn. lia.
Defined.

(** [alice] and [bob] are both dropped. *)
Lemma Run_last_users_keyless_witness :
  emits keyless
    (admin.cmdUpdate.Run (H:=canonical_order) (fixtures.clusterWith 0)
       (fixtures.topic [fixtures.alice; fixtures.bob] ∅) (fixtures.topic [] ∅) "test")
  /\ admin.DeletedUsers
       (admin.cmdUpdate.diffUsers "a" (fixtures.topic [fixtures.alice; fixtures.bob] ∅)
          (fixtures.topic [] ∅))
     = [fixtures.alice; fixtures.bob].
Proof.
  destruct (Run_last_users_keyless (order:=canonical_order) (fixtures.clusterWith 0)
              (fixtures.topic [fixtures.alice; fixtures.bob] ∅) (fixtures.topic [] ∅) "test")
    as (Hcalls & _ & Hdeleted); [reflexivity|].
  split; [exact Hcalls|exact Hdeleted].
Defined.

(** *** The user manager *)

Ltac op_unfold :=
  unfold mbind, mret, userManager.Op_bind, userManager.Op_ret, userManager.op_bind,
         userManager.op_ret, userManager.stacked, userManager.try, userManager.send_,
         userManager.send, userManager.raise, userManager.pure in *.

Section acl_builders.
Import types acl userManager.

Lemma Sprintf_principal username : fmt.Sprintf "User:%s" [username] = "User:" +:+ username.
Proof. cbn [fmt.Sprintf]. by rewrite append_empty_r. Qed.

(** The two lists of operations the loop builds. *)
Lemma userPermissionToACL_fold permissions topicOps groupOps :
  fold_left (fun (acc : list ACLOperation * list ACLOperation) permission =>
               let '(topicOps, groupOps) := acc in
               let '(topicOps, groupOps) :=
                 if decide (permission = PermissionRead)
                 then (topicOps ++ [OpRead], (groupOps ++ [OpRead]) ++ [OpDescribe])
                 else (topicOps, groupOps) in
               if decide (permission = PermissionWrite)
               then (topicOps ++ [OpWrite], groupOps)
               else (topicOps, groupOps))
            permissions (topicOps, groupOps)
  = (topicOps ++ (permissions ≫= topic_ops), groupOps ++ (permissions ≫= group_ops)).
Proof.
  revert topicOps groupOps. induction permissions as [|p ps IH]; intros topicOps groupOps.
  - cbn. by rewrite !app_nil_r.
  - cbn [fold_left mbind list_bind].
    assert (Ht : topic_ops p
                 = (if decide (p = PermissionRead) then [OpRead] else [])
                   ++ (if decide (p = PermissionWrite) then [OpWrite] else [])) by done.
    assert (Hg : group_ops p
                 = if decide (p = PermissionRead) then [OpRead; OpDescribe] else []) by done.
    rewrite Ht, Hg.
    destruct (decide (p = PermissionRead)) as [Hr|Hr];
      destruct (decide (p = PermissionWrite)) as [Hw|Hw];
      rewrite IH; cbn [app]; by rewrite <- ?app_assoc.
Qed.

Lemma userPermissionToACL_eq topic username permissions :
  userPermissionToACL topic username permissions
  = topic_builder topic ("User:" +:+ username)
      (if permissions ≫= topic_ops is [] then [OpAny] else permissions ≫= topic_ops)
    :: (if permissions ≫= group_ops is []
        then []
        else [group_builder ("User:" +:+ username) (permissions ≫= group_ops)]).
Proof.
  unfold userPermissionToACL. rewrite userPermissionToACL_fold, Sprintf_principal.
  cbn [app]. by destruct (permissions ≫= group_ops).
Qed.

Lemma elem_of_topic_ops permissions op :
  op ∈ permissions ≫= topic_ops
  <-> (op = OpRead /\ PermissionRead ∈ permissions)
      \/ (op = OpWrite /\ PermissionWrite ∈ permissions).
Proof.
  rewrite list_elem_of_bind. unfold topic_ops. split.
  - intros (p & Hop & Hp). apply elem_of_app in Hop as [Hop|Hop]; case_decide; subst;
      try (by apply elem_of_nil in Hop); apply list_elem_of_singleton in Hop as ->; auto.
  - intros [[-> Hp]|[-> Hp]]; eexists; (split; [|exact Hp]).
    + apply elem_of_app. left. rewrite decide_True by done. by left.
    + apply elem_of_app. right. rewrite decide_True by done. by left.
Qed.

Lemma elem_of_group_ops permissions op :
  op ∈ permissions ≫= group_ops
  <-> (op = OpRead \/ op = OpDescribe) /\ PermissionRead ∈ permissions.
Proof.
  rewrite list_elem_of_bind. unfold group_ops. split.
  - intros (p & Hop & Hp). case_decide; subst; [|by apply elem_of_nil in Hop].
    split; [|done]. apply elem_of_cons in Hop as [->|Hop]; [by left|].
    apply list_elem_of_singleton in Hop as ->. by right.
  - intros [Hop Hp]. exists PermissionRead. split; [|done]. rewrite decide_True by done.
    destruct Hop as [->| ->]; [by left|]. right. by left.
Qed.

(** X20.  The ACL builders of a user.  There is always one builder for
    the topic, with the literal pattern, the principal [User:] followed by
    the username, and any host.  The operations given to it are Read for
    every READ among the permissions and Write for every WRITE, and no
    other; when that gives none (no permission, or none that is READ or
    WRITE) the builder holds the operation Any, the default of
    [Operations].  A second builder, for every consumer group, follows
    exactly when READ is among the permissions; its operations are Read
    and Describe. *)
Theorem userPermissionToACL_builders (topic username : string)
    (permissions : list Permission) :
  exists topicOps groupOps,
    userPermissionToACL topic username permissions
    = topic_builder topic ("User:" +:+ username)
        (if topicOps is [] then [OpAny] else topicOps)
      :: (if decide (PermissionRead ∈ permissions)
          then [group_builder ("User:" +:+ username) groupOps]
          else [])
    /\ (forall op, op ∈ topicOps
                   <-> (op = OpRead /\ PermissionRead ∈ permissions)
                       \/ (op = OpWrite /\ PermissionWrite ∈ permissions))
    /\ (forall op, op ∈ groupOps
                   <-> (op = OpRead \/ op = OpDescribe) /\ PermissionRead ∈ permissions)
    /\ length topicOps
       = length (filter (fun p => p = PermissionRead \/ p = PermissionWrite) permissions).
Proof.
  exists (permissions ≫= topic_ops), (permissions ≫= group_ops).
  split_and!.
  - rewrite userPermissionToACL_eq. f_equal.
    destruct (decide (PermissionRead ∈ permissions)) as [Hr|Hr].
    + destruct (permissions ≫= group_ops) as [|op l] eqn:Hops; [|done].
      exfalso. eapply (elem_of_nil OpRead). rewrite <- Hops. apply elem_of_group_ops. auto.
    + destruct (permissions ≫= group_ops) as [|op l] eqn:Hops; [done|].
      exfalso. apply Hr. eapply (elem_of_group_ops permissions op). rewrite Hops. by left.
  - apply elem_of_topic_ops.
  - apply elem_of_group_ops.
  - induction permissions as [|p ps IH]; [done|].
    cbn [mbind list_bind]. rewrite length_app, IH, filter_cons. unfold topic_ops.
    destruct (decide (p = PermissionRead)) as [->|Hr].
    + rewrite decide_False by done. rewrite decide_True by auto. done.
    + destruct (decide (p = PermissionWrite)) as [->|Hw].
      * rewrite decide_True by auto. done.
      * rewrite decide_False by (by intros [?|?]). done.
Qed.

End acl_builders.

(** A user without permissions: the topic builder holds Any. *)
Lemma userPermissionToACL_builders_witness :
  userManager.userPermissionToACL "t" "u" [] = [topic_builder "t" "User:u" [acl.OpAny]].
Proof.
  destruct (userPermissionToACL_builders "t" "u" [])
    as (topicOps & groupOps & Heq & Htopic & _).
  rewrite Heq. destruct topicOps as [|op rest]; [reflexivity|].
  destruct (Htopic op) as [Hop _].
  destruct Hop as [[_ Hin]|[_ Hin]]; [by left|by apply elem_of_nil in Hin..].
Defined.


Section operations.
Import types acl userManager.

Lemma op_bind_Ok {A B} (m : Op A) (k : A -> Op B) tr a tr1 :
  m tr = (Ok a, tr1) -> (m ≫= k) tr = k a tr1.
Proof. intros Hm. unfold mbind, Op_bind, op_bind. by rewrite Hm. Qed.

Lemma op_bind_Err {A B} (m : Op A) (k : A -> Op B) tr e tr1 :
  m tr = (Err e, tr1) -> (m ≫= k) tr = (Err e, tr1).
Proof. intros Hm. unfold mbind, Op_bind, op_bind. by rewrite Hm. Qed.

Lemma stacked_Ok {A} (m : Op A) tr a tr1 :
  m tr = (Ok a, tr1) -> stacked m tr = (Ok a, tr1).
Proof. intros Hm. unfold stacked. by rewrite Hm. Qed.

Lemma stacked_Err {A} (m : Op A) tr e tr1 :
  m tr = (Err e, tr1) -> stacked m tr = (Err (WithStack e), tr1).
Proof. intros Hm. unfold stacked. by rewrite Hm. Qed.

Lemma send_inr {A} r (reply : list Request -> error + A) tr a :
  reply (tr ++ [r]) = inr a -> send r reply tr = (Ok a, tr ++ [r]).
Proof. intros Hr. unfold send. by rewrite Hr. Qed.

Lemma send_inl {A} r (reply : list Request -> error + A) tr e :
  reply (tr ++ [r]) = inl e -> send r reply tr = (Err e, tr ++ [r]).
Proof. intros Hr. unfold send. by rewrite Hr. Qed.

Lemma try_send {A} r (reply : list Request -> error + A) tr :
  try (send r reply) tr = (Ok (reply (tr ++ [r])), tr ++ [r]).
Proof. unfold try, send. by destruct (reply (tr ++ [r])). Qed.

Lemma try_send_ r (reply : list Request -> option error) tr :
  try (send_ r reply) tr
  = (Ok (match reply (tr ++ [r]) with Some e => inl e | None => inr tt end), tr ++ [r]).
Proof. unfold send_. rewrite try_send. done. Qed.

Lemma sends_ret {A} P (a : A) : sends P (mret a : Op A).
Proof. intros tr. exists []. by rewrite app_nil_r. Qed.

Lemma sends_pure {A} P (o : outcome A) : sends P (pure o).
Proof. intros tr. exists []. by rewrite app_nil_r. Qed.

Lemma sends_raise {A} P e : sends P (raise (A:=A) e).
Proof. apply sends_pure. Qed.

Lemma sends_send {A} (P : Request -> Prop) r (reply : list Request -> error + A) :
  P r -> sends P (send r reply).
Proof. intros Hr tr. exists [r]. split; [done|]. by constructor. Qed.

Lemma sends_send_ (P : Request -> Prop) r reply : P r -> sends P (send_ r reply).
Proof. apply sends_send. Qed.

Lemma sends_bind {A B} P (m : Op A) (k : A -> Op B) :
  sends P m -> (forall a, sends P (k a)) -> sends P (m ≫= k).
Proof.
  intros Hm Hk tr. destruct (Hm tr) as (requests & Htr & Hrequests).
  unfold mbind, Op_bind, op_bind. destruct (m tr) as [[a|e|r] tr1]; cbn in *.
  - destruct (Hk a tr1) as (requests' & -> & Hrequests'). subst tr1.
    exists (requests ++ requests'). split; [by rewrite app_assoc|]. by apply Forall_app.
  - by exists requests.
  - by exists requests.
Qed.

Lemma sends_stacked {A} P (m : Op A) : sends P m -> sends P (stacked m).
Proof.
  intros Hm tr. destruct (Hm tr) as (requests & Htr & Hrequests). exists requests.
  unfold stacked. by destruct (m tr) as [[a|e|r] tr1].
Qed.

Lemma sends_try {A} P (m : Op A) : sends P m -> sends P (try m).
Proof.
  intros Hm tr. destruct (Hm tr) as (requests & Htr & Hrequests). exists requests.
  unfold try. by destruct (m tr) as [[a|e|r] tr1].
Qed.

Lemma sends_unlessRetriable {A} P w (r : error + A) : sends P (unlessRetriable w r).
Proof. destruct r as [e|a]; cbn; [case_match|]; auto using sends_ret, sends_raise. Qed.

Lemma sends_createACLs_loop (P : Request -> Prop) w acls :
  (forall b, P (KafkaCreateACLs b)) -> sends P (createACLs_loop w acls).
Proof.
  intros HP. induction acls as [|b acls IH]; cbn [createACLs_loop]; [apply sends_ret|].
  apply sends_bind; [by apply sends_stacked, sends_send|].
  intros [|first rest]; [apply sends_pure|]. case_match; [apply sends_raise|exact IH].
Qed.

Lemma sends_deleteACLs_loop (P : Request -> Prop) w acls :
  (forall b, P (KafkaDeleteACLs b)) -> sends P (deleteACLs_loop w acls).
Proof.
  intros HP. induction acls as [|b acls IH]; cbn [deleteACLs_loop]; [apply sends_ret|].
  apply sends_bind; [by apply sends_try, sends_send|].
  intros [err|[|first rest]].
  - case_match; [apply sends_raise|apply sends_ret].
  - apply sends_pure.
  - repeat case_match; auto using sends_raise.
Qed.


Lemma createACLs_loop_accepted w acls tr :
  (forall h, exists first rest,
      kafkaClient_CreateACLs w h = inr (first :: rest) /\ ResultErr first = None) ->
  createACLs_loop w acls tr = (Ok tt, tr ++ (KafkaCreateACLs <$> acls)).
Proof.
  intros Haccept. revert tr. induction acls as [|b acls IH]; intros tr; cbn [createACLs_loop].
  - cbn. by rewrite app_nil_r.
  - op_unfold. destruct (Haccept (tr ++ [KafkaCreateACLs b])) as (first & rest & -> & ->).
    rewrite IH. cbn. by rewrite <- app_assoc.
Qed.


Lemma deleteACLs_loop_errors w acls tr e :
  (deleteACLs_loop w acls tr).1 = Err e ->
  exists e', e = WithStack e' /\ kerr_IsRetriable w e' = true.
Proof.
  revert tr. induction acls as [|b acls IH]; intros tr; cbn [deleteACLs_loop]; [done|].
  unfold mbind, Op_bind, op_bind. rewrite try_send.
  destruct (kafkaClient_DeleteACLs w (tr ++ [KafkaDeleteACLs b])) as [err|[|first rest]].
  - destruct (kerr_IsRetriable w err) eqn:Hretry; [|done]. intros [= <-]. by eexists.
  - done.
  - destruct (ResultErr first) as [err|]; [|apply IH].
    destruct (kerr_IsRetriable w err) eqn:Hretry; [|apply IH]. intros [= <-]. by eexists.
Qed.

(** X22.  [DeleteACLs] returns no error but a retriable one (wrapped).
    It always begins with the request for the topic ACLs; when that
    request fails with an error that is not retriable, the deletion ends
    there and reports success, so the group ACLs of a reader are not
    asked to be deleted. *)
Theorem DeleteACLs_errors (w : Backends) (topic username shortStackID : string)
    (permissions : list Permission) (tr : list Request) :
  let principal := "User:" +:+ admin.canonicalUsername username shortStackID in
  let run := DeleteACLs w topic username shortStackID permissions tr in
  (forall e, run.1 = Err e -> exists e', e = WithStack e' /\ kerr_IsRetriable w e' = true)
  /\ exists topicOps rest,
       let first := KafkaDeleteACLs (topic_builder topic principal topicOps) in
       run.2 = tr ++ first :: rest
       /\ forall err,
            kafkaClient_DeleteACLs w (tr ++ [first]) = inl err ->
            kerr_IsRetriable w err = false ->
            run = (Ok tt, tr ++ [first]).
Proof.
  intros principal run. subst run. unfold DeleteACLs, deleteACLs. split.
  - intros e. apply deleteACLs_loop_errors.
  - rewrite userPermissionToACL_eq. fold principal.
    set (topicOps := if permissions ≫= topic_ops is [] then _ else _).
    exists topicOps.
    set (first := topic_builder topic principal topicOps).
    set (others := if permissions ≫= group_ops is [] then [] else _).
    destruct (sends_deleteACLs_loop (fun _ => True) w others ltac:(done)
                (tr ++ [KafkaDeleteACLs first])) as (rest & Hrest & _).
    cbn [deleteACLs_loop]. unfold mbind, Op_bind, op_bind. rewrite try_send.
    destruct (kafkaClient_DeleteACLs w (tr ++ [KafkaDeleteACLs first]))
      as [err|[|r0 results]] eqn:Hreply.
    + exists []. split; [by destruct (kerr_IsRetriable w err)|].
      intros err' [= <-] Hretry. by rewrite Hretry.
    + exists []. split; [done|]. by intros err' [=].
    + destruct (ResultErr r0) as [err|]; [destruct (kerr_IsRetriable w err)|].
      * exists []. split; [done|]. by intros err' [=].
      * exists rest. split; [|by intros err' [=]]. rewrite Hrest. by rewrite <- app_assoc.
      * exists rest. split; [|by intros err' [=]]. rewrite Hrest. by rewrite <- app_assoc.
Qed.

End operations.


Section users.
Import types acl userManager.

(** X23.  Deleting a user twice is harmless.  After the ACLs,
    [DeleteUser] looks the secret up; when Secrets Manager answers that it
    does not exist, the deletion ends there with success (the secret is
    deleted last, so nothing is left to clean up); any other error of the
    lookup is returned wrapped.  In both cases nothing else is requested. *)
Theorem DeleteUser_secret_gone (w : Backends) (u : User)
    (kmsKeyID topic shortStackID clusterArn : string) (tr tr1 : list Request)
    (err : error) :
  let username := admin.canonicalUsername (Username u) shortStackID in
  let tr2 := tr1 ++ [DescribeSecret username] in
  deleteACLs w topic username (Permissions u) tr = (Ok tt, tr1) ->
  secretsManagerClient_DescribeSecret w tr2 = inl err ->
  DeleteUser w u kmsKeyID topic shortStackID clusterArn tr
  = (if As_ResourceNotFoundException w err then Ok tt else Err (WithStack err), tr2).
Proof.
  intros username tr2 Hacls Hlookup. unfold DeleteUser. fold username.
  erewrite op_bind_Ok by (by apply stacked_Ok).
  erewrite op_bind_Ok by apply try_send. fold tr2. rewrite Hlookup.
  by destruct (As_ResourceNotFoundException w err).
Qed.

(** X24.  [DeleteUser] carries on over failures that are not retriable.
    When the ACLs are deleted and the secret is found, and every later
    failure is of the kind passed over (an error that is not retriable,
    or an unprocessed secret that passes the check), [DeleteUser]
    succeeds: it asks to disassociate the secret from the cluster, sends
    requests about the grant only (none when the user has no Arn), and
    ends with the forced deletion of the secret. *)
Theorem DeleteUser_passes_over (w : Backends) (u : User)
    (kmsKeyID topic shortStackID clusterArn : string) (tr tr1 : list Request)
    (secretArn : string) :
  let username := admin.canonicalUsername (Username u) shortStackID in
  deleteACLs w topic username (Permissions u) tr = (Ok tt, tr1) ->
  secretsManagerClient_DescribeSecret w (tr1 ++ [DescribeSecret username])
  = inr (Some secretArn) ->
  passed_over w ->
  exists between,
    DeleteUser w u kmsKeyID topic shortStackID clusterArn tr
    = (Ok tt,
       tr1 ++ [DescribeSecret username; BatchDisassociateScramSecret clusterArn [secretArn]]
           ++ between ++ [DeleteSecret username true])
    /\ Forall grants_access between
    /\ (Arn u = "" -> between = [])
    /\ (Arn u ≠ "" ->
        exists rest,
          between = CreateGrant username kmsKeyID (Arn u) [GrantOperationDecrypt] :: rest).
Proof.
  intros username Hacls Hlookup (Hdis & Hgrant & Hrevoke & Hdelete).
  unfold DeleteUser. fold username.
  erewrite op_bind_Ok by (by apply stacked_Ok).
  erewrite op_bind_Ok by apply try_send. rewrite Hlookup.
  erewrite op_bind_Ok by reflexivity.
  erewrite op_bind_Ok by apply try_send.
  set (tr3 := (tr1 ++ [DescribeSecret username])
              ++ [BatchDisassociateScramSecret clusterArn [secretArn]]).
  assert (Hdis' : forall k : unit -> Op unit,
            (match mskClient_BatchDisassociateScramSecret w tr3 with
             | inl err => unlessRetriable w (mskClient_BatchDisassociateScramSecret w tr3)
             | inr bdss => pure (checkDisassociated bdss)
             end ≫= k) tr3 = k tt tr3).
  { intros k. apply op_bind_Ok. specialize (Hdis tr3).
    destruct (mskClient_BatchDisassociateScramSecret w tr3) as [err|bdss]; cbn.
    - by rewrite Hdis.
    - unfold pure. by rewrite Hdis. }
  rewrite Hdis'.
  assert (Hlast : forall tr4,
            (try (send_ (DeleteSecret username true) (secretsManagerClient_DeleteSecret w))
             ≫= unlessRetriable w) tr4
            = (Ok tt, tr4 ++ [DeleteSecret username true])).
  { intros tr4. erewrite op_bind_Ok by apply try_send_.
    destruct (secretsManagerClient_DeleteSecret w _) as [err|] eqn:Hreply; [|done].
    cbn. by rewrite (Hdelete _ _ Hreply). }
  destruct (decide (Arn u ≠ "")) as [Harn|Harn].
  - set (grant := CreateGrant username kmsKeyID (Arn u) [GrantOperationDecrypt]).
    set (revoke := match kmsClient_CreateGrant w (tr3 ++ [grant]) with
                   | inl _ => []
                   | inr grantId => [RevokeGrant grantId kmsKeyID]
                   end).
    erewrite (op_bind_Ok _ _ _ tt (tr3 ++ grant :: revoke)); cycle 1.
    { erewrite op_bind_Ok by apply try_send. fold grant. subst revoke.
      destruct (kmsClient_CreateGrant w (tr3 ++ [grant])) as [err|grantId] eqn:Hreply.
      - cbn. by rewrite (Hgrant _ _ Hreply).
      - erewrite op_bind_Ok by apply try_send_.
        destruct (kmsClient_RevokeGrant w _) as [err|] eqn:Hreply'.
        + cbn. rewrite (Hrevoke _ _ Hreply'). by rewrite <- app_assoc.
        + cbn. by rewrite <- app_assoc. }
    rewrite Hlast. exists (grant :: revoke). split_and!.
    + f_equal. subst tr3. rewrite <- !app_assoc. cbn [app]. reflexivity.
    + constructor; [done|]. subst revoke.
      destruct (kmsClient_CreateGrant w (tr3 ++ [grant])); by repeat constructor.
    + done.
    + intros _. by exists revoke.
  - erewrite op_bind_Ok by reflexivity. rewrite Hlast. exists []. split_and!.
    + f_equal. subst tr3. by rewrite <- !app_assoc.
    + constructor.
    + done.
    + intros Hne. by destruct Harn.
Qed.

Lemma sends_generatePassword (P : Request -> Prop) w :
  (forall n, P (RandRead n)) -> sends P (generatePassword w).
Proof.
  intros HP. unfold generatePassword.
  apply sends_bind; [by apply sends_stacked, sends_send|].
  intros [n buf]. case_match; auto using sends_raise, sends_ret.
Qed.

(** X25.  No Arn, no grant.  For a user without an Arn, [CreateUser]
    never puts a resource policy on the secret nor creates a grant on the
    key, and [DeleteUser] never creates or revokes a grant, whatever the
    backends answer. *)
Theorem no_Arn_no_grant (w : Backends) (u : User)
    (shortStackID topic kmsKeyID clusterArn : string) :
  Arn u = "" ->
  sends (fun r => ~ grants_access r) (CreateUser w shortStackID topic kmsKeyID clusterArn u)
  /\ sends (fun r => ~ grants_access r)
           (DeleteUser w u kmsKeyID topic shortStackID clusterArn).
Proof.
  intros Harn. split.
  - unfold CreateUser.
    apply sends_bind; [apply sends_stacked, sends_generatePassword; by intros ? []|].
    intros password.
    apply sends_bind; [apply sends_try, sends_send; by intros []|]. intros r.
    apply sends_bind.
    { destruct r as [err|csr]; [|apply sends_pure].
      case_match; [apply sends_raise|].
      apply sends_bind; [apply sends_stacked, sends_send; by intros []|].
      intros ds. apply sends_pure. }
    intros secretArn. apply sends_bind; [case_decide; [done|apply sends_ret]|]. intros _.
    apply sends_bind; [apply sends_send_; by intros []|]. intros _.
    apply sends_bind; [apply sends_stacked, sends_send; by intros []|]. intros bass.
    apply sends_bind; [apply sends_pure|]. intros _.
    apply sends_stacked. unfold createACLs. apply sends_createACLs_loop. by intros ? [].
  - unfold DeleteUser.
    apply sends_bind.
    { apply sends_stacked. unfold deleteACLs. apply sends_deleteACLs_loop. by intros ? []. }
    intros _. apply sends_bind; [apply sends_try, sends_send; by intros []|].
    intros [err|ds]; [case_match; auto using sends_ret, sends_raise|].
    apply sends_bind; [apply sends_pure|]. intros secretArn.
    apply sends_bind; [apply sends_try, sends_send; by intros []|]. intros r.
    apply sends_bind.
    { destruct r; [apply sends_unlessRetriable|apply sends_pure]. }
    intros _. apply sends_bind; [case_decide; [done|apply sends_ret]|]. intros _.
    apply sends_bind; [apply sends_try, sends_send_; by intros []|]. intros r'.
    apply sends_unlessRetriable.
Qed.

End users.


Section passwords.
Import types acl userManager.

Example base64_foobar :
  base64.EncodeToString (bytes_of_string "foobar") = "Zm9vYmFy"
  /\ base64.EncodeToString (bytes_of_string "fo") = "Zm8"
  /\ base64.EncodeToString (bytes_of_string "f") = "Zg".
Proof. by vm_compute. Qed.

Lemma sextets_length n bs : length (base64.sextets n bs) = n.
Proof. revert bs. induction n as [|n IH]; intros bs; cbn; [done|]. by rewrite IH. Qed.

Lemma sextet_length bs : length (base64.sextet bs) = 6%nat.
Proof. unfold base64.sextet. rewrite length_take, length_app, repeat_length. lia. Qed.

Lemma sextets_all n bs : Forall (fun g => length g = 6%nat) (base64.sextets n bs).
Proof.
  revert bs. induction n as [|n IH]; intros bs; cbn; constructor; auto using sextet_length.
Qed.

Lemma base64_length src :
  String.length (base64.EncodeToString src) = ((8 * length src + 5) / 6)%nat.
Proof.
  unfold base64.EncodeToString.
  by rewrite string_of_list_ascii_length, length_map, sextets_length, bits_length.
Qed.

Lemma base64_digit g :
  length g = 6%nat -> base64.digit g ∈ list_ascii_of_string base64.encodeStd.
Proof.
  destruct g as [|b1 [|b2 [|b3 [|b4 [|b5 [|b6 [|]]]]]]]; try done. intros _.
  destruct b1, b2, b3, b4, b5, b6; by_evaluation.
Qed.

Lemma base64_alphabet src :
  Forall (fun c => c ∈ list_ascii_of_string base64.encodeStd)
         (list_ascii_of_string (base64.EncodeToString src)).
Proof.
  unfold base64.EncodeToString. rewrite list_ascii_of_string_of_list_ascii.
  apply Forall_fmap. eapply Forall_impl; [apply sextets_all|].
  intros g Hg. by apply base64_digit.
Qed.

(** X26.  [generatePassword] asks for 9 random bytes and makes one
    request.  When the source of randomness fails its error is returned
    wrapped; when it filled fewer bytes than asked the result is the error
    [password generation failed]; otherwise the password is the unpadded
    base64 text of the 9 bytes: 12 characters of the base64 alphabet.  A
    password is never built from fewer bytes. *)
Theorem generatePassword_result (w : Backends) (tr : list Request) :
  let tr1 := tr ++ [RandRead 9] in
  (generatePassword w tr).2 = tr1
  /\ match rand_Read w tr1 with
     | inl err => (generatePassword w tr).1 = Err (WithStack err)
     | inr (n, buf) =>
         if decide (n = 9%nat) then
           exists password,
             (generatePassword w tr).1 = Ok password
             /\ password = base64.EncodeToString (resize 9 0 buf)
             /\ String.length password = 12%nat
             /\ Forall (fun c => c ∈ list_ascii_of_string base64.encodeStd)
                       (list_ascii_of_string password)
         else (generatePassword w tr).1 = Err (errors_New "password generation failed")
     end.
Proof.
  intros tr1. unfold generatePassword. op_unfold. fold tr1.
  destruct (rand_Read w tr1) as [err|[n buf]]; [done|].
  destruct (decide (n = 9%nat)) as [->|Hn].
  - split; [done|]. eexists. split_and!; [done|done| |apply base64_alphabet].
    by rewrite base64_length, length_resize.
  - by rewrite decide_True by done.
Qed.

Lemma SecretString_eq username password :
  fmt.Sprintf SecretTemplate [username; password]
  = "{" +:+ quoted "username" +:+ ":" +:+ quoted username +:+ ", "
        +:+ quoted "password" +:+ ":" +:+ quoted password +:+ "}".
Proof.
  unfold SecretTemplate. cbn [fmt.Sprintf]. unfold quoted, quote.
  repeat (rewrite ?append_assoc, ?append_cons, ?append_empty_l). reflexivity.
Qed.

Lemma SecretPolicy_principal principalArn :
  occurs_in (quoted "AWS" +:+ ": " +:+ quoted principalArn)
            (fmt.Sprintf SecretPolicyTemplate [principalArn])
  /\ occurs_in (quoted "Action" +:+ ": " +:+ quoted "secretsmanager:GetSecretValue")
               (fmt.Sprintf SecretPolicyTemplate [principalArn]).
Proof.
  split.
  - exists (String.substring 0 92 SecretPolicyTemplate),
           (String.substring 103 80 SecretPolicyTemplate).
    unfold SecretPolicyTemplate. cbn [fmt.Sprintf String.substring]. unfold quoted, quote.
    repeat (rewrite ?append_assoc, ?append_cons, ?append_empty_l). reflexivity.
  - exists (String.substring 0 100 SecretPolicyTemplate +:+ principalArn
            +:+ String.substring 102 11 SecretPolicyTemplate),
           (String.substring 154 29 SecretPolicyTemplate).
    unfold SecretPolicyTemplate. cbn [fmt.Sprintf String.substring]. unfold quoted, quote.
    repeat (rewrite ?append_assoc, ?append_cons, ?append_empty_l). reflexivity.
Qed.

End passwords.


Section create_user.
Import types acl userManager.

(** X27.  The requests of a successful [CreateUser], in order: 9 random
    bytes; [CreateSecret] under the canonical username, encrypted with
    the key, holding the username and a 12-character password; a lookup
    of the secret when it exists already; for a user with an Arn, the
    resource policy that lets that principal read the secret and a Decrypt
    grant on the key; the delay; the association of the secret with the
    cluster; the ACLs of the user.  A secret that exists already and a
    secret that is associated already are not failures, so a create can
    be run again. *)
Theorem CreateUser_requests (w : Backends)
    (shortStackID topic kmsKeyID clusterArn : string) (u : User) (tr : list Request)
    (buf : list Z) (secretArn : string) :
  let username := admin.canonicalUsername (Username u) shortStackID in
  let password := base64.EncodeToString (resize 9 0 buf) in
  let secretString :=
    "{" +:+ quoted "username" +:+ ":" +:+ quoted username +:+ ", "
        +:+ quoted "password" +:+ ":" +:+ quoted password +:+ "}" in
  let policy := fmt.Sprintf SecretPolicyTemplate [Arn u] in
  let tr1 := tr ++ [RandRead 9] in
  let tr2 := tr1 ++ [CreateSecret username kmsKeyID secretString] in
  let lookup :=
    match secretsManagerClient_CreateSecret w tr2 with
    | inl _ => [DescribeSecret username]
    | inr _ => []
    end in
  let access :=
    if decide (Arn u ≠ "")
    then [ PutResourcePolicy secretArn policy;
           CreateGrant username kmsKeyID (Arn u) [GrantOperationDecrypt] ]
    else [] in
  rand_Read w tr1 = inr (9%nat, buf) ->
  match secretsManagerClient_CreateSecret w tr2 with
  | inr csr => csr = Some secretArn
  | inl err =>
      As_ResourceExistsException w err = true
      /\ secretsManagerClient_DescribeSecret w (tr2 ++ [DescribeSecret username])
         = inr (Some secretArn)
  end ->
  (forall h, secretsManagerClient_PutResourcePolicy w h = None) ->
  (forall h, exists grantId, kmsClient_CreateGrant w h = inr grantId) ->
  (forall h, exists unprocessed,
      mskClient_BatchAssociateScramSecret w h = inr unprocessed
      /\ checkAssociated unprocessed = Ok tt) ->
  (forall h, exists first rest,
      kafkaClient_CreateACLs w h = inr (first :: rest) /\ ResultErr first = None) ->
  CreateUser w shortStackID topic kmsKeyID clusterArn u tr
  = (Ok tt,
     tr2 ++ lookup ++ access
         ++ [Delay; BatchAssociateScramSecret clusterArn [secretArn]]
         ++ (KafkaCreateACLs <$> userPermissionToACL topic username (Permissions u)))
  /\ String.length password = 12%nat
  /\ occurs_in (quoted "AWS" +:+ ": " +:+ quoted (Arn u)) policy
  /\ occurs_in (quoted "Action" +:+ ": " +:+ quoted "secretsmanager:GetSecretValue") policy.
Proof.
  intros username password secretString policy tr1 tr2 lookup access
    Hrand Hsecret Hpolicy Hgrant Hassoc Hacls.
  split; [|split; [subst password; by rewrite base64_length, length_resize
                  |apply SecretPolicy_principal]].
  unfold CreateUser. fold username.
  erewrite op_bind_Ok; cycle 1.
  { apply stacked_Ok. unfold generatePassword.
    erewrite op_bind_Ok by (by apply stacked_Ok, send_inr). reflexivity. }
  fold password. rewrite SecretString_eq. fold secretString.
  erewrite op_bind_Ok by apply try_send. fold tr1 tr2.
  set (tr3 := tr2 ++ lookup).
  erewrite (op_bind_Ok _ _ _ secretArn tr3); cycle 1.
  { subst tr3 lookup.
    destruct (secretsManagerClient_CreateSecret w tr2) as [err|csr].
    - destruct Hsecret as [-> Hfound]. cbn [negb].
      erewrite op_bind_Ok by (by apply stacked_Ok, send_inr). reflexivity.
    - subst csr. by rewrite app_nil_r. }
  set (tr4 := tr3 ++ access).
  erewrite (op_bind_Ok _ _ _ tt tr4); cycle 1.
  { subst tr4 access. destruct (decide (Arn u ≠ "")) as [Harn|Harn].
    - apply stacked_Ok. unfold grantAccessToSecretForArn.
      erewrite op_bind_Ok; cycle 1.
      { apply stacked_Ok, send_inr. by rewrite Hpolicy. }
      destruct (Hgrant ((tr3 ++ [PutResourcePolicy secretArn policy])
                        ++ [CreateGrant username kmsKeyID (Arn u) [GrantOperationDecrypt]]))
        as [grantId Hreply].
      erewrite op_bind_Ok by (by apply stacked_Ok, send_inr).
      cbn. by rewrite <- app_assoc.
    - cbn. by rewrite app_nil_r. }
  erewrite op_bind_Ok by reflexivity.
  destruct (Hassoc ((tr4 ++ [Delay]) ++ [BatchAssociateScramSecret clusterArn [secretArn]]))
    as (unprocessed & Hreply & Hcheck).
  erewrite op_bind_Ok by (by apply stacked_Ok, send_inr).
  erewrite op_bind_Ok by (unfold pure; by rewrite Hcheck).
  erewrite stacked_Ok by (by apply createACLs_loop_accepted).
  f_equal. subst tr4 tr3. rewrite <- !app_assoc. reflexivity.
Qed.

End create_user.


(** [alice], a reader, when her secret is gone already. *)
Lemma DeleteUser_secret_gone_witness :
  userManager.DeleteUser scenarios.cleaned fixtures.alice "key-1" "a-T6DNBAMI" "T6DNBAMI"
    "arn-1" []
  = (Ok tt,
     [ userManager.KafkaDeleteACLs
         (topic_builder "a-T6DNBAMI" "User:AmazonMSK_alice_T6DNBAMI" [acl.OpRead]);
       userManager.KafkaDeleteACLs
         (group_builder "User:AmazonMSK_alice_T6DNBAMI" [acl.OpRead; acl.OpDescribe]);
       userManager.DescribeSecret "AmazonMSK_alice_T6DNBAMI" ]).
Proof.
  rewrite (DeleteUser_secret_gone scenarios.cleaned fixtures.alice "key-1" "a-T6DNBAMI"
             "T6DNBAMI" "arn-1" []
             [ userManager.KafkaDeleteACLs
                 (topic_builder "a-T6DNBAMI" "User:AmazonMSK_alice_T6DNBAMI" [acl.OpRead]);
               userManager.KafkaDeleteACLs
                 (group_builder "User:AmazonMSK_alice_T6DNBAMI"
                    [acl.OpRead; acl.OpDescribe]) ]
             scenarios.notFound); reflexivity.
Defined.

(** [alice], with an Arn, on backends that deny every clean-up request. *)
Lemma DeleteUser_passes_over_witness :
  exists requests,
    userManager.DeleteUser scenarios.denying fixtures.alice "key-1" "a-T6DNBAMI" "T6DNBAMI"
      "arn-1" []
    = (Ok tt, requests)
    /\ last requests = Some (userManager.DeleteSecret "AmazonMSK_alice_T6DNBAMI" true).
Proof.
  destruct (DeleteUser_passes_over scenarios.denying fixtures.alice "key-1" "a-T6DNBAMI"
              "T6DNBAMI" "arn-1" []
              [ userManager.KafkaDeleteACLs
                  (topic_builder "a-T6DNBAMI" "User:AmazonMSK_alice_T6DNBAMI" [acl.OpRead]);
                userManager.KafkaDeleteACLs
                  (group_builder "User:AmazonMSK_alice_T6DNBAMI"
                     [acl.OpRead; acl.OpDescribe]) ]
              "arn:secret") as (between & Hrun & _).
  - reflexivity.
  - reflexivity.
  - split_and!; intros h; try intros err [= <-]; reflexivity.
  - eexists. split; [exact Hrun|]. by rewrite !app_assoc, last_snoc.
Defined.

(** [alice] without an Arn. *)
Lemma no_Arn_no_grant_witness :
  sends (fun r => ~ grants_access r)
        (userManager.CreateUser scenarios.willing "T6DNBAMI" "a-T6DNBAMI" "key-1" "arn-1"
           fixtures.aliceNoArn)
  /\ sends (fun r => ~ grants_access r)
           (userManager.DeleteUser scenarios.willing fixtures.aliceNoArn "key-1" "a-T6DNBAMI"
              "T6DNBAMI" "arn-1").
Proof. apply no_Arn_no_grant. reflexivity. Defined.

(** [alice], a reader with an Arn, on willing backends. *)
Lemma CreateUser_requests_witness :
  (userManager.CreateUser scenarios.willing "T6DNBAMI" "a-T6DNBAMI" "key-1" "arn-1"
     fixtures.alice []).1 = Ok tt
  /\ length (userManager.CreateUser scenarios.willing "T6DNBAMI" "a-T6DNBAMI" "key-1" "arn-1"
               fixtures.alice []).2 = 8%nat.
Proof.
  destruct (CreateUser_requests scenarios.willing "T6DNBAMI" "a-T6DNBAMI" "key-1" "arn-1"
              fixtures.alice [] [1; 2; 3; 4; 5; 6; 7; 8; 9] "arn:secret") as [Hrun _].
  - reflexivity.
  - reflexivity.
  - reflexivity.
  - intros h. by eexists.
  - intros h. by eexists.
  - intros h. by eexists _, _.
  - rewrite Hrun. split; reflexivity.
Defined.

